(** * MedicineRegistry: a shallow embedding of contracts/MedicineRegistry.sol

    The contract keeps medicine batches, their supply-chain participants and
    the state channels through which batches are registered.  Every external
    function is embedded as a computation in a small state-and-revert monad
    over the contract storage; a transaction either commits the storage the
    computation ends in or, when a [require] fails, leaves the storage it
    started from.  The external collaborators (ECDSA recovery, keccak256,
    the ABI codec and the reward token) are the fields of one class. *)

From Stdlib Require Import NArith.
From Stdlib.Strings Require Import Byte.
From stdpp Require Import base decidable countable gmap strings list.

Local Open Scope string_scope.
Local Open Scope list_scope.
Local Open Scope stdpp_scope.

(** ** Solidity value types *)

Definition address := N.
Definition uint256 := N.
Definition bytes32 := N.
Definition bytes := list byte.

Definition MAX_UINT256 : N := (2 ^ 256 - 1)%N.
Definition address_zero : address := 0%N.

(** ** Data model *)

Inductive SupplyChainRole :=
| NONE | TRANSPORTER | SUPPLIER | DISTRIBUTOR | WHOLESALER | RETAILER.

Record SupplyChainParticipant := {
  participantAddress : address;
  role : SupplyChainRole;
  hasVerified : bool;
  verifiedAt : uint256;
  location : string;
  additionalData : string
}.

Record MedicineBatch := {
  manufacturer : address;
  batchId : string;
  drugName : string;
  ingredients : string;
  expiryDate : uint256;
  registeredAt : uint256;
  channelId : bytes32;
  supplyChainParticipants : list SupplyChainParticipant;
  isParticipant : gset address;          (* mapping(address => bool) *)
  totalParticipants : uint256;
  verifiedCount : uint256;
  rewardClaimed : bool;
  rewardClaimedBy : address;
  rewardClaimedAt : uint256;
  exists_ : bool
}.

Record StateChannel := {
  c_id : bytes32;
  c_participants : list address;
  c_nonce : uint256;
  c_isOpen : bool;
  c_openedAt : uint256;
  c_closedAt : uint256
}.

Record BatchData := {
  d_batchId : string;
  d_drugName : string;
  d_ingredients : string;
  d_expiryDate : uint256;
  d_supplyChainAddresses : list address;
  d_supplyChainRoles : list SupplyChainRole
}.

(** The role identifiers of the inherited AccessControl. *)
Inductive AccessRole :=
| DEFAULT_ADMIN_ROLE | MANUFACTURER_ROLE | VERIFIER_ROLE | CHANNEL_ROLE.

Global Instance SupplyChainRole_eq_dec : EqDecision SupplyChainRole.
Proof. solve_decision. Defined.
Global Instance AccessRole_eq_dec : EqDecision AccessRole.
Proof. solve_decision. Defined.
Global Instance SupplyChainParticipant_eq_dec : EqDecision SupplyChainParticipant.
Proof. solve_decision. Defined.

Definition AccessRole_code (r : AccessRole) : nat :=
  match r with
  | DEFAULT_ADMIN_ROLE => 0 | MANUFACTURER_ROLE => 1
  | VERIFIER_ROLE => 2 | CHANNEL_ROLE => 3
  end.

Definition AccessRole_of_code (n : nat) : AccessRole :=
  match n with
  | 0 => DEFAULT_ADMIN_ROLE | 1 => MANUFACTURER_ROLE
  | 2 => VERIFIER_ROLE | _ => CHANNEL_ROLE
  end.

Global Instance AccessRole_countable : Countable AccessRole.
Proof.
  apply (inj_countable' AccessRole_code AccessRole_of_code).
  by intros [].
Defined.

(** Storage of the contract.  The nested mapping [batchParticipants] is keyed
    by the pair of its two keys.  [pendingRewards] and [lastVerification] are
    declared in the source but no function reads or writes them. *)
Record Storage := {
  batches : gmap string MedicineBatch;
  channels : gmap bytes32 StateChannel;
  batchParticipantsList : gmap string (list address);
  batchParticipants : gmap (string * address) SupplyChainParticipant;
  roles : gset (AccessRole * address);   (* AccessControl *)
  entered : bool                         (* ReentrancyGuard status *)
}.

(** Zero values: what a Solidity mapping holds at a key never written. *)
Definition zero_participant : SupplyChainParticipant :=
  {| participantAddress := address_zero; role := NONE; hasVerified := false;
     verifiedAt := 0%N; location := ""; additionalData := "" |}.

Definition zero_batch : MedicineBatch :=
  {| manufacturer := address_zero; batchId := ""; drugName := "";
     ingredients := ""; expiryDate := 0%N; registeredAt := 0%N;
     channelId := 0%N; supplyChainParticipants := []; isParticipant := ∅;
     totalParticipants := 0%N; verifiedCount := 0%N; rewardClaimed := false;
     rewardClaimedBy := address_zero; rewardClaimedAt := 0%N;
     exists_ := false |}.

Definition zero_channel : StateChannel :=
  {| c_id := 0%N; c_participants := []; c_nonce := 0%N; c_isOpen := false;
     c_openedAt := 0%N; c_closedAt := 0%N |}.

Definition batch_at (s : Storage) (id : string) : MedicineBatch :=
  default zero_batch (batches s !! id).

Definition channel_at (s : Storage) (cid : bytes32) : StateChannel :=
  default zero_channel (channels s !! cid).

Definition participant_at (s : Storage) (id : string) (a : address)
  : SupplyChainParticipant :=
  default zero_participant (batchParticipants s !! (id, a)).

Definition hasRole (s : Storage) (r : AccessRole) (a : address) : bool :=
  bool_decide ((r, a) ∈ roles s).

(** Storage writes. *)
Definition set_batch (id : string) (b : MedicineBatch) (s : Storage) : Storage :=
  {| batches := <[id := b]> (batches s); channels := channels s;
     batchParticipantsList := batchParticipantsList s;
     batchParticipants := batchParticipants s; roles := roles s;
     entered := entered s |}.

Definition set_channel (cid : bytes32) (c : StateChannel) (s : Storage) : Storage :=
  {| batches := batches s; channels := <[cid := c]> (channels s);
     batchParticipantsList := batchParticipantsList s;
     batchParticipants := batchParticipants s; roles := roles s;
     entered := entered s |}.

Definition set_participantsList (id : string) (l : list address) (s : Storage)
  : Storage :=
  {| batches := batches s; channels := channels s;
     batchParticipantsList := <[id := l]> (batchParticipantsList s);
     batchParticipants := batchParticipants s; roles := roles s;
     entered := entered s |}.

Definition set_participant (id : string) (a : address)
    (p : SupplyChainParticipant) (s : Storage) : Storage :=
  {| batches := batches s; channels := channels s;
     batchParticipantsList := batchParticipantsList s;
     batchParticipants := <[(id, a) := p]> (batchParticipants s);
     roles := roles s; entered := entered s |}.

Definition set_roles (r : gset (AccessRole * address)) (s : Storage) : Storage :=
  {| batches := batches s; channels := channels s;
     batchParticipantsList := batchParticipantsList s;
     batchParticipants := batchParticipants s; roles := r;
     entered := entered s |}.

Definition set_entered (e : bool) (s : Storage) : Storage :=
  {| batches := batches s; channels := channels s;
     batchParticipantsList := batchParticipantsList s;
     batchParticipants := batchParticipants s; roles := roles s;
     entered := e |}.

(** ** Events, errors and the transaction context *)

Inductive Event :=
| BatchRegistered (batchId : string) (manufacturer : address)
    (channelId : bytes32) (timestamp participantCount : uint256)
| SupplyChainVerification (batchId : string) (verifier : address)
    (role : SupplyChainRole) (timestamp : uint256) (location : string)
| CustomerRewardClaimed (batchId : string) (customer : address)
    (reward timestamp : uint256)
| ChannelOpened (channelId : bytes32) (participants : list address)
| ChannelClosed (channelId : bytes32) (timestamp : uint256)
| BatchSettled (batchId : string) (channelId : bytes32).

(** What a running call does to the outside, in program order.  A call of
    the token's [mint] is recorded with the storage the registry has at the
    moment control leaves it. *)
Inductive Effect :=
| Emit (ev : Event)
| CallMint (at_call : Storage) (to : address) (amount : uint256).

Inductive Error :=
| Revert (reason : string)     (* require(cond, reason) *)
| Panic (code : N)             (* 0x11 checked arithmetic, 0x32 array index *)
| LibraryError (name : string) (* raised inside ECDSA, AccessControl, ... *).

Global Instance Error_eq_dec : EqDecision Error.
Proof. solve_decision. Defined.

Record Env := {
  msg_sender : address;
  block_timestamp : uint256
}.

Definition CUSTOMER_REWARD : uint256 := (10 ^ 18)%N.   (* 1 ether *)

(** ** External collaborators

    Code the contract calls but does not contain: the hashing and signature
    recovery of its OpenZeppelin imports, the ABI codec, and the token whose
    [mint] pays the customer reward.  [recover] and [abi_decode] answer
    [None] where the library reverts; [mint] answers the error it reverts
    with.  The token does not call back into the registry. *)
Class Collaborators := {
  keccak256 : bytes → bytes32;
  toEthSignedMessageHash : bytes32 → bytes32;
  recover : bytes32 → bytes → option address;
  encodePacked : string → address → string → string → bytes;
  abi_decode : bytes → option (list BatchData);
  Token : Type;
  mint : Token → address → uint256 → Error + Token
}.

Section Registry.
Context `{Collaborators}.

Record World := {
  store : Storage;
  token : Token
}.

(** ** The execution monad: storage, effect trace, revert *)

Inductive Outcome (A : Type) :=
| Done (a : A) (w : World) (tr : list Effect)
| Failed (e : Error) (tr : list Effect).
Arguments Done {A} a w tr.
Arguments Failed {A} e tr.

Definition M (A : Type) := World → list Effect → Outcome A.

Global Instance M_ret : MRet M := λ A a w tr, Done a w tr.
Global Instance M_bind : MBind M := λ A B f m w tr,
  match m w tr with
  | Done a w' tr' => f a w' tr'
  | Failed e tr' => Failed e tr'
  end.

Definition get : M Storage := λ w tr, Done (store w) w tr.
Definition modify (f : Storage → Storage) : M unit :=
  λ w tr, Done () {| store := f (store w); token := token w |} tr.
Definition fail {A} (e : Error) : M A := λ _ tr, Failed e tr.
Definition require (cond : bool) (reason : string) : M unit :=
  if cond then mret () else fail (Revert reason).
Definition emit (ev : Event) : M unit := λ w tr, Done () w (tr ++ [Emit ev]).

(** [mediToken.mint(to, amount)]: control leaves the registry with the
    storage it has now; a revert of the callee propagates. *)
Definition call_mint (to : address) (amount : uint256) : M unit :=
  λ w tr,
    let tr' := tr ++ [CallMint (store w) to amount] in
    match mint (token w) to amount with
    | inr t' => Done () {| store := store w; token := t' |} tr'
    | inl e => Failed e tr'
    end.

(** Modifiers. *)
Definition nonReentrant (body : M unit) : M unit :=
  s ← get;
  (if entered s then fail (LibraryError "ReentrancyGuardReentrantCall")
   else mret ());;
  modify (set_entered true);;
  body;;
  modify (set_entered false).

Definition onlyRole (env : Env) (r : AccessRole) : M unit :=
  s ← get;
  if hasRole s r (msg_sender env) then mret ()
  else fail (LibraryError "AccessControlUnauthorizedAccount").

(** ** isChannelParticipant *)

Fixpoint address_in (participants : list address) (a : address) : bool :=
  match participants with
  | [] => false
  | p :: rest => if bool_decide (p = a) then true else address_in rest a
  end.

Definition isChannelParticipant (s : Storage) (cid : bytes32) (a : address)
  : bool :=
  address_in (c_participants (channel_at s cid)) a.

(** ** registerBatchWithSupplyChain (internal) *)

Definition new_batch_header (env : Env) (id drug ingr : string)
    (expiry : uint256) (n : nat) (cid : bytes32) (b : MedicineBatch)
  : MedicineBatch :=
  {| manufacturer := msg_sender env; batchId := id; drugName := drug;
     ingredients := ingr; expiryDate := expiry;
     registeredAt := block_timestamp env; channelId := cid;
     supplyChainParticipants := supplyChainParticipants b;
     isParticipant := isParticipant b;
     totalParticipants := N.of_nat n; verifiedCount := 0%N;
     rewardClaimed := false; rewardClaimedBy := rewardClaimedBy b;
     rewardClaimedAt := rewardClaimedAt b; exists_ := true |}.

Definition new_participant (a : address) (r : SupplyChainRole)
  : SupplyChainParticipant :=
  {| participantAddress := a; role := r; hasVerified := false;
     verifiedAt := 0%N; location := ""; additionalData := "" |}.

(** [supplyChainParticipants.push(p); isParticipant[p.participantAddress] = true] *)
Definition push_participant (p : SupplyChainParticipant) (b : MedicineBatch)
  : MedicineBatch :=
  {| manufacturer := manufacturer b; batchId := batchId b;
     drugName := drugName b; ingredients := ingredients b;
     expiryDate := expiryDate b; registeredAt := registeredAt b;
     channelId := channelId b;
     supplyChainParticipants := supplyChainParticipants b ++ [p];
     isParticipant := {[participantAddress p]} ∪ isParticipant b;
     totalParticipants := totalParticipants b;
     verifiedCount := verifiedCount b; rewardClaimed := rewardClaimed b;
     rewardClaimedBy := rewardClaimedBy b;
     rewardClaimedAt := rewardClaimedAt b; exists_ := exists_ b |}.

(** The loop over [_participants]; [rs] is [_roles] from index [i] on. *)
Fixpoint add_participants (id : string) (ps : list address)
    (rs : list SupplyChainRole) : M unit :=
  match ps with
  | [] => mret ()
  | a :: ps' =>
      require (bool_decide (a ≠ address_zero)) "Invalid participant address";;
      s ← get;
      require (bool_decide (a ∉ isParticipant (batch_at s id)))
        "Duplicate participant";;
      match rs with
      | [] => fail (Panic 50)
      | r :: rs' =>
          modify (λ s, set_batch id
                         (push_participant (new_participant a r) (batch_at s id)) s);;
          modify (set_participant id a (new_participant a r));;
          add_participants id ps' rs'
      end
  end.

Definition registerBatchWithSupplyChain (env : Env) (id drug ingr : string)
    (expiry : uint256) (ps : list address) (rs : list SupplyChainRole)
    (cid : bytes32) : M unit :=
  s ← get;
  require (negb (exists_ (batch_at s id))) "Batch already exists";;
  require (bool_decide (block_timestamp env < expiry)%N)
    "Expiry date must be in future";;
  require (bool_decide (length ps = length rs))
    "Participants and roles mismatch";;
  require (bool_decide (0 < length ps)) "At least one participant required";;
  modify (λ s, set_batch id
                 (new_batch_header env id drug ingr expiry (length ps) cid
                    (batch_at s id)) s);;
  modify (set_participantsList id ps);;
  add_participants id ps rs;;
  emit (BatchRegistered id (msg_sender env) cid (block_timestamp env)
          (N.of_nat (length ps))).

(** ** settleChannel *)

Fixpoint settle_batches (env : Env) (cid : bytes32) (l : list BatchData)
  : M unit :=
  match l with
  | [] => mret ()
  | data :: rest =>
      s ← get;
      (if exists_ (batch_at s (d_batchId data)) then mret ()
       else
         registerBatchWithSupplyChain env (d_batchId data) (d_drugName data)
           (d_ingredients data) (d_expiryDate data)
           (d_supplyChainAddresses data) (d_supplyChainRoles data) cid;;
         emit (BatchSettled (d_batchId data) cid));;
      settle_batches env cid rest
  end.

(** [channel.isOpen = false; channel.closedAt = block.timestamp] *)
Definition close_channel (now : uint256) (c : StateChannel) : StateChannel :=
  {| c_id := c_id c; c_participants := c_participants c;
     c_nonce := c_nonce c; c_isOpen := false; c_openedAt := c_openedAt c;
     c_closedAt := now |}.

Definition bump_nonce (c : StateChannel) : StateChannel :=
  {| c_id := c_id c; c_participants := c_participants c;
     c_nonce := (c_nonce c + 1)%N; c_isOpen := c_isOpen c;
     c_openedAt := c_openedAt c; c_closedAt := c_closedAt c |}.

Definition settleChannel (env : Env) (cid : bytes32)
    (finalState signature : bytes) : M unit :=
  nonReentrant (
    s ← get;
    require (c_isOpen (channel_at s cid)) "Channel not open";;
    match abi_decode finalState with
    | None => fail (LibraryError "abi.decode")
    | Some batchDataArray =>
        match recover (toEthSignedMessageHash (keccak256 finalState)) signature with
        | None => fail (LibraryError "ECDSAInvalidSignature")
        | Some signer =>
            require (isChannelParticipant s cid signer) "Invalid signer";;
            require (hasRole s MANUFACTURER_ROLE signer)
              "Signer not a manufacturer";;
            settle_batches env cid batchDataArray;;
            modify (λ s, set_channel cid
                           (close_channel (block_timestamp env) (channel_at s cid)) s);;
            s' ← get;
            (if bool_decide (c_nonce (channel_at s' cid) = MAX_UINT256)
             then fail (Panic 17) else mret ());;
            modify (λ s, set_channel cid (bump_nonce (channel_at s cid)) s);;
            emit (ChannelClosed cid (block_timestamp env))
        end
    end).

(** ** verifySupplyChainTransfer *)

Definition mark_verified (now : uint256) (loc data : string)
    (p : SupplyChainParticipant) : SupplyChainParticipant :=
  {| participantAddress := participantAddress p; role := role p;
     hasVerified := true; verifiedAt := now; location := loc;
     additionalData := data |}.

(** [supplyChainParticipants[i] = p'; verifiedCount++] *)
Definition record_verification (i : nat) (p' : SupplyChainParticipant)
    (b : MedicineBatch) : MedicineBatch :=
  {| manufacturer := manufacturer b; batchId := batchId b;
     drugName := drugName b; ingredients := ingredients b;
     expiryDate := expiryDate b; registeredAt := registeredAt b;
     channelId := channelId b;
     supplyChainParticipants := <[i := p']> (supplyChainParticipants b);
     isParticipant := isParticipant b;
     totalParticipants := totalParticipants b;
     verifiedCount := (verifiedCount b + 1)%N;
     rewardClaimed := rewardClaimed b; rewardClaimedBy := rewardClaimedBy b;
     rewardClaimedAt := rewardClaimedAt b; exists_ := exists_ b |}.

(** The search loop; [l] is the participant array from index [i] on.  The
    body runs at the first entry of the caller and the loop then breaks. *)
Fixpoint verify_loop (env : Env) (id loc data : string)
    (l : list SupplyChainParticipant) (i : nat) : M unit :=
  match l with
  | [] => mret ()
  | p :: rest =>
      if bool_decide (participantAddress p = msg_sender env) then
        require (negb (hasVerified p)) "Already verified";;
        s ← get;
        (if bool_decide (verifiedCount (batch_at s id) = MAX_UINT256)
         then fail (Panic 17) else mret ());;
        modify (λ s, set_batch id
                       (record_verification i
                          (mark_verified (block_timestamp env) loc data p)
                          (batch_at s id)) s);;
        modify (λ s, set_participant id (msg_sender env)
                       (mark_verified (block_timestamp env) loc data
                          (participant_at s id (msg_sender env))) s);;
        emit (SupplyChainVerification id (msg_sender env) (role p)
                (block_timestamp env) loc)
      else verify_loop env id loc data rest (S i)
  end.

Definition verifySupplyChainTransfer (env : Env) (id loc data : string)
    (signature : bytes) : M unit :=
  s ← get;
  require (exists_ (batch_at s id)) "Batch not found";;
  require (bool_decide (msg_sender env ∈ isParticipant (batch_at s id)))
    "Not authorized participant";;
  require (negb (rewardClaimed (batch_at s id))) "Batch already completed";;
  match recover
          (toEthSignedMessageHash
             (keccak256 (encodePacked id (msg_sender env) loc data)))
          signature with
  | None => fail (LibraryError "ECDSAInvalidSignature")
  | Some signer =>
      require (bool_decide (signer = msg_sender env)) "Invalid signature";;
      verify_loop env id loc data (supplyChainParticipants (batch_at s id)) 0
  end.

(** ** claimCustomerReward *)

Definition mark_claimed (env : Env) (b : MedicineBatch) : MedicineBatch :=
  {| manufacturer := manufacturer b; batchId := batchId b;
     drugName := drugName b; ingredients := ingredients b;
     expiryDate := expiryDate b; registeredAt := registeredAt b;
     channelId := channelId b;
     supplyChainParticipants := supplyChainParticipants b;
     isParticipant := isParticipant b;
     totalParticipants := totalParticipants b;
     verifiedCount := verifiedCount b;
     rewardClaimed := true; rewardClaimedBy := msg_sender env;
     rewardClaimedAt := block_timestamp env; exists_ := exists_ b |}.

Definition claimCustomerReward (env : Env) (id : string) : M unit :=
  nonReentrant (
    s ← get;
    require (exists_ (batch_at s id)) "Batch not found";;
    require (negb (rewardClaimed (batch_at s id))) "Reward already claimed";;
    require (bool_decide (verifiedCount (batch_at s id)
                          = totalParticipants (batch_at s id)))
      "Supply chain verification incomplete";;
    require (bool_decide (msg_sender env ∉ isParticipant (batch_at s id)))
      "Supply chain participants cannot claim rewards";;
    modify (λ s, set_batch id (mark_claimed env (batch_at s id)) s);;
    call_mint (msg_sender env) CUSTOMER_REWARD;;
    emit (CustomerRewardClaimed id (msg_sender env) CUSTOMER_REWARD
            (block_timestamp env))).

(** ** openChannel and closeChannel *)

Definition openChannel (env : Env) (cid : bytes32) (ps : list address)
  : M unit :=
  onlyRole env CHANNEL_ROLE;;
  s ← get;
  require (negb (c_isOpen (channel_at s cid))) "Channel already open";;
  modify (set_channel cid
            {| c_id := cid; c_participants := ps; c_nonce := 0%N;
               c_isOpen := true; c_openedAt := block_timestamp env;
               c_closedAt := 0%N |});;
  emit (ChannelOpened cid ps).

Definition closeChannel (env : Env) (cid : bytes32) : M unit :=
  onlyRole env CHANNEL_ROLE;;
  s ← get;
  require (c_isOpen (channel_at s cid)) "Channel not open";;
  modify (λ s, set_channel cid
                 (close_channel (block_timestamp env) (channel_at s cid)) s);;
  emit (ChannelClosed cid (block_timestamp env)).

(** ** View functions *)

Definition getParticipantDetails (s : Storage) (id : string) (a : address)
  : Error + (SupplyChainRole * bool * uint256 * string * string) :=
  if exists_ (batch_at s id) then
    let participant := participant_at s id a in
    inr (role participant, hasVerified participant, verifiedAt participant,
         location participant, additionalData participant)
  else inl (Revert "Batch not found").

Definition isBatchReadyForCustomer (s : Storage) (id : string) : bool :=
  exists_ (batch_at s id) && negb (rewardClaimed (batch_at s id))
  && bool_decide (verifiedCount (batch_at s id)
                  = totalParticipants (batch_at s id)).

Definition getBatchSupplyChainStatus (s : Storage) (id : string)
  : Error + (uint256 * uint256 * bool * address) :=
  if exists_ (batch_at s id) then
    inr (totalParticipants (batch_at s id), verifiedCount (batch_at s id),
         rewardClaimed (batch_at s id), rewardClaimedBy (batch_at s id))
  else inl (Revert "Batch not found").

(** ** The external interface

    The state-changing functions the contract declares [external].
    [registerBatchWithSupplyChain] is declared [internal]: a message that
    names it finds no function and, the contract having no fallback, is
    reverted. *)
Inductive Call :=
| SettleChannel (cid : bytes32) (finalState signature : bytes)
| VerifySupplyChainTransfer (id loc data : string) (signature : bytes)
| ClaimCustomerReward (id : string)
| OpenChannel (cid : bytes32) (ps : list address)
| CloseChannel (cid : bytes32)
| RegisterBatchWithSupplyChain (id drug ingr : string) (expiry : uint256)
    (ps : list address) (rs : list SupplyChainRole) (cid : bytes32).

Definition dispatch (env : Env) (c : Call) : M unit :=
  match c with
  | SettleChannel cid finalState signature =>
      settleChannel env cid finalState signature
  | VerifySupplyChainTransfer id loc data signature =>
      verifySupplyChainTransfer env id loc data signature
  | ClaimCustomerReward id => claimCustomerReward env id
  | OpenChannel cid ps => openChannel env cid ps
  | CloseChannel cid => closeChannel env cid
  | RegisterBatchWithSupplyChain _ _ _ _ _ _ _ =>
      fail (LibraryError "function selector not found")
  end.

(** A transaction commits on success and restores the world on revert. *)
Inductive Receipt :=
| Success (effects : list Effect)
| Reverted (e : Error) (effects_undone : list Effect).

Definition transact (env : Env) (c : Call) (w : World) : World * Receipt :=
  match dispatch env c w [] with
  | Done _ w' tr => (w', Success tr)
  | Failed e tr => (w, Reverted e tr)
  end.

Definition world_after (env : Env) (c : Call) (w : World) : World :=
  (transact env c w).1.

Definition receipt_of (env : Env) (c : Call) (w : World) : Receipt :=
  (transact env c w).2.

(** The constructor grants the deployer the admin, manufacturer and channel
    roles; every mapping starts empty. *)
Definition constructor (deployer : address) : Storage :=
  {| batches := ∅; channels := ∅; batchParticipantsList := ∅;
     batchParticipants := ∅;
     roles := {[ (DEFAULT_ADMIN_ROLE, deployer); (MANUFACTURER_ROLE, deployer);
                 (CHANNEL_ROLE, deployer) ]};
     entered := false |}.

(** Worlds the contract can be in.  Besides its own calls, the inherited
    [grantRole], [revokeRole] and [renounceRole] rewrite the role table, and
    other users of the token change the token; both are over-approximated
    by arbitrary replacement. *)
Inductive reachable : World → Prop :=
| reach_deploy deployer t :
    reachable {| store := constructor deployer; token := t |}
| reach_call env c w :
    reachable w → reachable (world_after env c w)
| reach_roles r w :
    reachable w →
    reachable {| store := set_roles r (store w); token := token w |}
| reach_token t w :
    reachable w → reachable {| store := store w; token := t |}.

End Registry.

Arguments Done {_ A} a w tr.
Arguments Failed {_ A} e tr.

(** ** Specification vocabulary *)

Section Specification.
Context `{Collaborators}.

(** The registration preconditions that concern the data of one entry. *)
Definition registrable (env : Env) (d : BatchData) : Prop :=
  (block_timestamp env < d_expiryDate d)%N
  ∧ length (d_supplyChainAddresses d) = length (d_supplyChainRoles d)
  ∧ 0 < length (d_supplyChainAddresses d)
  ∧ Forall (λ a, a ≠ address_zero) (d_supplyChainAddresses d)
  ∧ NoDup (d_supplyChainAddresses d).

(** The record a successful registration of [d] leaves in [batches]. *)
Definition registered_batch (env : Env) (cid : bytes32) (d : BatchData)
  : MedicineBatch :=
  {| manufacturer := msg_sender env; batchId := d_batchId d;
     drugName := d_drugName d; ingredients := d_ingredients d;
     expiryDate := d_expiryDate d; registeredAt := block_timestamp env;
     channelId := cid;
     supplyChainParticipants :=
       zip_with new_participant (d_supplyChainAddresses d)
         (d_supplyChainRoles d);
     isParticipant := list_to_set (d_supplyChainAddresses d);
     totalParticipants := N.of_nat (length (d_supplyChainAddresses d));
     verifiedCount := 0%N; rewardClaimed := false;
     rewardClaimedBy := address_zero; rewardClaimedAt := 0%N;
     exists_ := true |}.

(** The batch slot after the loop: the array and the participant set have
    grown by the new entries, nothing else has changed. *)
Definition with_participants (l : list SupplyChainParticipant)
    (b : MedicineBatch) : MedicineBatch :=
  {| manufacturer := manufacturer b; batchId := batchId b;
     drugName := drugName b; ingredients := ingredients b;
     expiryDate := expiryDate b; registeredAt := registeredAt b;
     channelId := channelId b;
     supplyChainParticipants := supplyChainParticipants b ++ l;
     isParticipant := list_to_set (participantAddress <$> l) ∪ isParticipant b;
     totalParticipants := totalParticipants b;
     verifiedCount := verifiedCount b; rewardClaimed := rewardClaimed b;
     rewardClaimedBy := rewardClaimedBy b;
     rewardClaimedAt := rewardClaimedAt b; exists_ := exists_ b |}.

(** The first entry of a settlement list that carries a given batch id. *)
Fixpoint first_entry (id : string) (l : list BatchData) : option BatchData :=
  match l with
  | [] => None
  | d :: rest => if bool_decide (d_batchId d = id) then Some d
                 else first_entry id rest
  end.

(** The storage after the participant loop, as a fold. *)
Fixpoint participants_added (id : string) (ps : list address)
    (rs : list SupplyChainRole) (s : Storage) : Storage :=
  match ps, rs with
  | a :: ps', r :: rs' =>
      participants_added id ps' rs'
        (set_participant id a (new_participant a r)
           (set_batch id
              (push_participant (new_participant a r) (batch_at s id)) s))
  | _, _ => s
  end.

Definition batch_registered (env : Env) (cid : bytes32) (d : BatchData)
    (s : Storage) : Storage :=
  participants_added (d_batchId d) (d_supplyChainAddresses d)
    (d_supplyChainRoles d)
    (set_participantsList (d_batchId d) (d_supplyChainAddresses d)
       (set_batch (d_batchId d)
          (new_batch_header env (d_batchId d) (d_drugName d)
             (d_ingredients d) (d_expiryDate d)
             (length (d_supplyChainAddresses d)) cid
             (batch_at s (d_batchId d))) s)).

(** The storage after the settlement loop, as a fold. *)
Fixpoint batches_settled (env : Env) (cid : bytes32) (l : list BatchData)
    (s : Storage) : Storage :=
  match l with
  | [] => s
  | d :: rest =>
      batches_settled env cid rest
        (if exists_ (batch_at s (d_batchId d)) then s
         else batch_registered env cid d s)
  end.

(** Slots of batches that do not exist hold the zero value. *)
Definition absent_zero (s : Storage) : Prop :=
  ∀ id, exists_ (batch_at s id) = false → batch_at s id = zero_batch.

(** The storage a successful [settleChannel] commits. *)
Definition channel_settled (env : Env) (cid : bytes32) (l : list BatchData)
    (s : Storage) : Storage :=
  let s1 := batches_settled env cid l (set_entered true s) in
  let s2 :=
    set_channel cid (close_channel (block_timestamp env) (channel_at s1 cid)) s1 in
  set_entered false (set_channel cid (bump_nonce (channel_at s2 cid)) s2).

(** The storage a successful verification by the participant stored at
    index [i] as [p] commits. *)
Definition verified (env : Env) (id loc data : string) (i : nat)
    (p : SupplyChainParticipant) (s : Storage) : Storage :=
  set_participant id (msg_sender env)
    (mark_verified (block_timestamp env) loc data
       (participant_at s id (msg_sender env)))
    (set_batch id
       (record_verification i
          (mark_verified (block_timestamp env) loc data p) (batch_at s id)) s).

(** Number of entries of the participant array marked as verified. *)
Fixpoint count_verified (l : list SupplyChainParticipant) : nat :=
  match l with
  | [] => 0
  | p :: rest => (if hasVerified p then 1 else 0) + count_verified rest
  end.

(** What holds of every batch slot in every reachable storage. *)
Record batch_inv (s : Storage) (id : string) : Prop := {
  inv_absent :
    exists_ (batch_at s id) = false → batch_at s id = zero_batch;
  inv_length :
    totalParticipants (batch_at s id)
    = N.of_nat (length (supplyChainParticipants (batch_at s id)));
  inv_nodup :
    NoDup (participantAddress <$> supplyChainParticipants (batch_at s id));
  inv_listed : ∀ a,
    a ∈ isParticipant (batch_at s id)
    ↔ a ∈ participantAddress <$> supplyChainParticipants (batch_at s id);
  inv_count :
    verifiedCount (batch_at s id)
    = N.of_nat (count_verified (supplyChainParticipants (batch_at s id)));
  inv_mirror : ∀ p,
    p ∈ supplyChainParticipants (batch_at s id) →
    participant_at s id (participantAddress p) = p;
  inv_unlisted : ∀ a,
    a ∉ isParticipant (batch_at s id) →
    participant_at s id a = zero_participant;
  inv_fresh : ∀ p,
    p ∈ supplyChainParticipants (batch_at s id) →
    hasVerified p = false →
    p = new_participant (participantAddress p) (role p);
  inv_claimed :
    rewardClaimed (batch_at s id) = true →
    verifiedCount (batch_at s id) = totalParticipants (batch_at s id)
}.

Record store_inv (s : Storage) : Prop := {
  inv_batches : ∀ id, batch_inv s id;
  inv_channels : ∀ cid,
    c_isOpen (channel_at s cid) = true → c_nonce (channel_at s cid) = 0%N;
  inv_entered : entered s = false
}.

(** The storage a successful [claimCustomerReward] commits. *)
Definition claimed (env : Env) (id : string) (s : Storage) : Storage :=
  set_entered false
    (set_batch id (mark_claimed env (batch_at s id)) (set_entered true s)).

Definition opened (env : Env) (cid : bytes32) (ps : list address)
    (s : Storage) : Storage :=
  set_channel cid
    {| c_id := cid; c_participants := ps; c_nonce := 0%N; c_isOpen := true;
       c_openedAt := block_timestamp env; c_closedAt := 0%N |} s.

Definition closed (env : Env) (cid : bytes32) (s : Storage) : Storage :=
  set_channel cid (close_channel (block_timestamp env) (channel_at s cid)) s.

Definition caller_entry (env : Env) (b : MedicineBatch)
  : option (nat * SupplyChainParticipant) :=
  list_find (λ p, participantAddress p = msg_sender env)
    (supplyChainParticipants b).

(** The transactions that commit, with the world each one commits. *)
Inductive commits (env : Env) (w : World) : Call → World → Prop :=
| commits_settle cid fs sig l signer :
    c_isOpen (channel_at (store w) cid) = true →
    abi_decode fs = Some l →
    recover (toEthSignedMessageHash (keccak256 fs)) sig = Some signer →
    isChannelParticipant (store w) cid signer = true →
    hasRole (store w) MANUFACTURER_ROLE signer = true →
    (∀ id d, first_entry id l = Some d →
             exists_ (batch_at (store w) id) = false → registrable env d) →
    c_nonce (channel_at (store w) cid) ≠ MAX_UINT256 →
    commits env w (SettleChannel cid fs sig)
      {| store := channel_settled env cid l (store w); token := token w |}
| commits_verify id loc data sig j p :
    exists_ (batch_at (store w) id) = true →
    msg_sender env ∈ isParticipant (batch_at (store w) id) →
    rewardClaimed (batch_at (store w) id) = false →
    recover (toEthSignedMessageHash
               (keccak256 (encodePacked id (msg_sender env) loc data))) sig
    = Some (msg_sender env) →
    caller_entry env (batch_at (store w) id) = Some (j, p) →
    hasVerified p = false →
    verifiedCount (batch_at (store w) id) ≠ MAX_UINT256 →
    commits env w (VerifySupplyChainTransfer id loc data sig)
      {| store := verified env id loc data j p (store w); token := token w |}
| commits_verify_nothing id loc data sig :
    exists_ (batch_at (store w) id) = true →
    msg_sender env ∈ isParticipant (batch_at (store w) id) →
    rewardClaimed (batch_at (store w) id) = false →
    recover (toEthSignedMessageHash
               (keccak256 (encodePacked id (msg_sender env) loc data))) sig
    = Some (msg_sender env) →
    caller_entry env (batch_at (store w) id) = None →
    commits env w (VerifySupplyChainTransfer id loc data sig) w
| commits_claim id t' :
    exists_ (batch_at (store w) id) = true →
    rewardClaimed (batch_at (store w) id) = false →
    verifiedCount (batch_at (store w) id)
    = totalParticipants (batch_at (store w) id) →
    msg_sender env ∉ isParticipant (batch_at (store w) id) →
    mint (token w) (msg_sender env) CUSTOMER_REWARD = inr t' →
    commits env w (ClaimCustomerReward id)
      {| store := claimed env id (store w); token := t' |}
| commits_open cid ps :
    hasRole (store w) CHANNEL_ROLE (msg_sender env) = true →
    c_isOpen (channel_at (store w) cid) = false →
    commits env w (OpenChannel cid ps)
      {| store := opened env cid ps (store w); token := token w |}
| commits_close cid :
    hasRole (store w) CHANNEL_ROLE (msg_sender env) = true →
    c_isOpen (channel_at (store w) cid) = true →
    commits env w (CloseChannel cid)
      {| store := closed env cid (store w); token := token w |}.

End Specification.

(** ** The reward token of the repository (MediToken.sol)

    [mint] as the registry reaches it: guarded by [onlyMinter] and the
    supply cap, then the inherited ERC20 [_mint]. *)
Module MediToken.

Record State := {
  minters : gset address;
  totalSupply : uint256;
  balances : gmap address uint256
}.

Definition MAX_SUPPLY : uint256 := (1000000 * 10 ^ 18)%N.

Definition balanceOf (t : State) (a : address) : uint256 :=
  default 0%N (balances t !! a).

Definition mint (caller : address) (t : State) (to : address)
    (amount : uint256) : Error + State :=
  if bool_decide (caller ∈ minters t) then
    if bool_decide (MAX_UINT256 < totalSupply t + amount)%N then inl (Panic 17)
    else if bool_decide (totalSupply t + amount ≤ MAX_SUPPLY)%N then
      if bool_decide (to = address_zero)
      then inl (LibraryError "ERC20InvalidReceiver")
      else inr {| minters := minters t;
                  totalSupply := (totalSupply t + amount)%N;
                  balances := <[to := (balanceOf t to + amount)%N]> (balances t) |}
    else inl (Revert "Max supply exceeded")
  else inl (Revert "Not a minter").

End MediToken.

(** ** A local deployment

    A deployment on which the properties are exercised: the token is the
    repository's MediToken with the registry as a minter; a signature is the
    one byte that names its signer, and a settlement payload is the one byte
    that numbers a list of the table below. *)
Module Local.

Definition registry_address : address := 1000%N.
Definition deployer : address := 1%N.
Definition customer : address := 50%N.

Definition batch_B1 : BatchData :=
  {| d_batchId := "B1"; d_drugName := "Paracetamol";
     d_ingredients := "Acetaminophen"; d_expiryDate := 100%N;
     d_supplyChainAddresses := [11%N; 12%N];
     d_supplyChainRoles := [TRANSPORTER; SUPPLIER] |}.

Definition batch_B2 : BatchData :=
  {| d_batchId := "B2"; d_drugName := "Aspirin"; d_ingredients := "ASA";
     d_expiryDate := 100%N; d_supplyChainAddresses := [13%N];
     d_supplyChainRoles := [NONE] |}.

Definition batch_B3 : BatchData :=
  {| d_batchId := "B3"; d_drugName := "Ibuprofen"; d_ingredients := "IBU";
     d_expiryDate := 500%N; d_supplyChainAddresses := [14%N];
     d_supplyChainRoles := [RETAILER] |}.

(** Twenty-one distinct participants. *)
Definition batch_B21 : BatchData :=
  {| d_batchId := "B21"; d_drugName := "Medicine";
     d_ingredients := "Ingredients"; d_expiryDate := 100%N;
     d_supplyChainAddresses := N.of_nat <$> seq 101 21;
     d_supplyChainRoles := replicate 21 TRANSPORTER |}.

Definition batch_G1 : BatchData :=
  {| d_batchId := "G1"; d_drugName := "Good"; d_ingredients := "Fine";
     d_expiryDate := 100%N; d_supplyChainAddresses := [11%N];
     d_supplyChainRoles := [TRANSPORTER] |}.

(** An entry whose expiry date has passed at every time used below. *)
Definition batch_X1 : BatchData :=
  {| d_batchId := "X1"; d_drugName := "Stale"; d_ingredients := "Old";
     d_expiryDate := 5%N; d_supplyChainAddresses := [12%N];
     d_supplyChainRoles := [SUPPLIER] |}.

(** An entry that lists the same participant twice. *)
Definition batch_X2 : BatchData :=
  {| d_batchId := "X2"; d_drugName := "Twice"; d_ingredients := "Same";
     d_expiryDate := 100%N; d_supplyChainAddresses := [11%N; 11%N];
     d_supplyChainRoles := [TRANSPORTER; SUPPLIER] |}.

Definition payloads : list (list BatchData) :=
  [ [batch_B1; batch_B2];      (* 0 *)
    [batch_B21];               (* 1 *)
    [batch_G1; batch_X1];      (* 2 *)
    [batch_X2];                (* 3 *)
    [batch_B1; batch_B3] ].    (* 4 *)

Definition signed_by (a : address) : bytes :=
  [default x00 (Byte.of_N a)].

Definition payload (n : N) : bytes := [default x00 (Byte.of_N n)].

#[export] Instance chain : Collaborators := {|
  keccak256 := λ _, 0%N;
  toEthSignedMessageHash := λ h, h;
  recover := λ _ sig,
    match sig with [b] => Some (Byte.to_N b) | _ => None end;
  encodePacked := λ _ _ _ _, [];
  abi_decode := λ bs,
    match bs with [b] => payloads !! N.to_nat (Byte.to_N b) | _ => None end;
  Token := MediToken.State;
  mint := MediToken.mint registry_address
|}.

Definition at_ (sender : address) (time : uint256) : Env :=
  {| msg_sender := sender; block_timestamp := time |}.
Arguments at_ (sender time)%_N.

Definition token0 : MediToken.State :=
  {| MediToken.minters := {[deployer; registry_address]};
     MediToken.totalSupply := (100000 * 10 ^ 18)%N;
     MediToken.balances := {[deployer := (100000 * 10 ^ 18)%N]} |}.

(** Deployment, then channel 7 is opened with the deployer as participant. *)
Definition w_deployed : World :=
  {| store := constructor deployer; token := token0 |}.

Definition w_open : World :=
  world_after (at_ deployer 10) (OpenChannel 7%N [deployer]) w_deployed.

(** Channel 7 settles batches B1 and B2. *)
Definition w_settled : World :=
  world_after (at_ deployer 20)
    (SettleChannel 7%N (payload 0) (signed_by deployer)) w_open.

(** Participant 11 verifies B1, then participant 12 does. *)
Definition w_verified1 : World :=
  world_after (at_ 11%N 30)
    (VerifySupplyChainTransfer "B1" "Mumbai" "cold chain ok" (signed_by 11%N))
    w_settled.

Definition w_verified : World :=
  world_after (at_ 12%N 40)
    (VerifySupplyChainTransfer "B1" "Delhi" "sealed" (signed_by 12%N))
    w_verified1.

(** The customer claims the reward of B1 after its expiry date. *)
Definition w_claimed : World :=
  world_after (at_ customer 200) (ClaimCustomerReward "B1") w_verified.

(** Channel 7 is closed explicitly and opened again. *)
Definition w_closed : World :=
  world_after (at_ deployer 20) (CloseChannel 7%N) w_open.

Definition w_reopened : World :=
  world_after (at_ deployer 30) (OpenChannel 7%N [deployer; 2%N]) w_closed.

(** Channel 7 is opened again after its settlement. *)
Definition w_resettled : World :=
  world_after (at_ deployer 30) (OpenChannel 7%N [deployer]) w_settled.

End Local.

(** ** Further view functions of the registry *)

Definition participants_list_at (s : Storage) (id : string) : list address :=
  default [] (batchParticipantsList s !! id).

Definition getBatchParticipants (s : Storage) (id : string)
  : Error + list address :=
  if exists_ (batch_at s id) then inr (participants_list_at s id)
  else inl (Revert "Batch not found").

Definition getBatch (s : Storage) (id : string)
  : Error + (address * string * string * uint256 * uint256 * bool) :=
  if exists_ (batch_at s id) then
    inr (manufacturer (batch_at s id), drugName (batch_at s id),
         ingredients (batch_at s id), expiryDate (batch_at s id),
         registeredAt (batch_at s id), rewardClaimed (batch_at s id))
  else inl (Revert "Batch not found").

(** The view [isParticipant(_batchId, _address)]; it does not revert on a
    batch that does not exist. *)
Module Views.
Definition isParticipant (s : Storage) (id : string) (a : address) : bool :=
  bool_decide (a ∈ isParticipant (batch_at s id)).
End Views.

(** ** Further invariants of the storage *)

(** What a registration fixes for good: every field of the batch record but
    the verification and claim state, and of each participant its address
    and role. *)
Definition registration_of (b : MedicineBatch)
  : address * string * string * string * uint256 * uint256 * bytes32
    * uint256 * list (address * SupplyChainRole) * gset address :=
  (manufacturer b, batchId b, drugName b, ingredients b, expiryDate b,
   registeredAt b, channelId b, totalParticipants b,
   (λ p, (participantAddress p, role p)) <$> supplyChainParticipants b,
   isParticipant b).

Record batch_facts (s : Storage) (id : string) : Prop := {
  fact_id : exists_ (batch_at s id) = true → batchId (batch_at s id) = id;
  fact_dates :
    exists_ (batch_at s id) = true →
    (registeredAt (batch_at s id) < expiryDate (batch_at s id))%N;
  fact_nonempty :
    exists_ (batch_at s id) = true →
    supplyChainParticipants (batch_at s id) ≠ [];
  fact_nonzero : address_zero ∉ isParticipant (batch_at s id);
  fact_list :
    participants_list_at s id
    = participantAddress <$> supplyChainParticipants (batch_at s id);
  fact_unclaimed :
    rewardClaimed (batch_at s id) = false →
    rewardClaimedBy (batch_at s id) = address_zero
    ∧ rewardClaimedAt (batch_at s id) = 0%N;
  fact_claimant :
    rewardClaimed (batch_at s id) = true →
    rewardClaimedBy (batch_at s id) ∉ isParticipant (batch_at s id)
}.

Record channel_facts (s : Storage) (cid : bytes32) : Prop := {
  fact_nonce : (c_nonce (channel_at s cid) ≤ 1)%N;
  fact_open :
    c_isOpen (channel_at s cid) = true →
    c_nonce (channel_at s cid) = 0%N ∧ c_closedAt (channel_at s cid) = 0%N;
  fact_settled :
    c_nonce (channel_at s cid) = 1%N → c_isOpen (channel_at s cid) = false;
  fact_cid :
    channel_at s cid = zero_channel ∨ c_id (channel_at s cid) = cid
}.

(** ** The external functions of MediToken.sol

    The token as a whole: its constructor and the four functions it
    declares next to [MediToken.mint] ([addMinter], [removeMinter], [burn]),
    and the state-changing functions it inherits from OpenZeppelin's ERC20
    and Ownable ([transfer], [approve], [transferFrom], [transferOwnership],
    [renounceOwnership]).  Events are not recorded, and the inherited
    getters are the fields of the state. *)
Module MediTokenCalls.

(** [allowances] is keyed by holder and spender. *)
Record Deployment := {
  ledger : MediToken.State;
  owner : address;
  allowances : gmap (address * address) uint256
}.

Definition INITIAL_SUPPLY : uint256 := (100000 * 10 ^ 18)%N.

Definition allowance (d : Deployment) (holder spender : address) : uint256 :=
  default 0%N (allowances d !! (holder, spender)).

Definition constructor (deployer : address) : Error + Deployment :=
  if bool_decide (deployer = address_zero)
  then inl (LibraryError "OwnableInvalidOwner")
  else inr {| ledger :=
                {| MediToken.minters := {[deployer]};
                   MediToken.totalSupply := INITIAL_SUPPLY;
                   MediToken.balances := {[deployer := INITIAL_SUPPLY]} |};
              owner := deployer;
              allowances := ∅ |}.

Definition set_minters (ms : gset address) (d : Deployment) : Deployment :=
  {| ledger := {| MediToken.minters := ms;
                  MediToken.totalSupply := MediToken.totalSupply (ledger d);
                  MediToken.balances := MediToken.balances (ledger d) |};
     owner := owner d;
     allowances := allowances d |}.

Definition set_owner (a : address) (d : Deployment) : Deployment :=
  {| ledger := ledger d; owner := a; allowances := allowances d |}.

Definition set_allowance (holder spender : address) (value : uint256)
    (d : Deployment) : Deployment :=
  {| ledger := ledger d; owner := owner d;
     allowances := <[(holder, spender) := value]> (allowances d) |}.

Definition addMinter (caller : address) (d : Deployment) (m : address)
  : Error + Deployment :=
  if bool_decide (caller = owner d)
  then inr (set_minters ({[m]} ∪ MediToken.minters (ledger d)) d)
  else inl (LibraryError "OwnableUnauthorizedAccount").

Definition removeMinter (caller : address) (d : Deployment) (m : address)
  : Error + Deployment :=
  if bool_decide (caller = owner d)
  then inr (set_minters (MediToken.minters (ledger d) ∖ {[m]}) d)
  else inl (LibraryError "OwnableUnauthorizedAccount").

Definition burn (caller : address) (t : MediToken.State) (amount : uint256)
  : Error + MediToken.State :=
  if bool_decide (caller = address_zero)
  then inl (LibraryError "ERC20InvalidSender")
  else if bool_decide (MediToken.balanceOf t caller < amount)%N
  then inl (LibraryError "ERC20InsufficientBalance")
  else inr {| MediToken.minters := MediToken.minters t;
              MediToken.totalSupply := (MediToken.totalSupply t - amount)%N;
              MediToken.balances :=
                <[caller := (MediToken.balanceOf t caller - amount)%N]>
                  (MediToken.balances t) |}.

(** ERC20's [_update] between two accounts: the sender's balance is
    written first, the receiver's is then read and raised. *)
Definition moved (from to : address) (value : uint256) (t : MediToken.State)
  : Error + MediToken.State :=
  if bool_decide (MediToken.balanceOf t from < value)%N
  then inl (LibraryError "ERC20InsufficientBalance")
  else
    let debited :=
      <[from := (MediToken.balanceOf t from - value)%N]>
        (MediToken.balances t) in
    inr {| MediToken.minters := MediToken.minters t;
           MediToken.totalSupply := MediToken.totalSupply t;
           MediToken.balances :=
             <[to := (default 0%N (debited !! to) + value)%N]> debited |}.

(** ERC20's [_transfer]. *)
Definition transfer_between (from to : address) (value : uint256)
    (t : MediToken.State) : Error + MediToken.State :=
  if bool_decide (from = address_zero)
  then inl (LibraryError "ERC20InvalidSender")
  else if bool_decide (to = address_zero)
  then inl (LibraryError "ERC20InvalidReceiver")
  else moved from to value t.

Definition with_ledger (d : Deployment) (r : Error + MediToken.State)
  : Error + Deployment :=
  match r with
  | inr t => inr {| ledger := t; owner := owner d;
                    allowances := allowances d |}
  | inl e => inl e
  end.

Definition transfer (caller : address) (d : Deployment) (to : address)
    (value : uint256) : Error + Deployment :=
  with_ledger d (transfer_between caller to value (ledger d)).

(** ERC20's [_approve]. *)
Definition approve_for (holder spender : address) (value : uint256)
    (d : Deployment) : Error + Deployment :=
  if bool_decide (holder = address_zero)
  then inl (LibraryError "ERC20InvalidApprover")
  else if bool_decide (spender = address_zero)
  then inl (LibraryError "ERC20InvalidSpender")
  else inr (set_allowance holder spender value d).

Definition approve (caller : address) (d : Deployment) (spender : address)
    (value : uint256) : Error + Deployment :=
  approve_for caller spender value d.

(** ERC20's [_spendAllowance]: an allowance of [MAX_UINT256] is not
    reduced. *)
Definition spendAllowance (holder spender : address) (value : uint256)
    (d : Deployment) : Error + Deployment :=
  if bool_decide (allowance d holder spender = MAX_UINT256) then inr d
  else if bool_decide (allowance d holder spender < value)%N
  then inl (LibraryError "ERC20InsufficientAllowance")
  else approve_for holder spender (allowance d holder spender - value)%N d.

Definition transferFrom (caller : address) (d : Deployment)
    (from to : address) (value : uint256) : Error + Deployment :=
  match spendAllowance from caller value d with
  | inl e => inl e
  | inr d1 => with_ledger d1 (transfer_between from to value (ledger d1))
  end.

Definition transferOwnership (caller : address) (d : Deployment)
    (newOwner : address) : Error + Deployment :=
  if bool_decide (caller = owner d) then
    if bool_decide (newOwner = address_zero)
    then inl (LibraryError "OwnableInvalidOwner")
    else inr (set_owner newOwner d)
  else inl (LibraryError "OwnableUnauthorizedAccount").

Definition renounceOwnership (caller : address) (d : Deployment)
  : Error + Deployment :=
  if bool_decide (caller = owner d) then inr (set_owner address_zero d)
  else inl (LibraryError "OwnableUnauthorizedAccount").

Inductive Call :=
| Mint (to : address) (amount : uint256)
| Burn (amount : uint256)
| AddMinter (m : address)
| RemoveMinter (m : address)
| Transfer (to : address) (value : uint256)
| Approve (spender : address) (value : uint256)
| TransferFrom (from to : address) (value : uint256)
| TransferOwnership (newOwner : address)
| RenounceOwnership.

Definition call (caller : address) (c : Call) (d : Deployment)
  : Error + Deployment :=
  match c with
  | Mint to amount => with_ledger d (MediToken.mint caller (ledger d) to amount)
  | Burn amount => with_ledger d (burn caller (ledger d) amount)
  | AddMinter m => addMinter caller d m
  | RemoveMinter m => removeMinter caller d m
  | Transfer to value => transfer caller d to value
  | Approve spender value => approve caller d spender value
  | TransferFrom from to value => transferFrom caller d from to value
  | TransferOwnership newOwner => transferOwnership caller d newOwner
  | RenounceOwnership => renounceOwnership caller d
  end.

(** A reverted call leaves the token as it was. *)
Definition after (caller : address) (c : Call) (d : Deployment) : Deployment :=
  match call caller c d with
  | inr d' => d'
  | inl _ => d
  end.

Inductive reachable : Deployment → Prop :=
| reach_constructor deployer d :
    constructor deployer = inr d → reachable d
| reach_after caller c d :
    reachable d → reachable (after caller c d).

(** The sum of all balances. *)
Definition circulating (t : MediToken.State) : N :=
  map_fold (λ _ v acc, (v + acc)%N) 0%N (MediToken.balances t).

End MediTokenCalls.

(** The collaborators of a registry whose token is the repository's
    MediToken: the token sees the registry's address as the caller of
    [mint]. *)
Definition with_MediToken (registry : address) (c : Collaborators)
  : Collaborators :=
  {| keccak256 := @keccak256 c;
     toEthSignedMessageHash := @toEthSignedMessageHash c;
     recover := @recover c;
     encodePacked := @encodePacked c;
     abi_decode := @abi_decode c;
     Token := MediToken.State;
     mint := MediToken.mint registry |}.

(** ** The backend's StateChannelManager

    The channel buffer of the backend server: [createChannel],
    [addBatchToChannel] and [closeAndSettleChannel].  A method runs from
    call to return without another request in between.  What the manager
    cannot decide itself comes in as an argument: the clock readings of
    [Date.now()], and the outcome of signing, sending and awaiting the
    settlement transaction (an error message, or the transaction hash).
    A thrown error does not undo the assignments made before it, so every
    method returns the manager together with its completion. *)
Module ChannelManager.

Inductive Status := open | settling | settled | failed.

Inductive Completion (A : Type) :=
| Returned (a : A)
| Thrown (message : string).
Arguments Returned {A} a.
Arguments Thrown {A} message.

Record Settlement := {
  s_channelId : string;
  s_settlementTx : string;
  s_batchCount : nat
}.

Section Manager.
(** The fields of a request body, and [ethers.utils.id] of a clock reading
    written in decimal. *)
Variable BatchData : Type.
Variable id_of : N → string.

(** [{...batchData, timestamp: Date.now()}] *)
Record Entry := {
  data : BatchData;
  timestamp : N
}.

Record ChannelState := {
  batches : list Entry;
  verifications : list Entry;
  supplyChainUpdates : list Entry
}.

Record Channel := {
  id : string;
  chainKey : string;
  status : Status;
  state : ChannelState;
  nonce : N;
  createdAt : N;
  settlementTx : option string
}.

(** [channels] by channel id; [contracts] holds the keys under which a
    registry contract was initialised. *)
Record Manager := {
  channels : gmap string Channel;
  contracts : gset string
}.

Definition new_manager (registries : gset string) : Manager :=
  {| channels := ∅; contracts := registries |}.

Definition put (k : string) (ch : Channel) (m : Manager) : Manager :=
  {| channels := <[k := ch]> (channels m); contracts := contracts m |}.

Definition createChannel (id_now created_now : N) (key : string)
    (m : Manager) : Manager * string :=
  let channelId := id_of id_now in
  (put channelId
     {| id := channelId; chainKey := key; status := open;
        state := {| batches := []; verifications := [];
                    supplyChainUpdates := [] |};
        nonce := 0%N; createdAt := created_now; settlementTx := None |} m,
   channelId).

Definition with_status (st : Status) (ch : Channel) : Channel :=
  {| id := id ch; chainKey := chainKey ch; status := st; state := state ch;
     nonce := nonce ch; createdAt := createdAt ch;
     settlementTx := settlementTx ch |}.

Definition with_settlementTx (tx : string) (ch : Channel) : Channel :=
  {| id := id ch; chainKey := chainKey ch; status := status ch;
     state := state ch; nonce := nonce ch; createdAt := createdAt ch;
     settlementTx := Some tx |}.

Definition closeAndSettleChannel (outcome : string + string)
    (channelId : string) (m : Manager) : Manager * Completion Settlement :=
  match channels m !! channelId with
  | None => (m, Thrown "Channel not found")
  | Some ch =>
      let ch1 := with_status settling ch in
      if bool_decide (String.append (chainKey ch1) "_registry" ∈ contracts m)
      then
        match outcome with
        | inr hash =>
            (put channelId (with_settlementTx hash (with_status settled ch1)) m,
             Returned {| s_channelId := channelId; s_settlementTx := hash;
                         s_batchCount := length (batches (state ch1)) |})
        | inl message =>
            (put channelId (with_status failed ch1) m, Thrown message)
        end
      else (put channelId (with_status failed ch1) m,
            Thrown "Registry contract not found")
  end.

Definition pushed (e : Entry) (ch : Channel) : Channel :=
  {| id := id ch; chainKey := chainKey ch; status := status ch;
     state := {| batches := batches (state ch) ++ [e];
                 verifications := verifications (state ch);
                 supplyChainUpdates := supplyChainUpdates (state ch) |};
     nonce := (nonce ch + 1)%N; createdAt := createdAt ch;
     settlementTx := settlementTx ch |}.

(** The channel returned is the stored object, as it is at the return. *)
Definition addBatchToChannel (now : N) (outcome : string + string)
    (channelId : string) (batchData : BatchData) (m : Manager)
  : Manager * Completion Channel :=
  match channels m !! channelId with
  | None => (m, Thrown "Channel not found")
  | Some ch =>
      let ch1 := pushed {| data := batchData; timestamp := now |} ch in
      let m1 := put channelId ch1 m in
      if bool_decide (10 ≤ length (batches (state ch1)))%nat then
        match closeAndSettleChannel outcome channelId m1 with
        | (m2, Thrown message) => (m2, Thrown message)
        | (m2, Returned _) =>
            (m2, Returned (default ch1 (channels m2 !! channelId)))
        end
      else (m1, Returned ch1)
  end.

Inductive Request :=
| Create (id_now created_now : N) (key : string)
| Add (now : N) (outcome : string + string) (channelId : string)
    (batchData : BatchData)
| Settle (outcome : string + string) (channelId : string).

Definition handle (r : Request) (m : Manager) : Manager :=
  match r with
  | Create id_now created_now key => (createChannel id_now created_now key m).1
  | Add now outcome channelId d =>
      (addBatchToChannel now outcome channelId d m).1
  | Settle outcome channelId => (closeAndSettleChannel outcome channelId m).1
  end.

Inductive reachable : Manager → Prop :=
| reach_new registries : reachable (new_manager registries)
| reach_handle r m : reachable m → reachable (handle r m).

(** What holds of every stored channel. *)
Record channel_ok (k : string) (ch : Channel) : Prop := {
  ok_id : id ch = k;
  ok_nonce : nonce ch = N.of_nat (length (batches (state ch)));
  ok_verifications : verifications (state ch) = [];
  ok_updates : supplyChainUpdates (state ch) = [];
  ok_open :
    status ch = open →
    settlementTx ch = None ∧ (length (batches (state ch)) < 10)%nat;
  ok_settled : status ch = settled → is_Some (settlementTx ch);
  ok_settling : status ch ≠ settling
}.

End Manager.

Arguments data {BatchData} _.
Arguments timestamp {BatchData} _.
Arguments batches {BatchData} _.
Arguments verifications {BatchData} _.
Arguments supplyChainUpdates {BatchData} _.
Arguments id {BatchData} _.
Arguments chainKey {BatchData} _.
Arguments status {BatchData} _.
Arguments state {BatchData} _.
Arguments nonce {BatchData} _.
Arguments createdAt {BatchData} _.
Arguments settlementTx {BatchData} _.
Arguments channels {BatchData} _.
Arguments contracts {BatchData} _.
Arguments new_manager {BatchData} _.
Arguments put {BatchData} _ _ _.
Arguments with_status {BatchData} _ _.
Arguments with_settlementTx {BatchData} _ _.
Arguments pushed {BatchData} _ _.
Arguments closeAndSettleChannel {BatchData} _ _ _.
Arguments addBatchToChannel {BatchData} _ _ _ _ _.
Arguments createChannel {BatchData} _ _ _ _ _.
Arguments handle {BatchData} _ _ _.
Arguments reachable {BatchData} _ _.
Arguments channel_ok {BatchData} _ _.
Arguments Create {BatchData} _ _ _.
Arguments Add {BatchData} _ _ _ _.
Arguments Settle {BatchData} _ _.

End ChannelManager.

(** ** Further states of the local deployment *)
Module Demo.

(** The token before the registry was made a minter. *)
Definition token_without_registry : MediToken.State :=
  {| MediToken.minters := {[Local.deployer]};
     MediToken.totalSupply := MediTokenCalls.INITIAL_SUPPLY;
     MediToken.balances := {[Local.deployer := MediTokenCalls.INITIAL_SUPPLY]} |}.

(** Batch B1 fully verified, with that token. *)
Definition w_unlisted : @World Local.chain :=
  @Build_World Local.chain (store Local.w_verified) token_without_registry.

(** The token after its deployment, and after five units were minted to
    the customer. *)
Definition token_deployed : MediTokenCalls.Deployment :=
  {| MediTokenCalls.ledger := token_without_registry;
     MediTokenCalls.owner := Local.deployer;
     MediTokenCalls.allowances := ∅ |}.

Definition token_minted : MediTokenCalls.Deployment :=
  MediTokenCalls.after Local.deployer
    (MediTokenCalls.Mint Local.customer 5%N) token_deployed.

(** A manager for the local chain whose only channel holds one entry. *)
Definition id_of (now : N) : string := "0xc1".

Definition m_created : ChannelManager.Manager string :=
  ChannelManager.handle id_of (ChannelManager.Create 1%N 1%N "localhost")
    (ChannelManager.new_manager {["localhost_registry"]}).

Definition m_buffered : ChannelManager.Manager string :=
  ChannelManager.handle id_of
    (ChannelManager.Add 5%N (inl "network down") "0xc1" "B1") m_created.

End Demo.

(** * Properties *)

Section Execution.
Context `{Collaborators}.

(** ** Reading the storage after a write *)

Lemma batch_at_set_batch s id b id' :
  batch_at (set_batch id b s) id' = if decide (id = id') then b else batch_at s id'.
Proof.
  unfold batch_at, set_batch; simpl. rewrite lookup_insert.
  by destruct (decide (id = id')).
Qed.

Lemma batch_at_set_batch_eq s id b : batch_at (set_batch id b s) id = b.
Proof. rewrite batch_at_set_batch. by destruct (decide (id = id)). Qed.

Lemma batch_at_set_batch_ne s id b id' :
  id ≠ id' → batch_at (set_batch id b s) id' = batch_at s id'.
Proof. intros. rewrite batch_at_set_batch. by destruct (decide (id = id')). Qed.

Lemma participant_at_set_participant s id a p id' a' :
  participant_at (set_participant id a p s) id' a'
  = if decide ((id, a) = (id', a')) then p else participant_at s id' a'.
Proof.
  unfold participant_at, set_participant; simpl. rewrite lookup_insert.
  by destruct (decide ((id, a) = (id', a'))).
Qed.

Lemma channel_at_set_channel s cid c cid' :
  channel_at (set_channel cid c s) cid'
  = if decide (cid = cid') then c else channel_at s cid'.
Proof.
  unfold channel_at, set_channel; simpl. rewrite lookup_insert.
  by destruct (decide (cid = cid')).
Qed.

Lemma channel_at_set_channel_eq s cid c : channel_at (set_channel cid c s) cid = c.
Proof. rewrite channel_at_set_channel. by destruct (decide (cid = cid)). Qed.

(** Writes to one component leave the others as they were. *)
Lemma batch_at_set_channel s cid c id :
  batch_at (set_channel cid c s) id = batch_at s id.
Proof. reflexivity. Qed.
Lemma batch_at_set_participant s id a p id' :
  batch_at (set_participant id a p s) id' = batch_at s id'.
Proof. reflexivity. Qed.
Lemma batch_at_set_participantsList s id l id' :
  batch_at (set_participantsList id l s) id' = batch_at s id'.
Proof. reflexivity. Qed.
Lemma batch_at_set_entered s e id : batch_at (set_entered e s) id = batch_at s id.
Proof. reflexivity. Qed.
Lemma batch_at_set_roles s r id : batch_at (set_roles r s) id = batch_at s id.
Proof. reflexivity. Qed.
Lemma participant_at_set_batch s id b id' a :
  participant_at (set_batch id b s) id' a = participant_at s id' a.
Proof. reflexivity. Qed.
Lemma participant_at_set_channel s cid c id a :
  participant_at (set_channel cid c s) id a = participant_at s id a.
Proof. reflexivity. Qed.
Lemma participant_at_set_participantsList s id l id' a :
  participant_at (set_participantsList id l s) id' a = participant_at s id' a.
Proof. reflexivity. Qed.
Lemma participant_at_set_entered s e id a :
  participant_at (set_entered e s) id a = participant_at s id a.
Proof. reflexivity. Qed.
Lemma participant_at_set_roles s r id a :
  participant_at (set_roles r s) id a = participant_at s id a.
Proof. reflexivity. Qed.
Lemma channel_at_set_batch s id b cid :
  channel_at (set_batch id b s) cid = channel_at s cid.
Proof. reflexivity. Qed.
Lemma channel_at_set_participant s id a p cid :
  channel_at (set_participant id a p s) cid = channel_at s cid.
Proof. reflexivity. Qed.
Lemma channel_at_set_participantsList s id l cid :
  channel_at (set_participantsList id l s) cid = channel_at s cid.
Proof. reflexivity. Qed.
Lemma channel_at_set_entered s e cid :
  channel_at (set_entered e s) cid = channel_at s cid.
Proof. reflexivity. Qed.
Lemma channel_at_set_roles s r cid :
  channel_at (set_roles r s) cid = channel_at s cid.
Proof. reflexivity. Qed.

(** ** Running the monad *)

Lemma run_bind {A B} (m : M A) (f : A → M B) w tr :
  (m ≫= f) w tr
  = match m w tr with
    | Done a w' tr' => f a w' tr'
    | Failed e tr' => Failed e tr'
    end.
Proof. reflexivity. Qed.

Lemma run_require_true reason w tr :
  require true reason w tr = Done () w tr.
Proof. reflexivity. Qed.

Lemma run_require_false reason w tr :
  require false reason w tr = Failed (Revert reason) tr.
Proof. reflexivity. Qed.

Lemma run_bind_get {B} (f : Storage → M B) w tr :
  (get ≫= f) w tr = f (store w) w tr.
Proof. reflexivity. Qed.

Lemma run_bind_modify {B} g (f : () → M B) w tr :
  (modify g ≫= f) w tr = f () {| store := g (store w); token := token w |} tr.
Proof. reflexivity. Qed.

Lemma run_bind_emit {B} ev (f : () → M B) w tr :
  (emit ev ≫= f) w tr = f () w (tr ++ [Emit ev]).
Proof. reflexivity. Qed.

Lemma run_bind_ret {A B} (a : A) (f : A → M B) w tr :
  ((mret a : M A) ≫= f) w tr = f a w tr.
Proof. reflexivity. Qed.

Lemma run_bind_fail {A B} e (f : A → M B) w tr :
  (fail e ≫= f) w tr = Failed e tr.
Proof. reflexivity. Qed.

Lemma run_bind_require_true {B} reason (f : () → M B) w tr :
  (require true reason ≫= f) w tr = f () w tr.
Proof. reflexivity. Qed.

Lemma run_bind_require_false {B} reason (f : () → M B) w tr :
  (require false reason ≫= f) w tr = Failed (Revert reason) tr.
Proof. reflexivity. Qed.

Lemma run_emit ev w tr : emit ev w tr = Done () w (tr ++ [Emit ev]).
Proof. reflexivity. Qed.

Lemma run_modify g w tr :
  modify g w tr = Done () {| store := g (store w); token := token w |} tr.
Proof. reflexivity. Qed.

Lemma run_fail {A} e w tr : fail (A:=A) e w tr = Failed e tr.
Proof. reflexivity. Qed.

Lemma run_ret {A} (a : A) w tr : (mret a : M A) w tr = Done a w tr.
Proof. reflexivity. Qed.

End Execution.

Ltac mrun :=
  repeat first
    [ rewrite run_bind_get | rewrite run_bind_modify | rewrite run_bind_emit
    | rewrite run_bind_ret | rewrite run_bind_fail
    | rewrite run_bind_require_true | rewrite run_bind_require_false
    | rewrite run_require_true | rewrite run_require_false
    | rewrite run_emit | rewrite run_modify | rewrite run_fail
    | rewrite run_ret | progress cbv beta iota ].

(** Case split on a guard [require (bool_decide P) _]. *)
Tactic Notation "guard" constr(P) "as" ident(Hg) :=
  destruct (decide P) as [Hg|Hg];
  [ rewrite (bool_decide_true P) by exact Hg
  | rewrite (bool_decide_false P) by exact Hg ];
  mrun.

Section Properties.
Context `{Collaborators}.


Lemma run_nonReentrant body w tr :
  entered (store w) = false →
  nonReentrant body w tr
  = match body {| store := set_entered true (store w); token := token w |} tr with
    | Done _ w' tr' =>
        Done () {| store := set_entered false (store w'); token := token w' |} tr'
    | Failed e tr' => Failed e tr'
    end.
Proof.
  intros He. unfold nonReentrant. rewrite run_bind_get, He.
  rewrite run_bind_ret, run_bind_modify, run_bind.
  by destruct (body _ _).
Qed.

Lemma run_nonReentrant_entered body w tr :
  entered (store w) = true →
  nonReentrant body w tr
  = Failed (LibraryError "ReentrancyGuardReentrantCall") tr.
Proof.
  intros He. unfold nonReentrant. by rewrite run_bind_get, He.
Qed.

(** ** Registration *)

Lemma participants_added_frame id ps rs s :
  channels (participants_added id ps rs s) = channels s
  ∧ roles (participants_added id ps rs s) = roles s
  ∧ entered (participants_added id ps rs s) = entered s
  ∧ batchParticipantsList (participants_added id ps rs s)
    = batchParticipantsList s.
Proof.
  revert rs s. induction ps as [|a ps IH]; intros [|r rs] s; simpl; auto.
  destruct (IH rs (set_participant id a (new_participant a r)
                     (set_batch id
                        (push_participant (new_participant a r) (batch_at s id)) s)))
    as (-> & -> & -> & ->).
  auto.
Qed.

Lemma participants_added_other id ps rs s id' :
  id ≠ id' →
  batch_at (participants_added id ps rs s) id' = batch_at s id'
  ∧ ∀ a, participant_at (participants_added id ps rs s) id' a
         = participant_at s id' a.
Proof.
  intros Hne. revert rs s.
  induction ps as [|a ps IH]; intros [|r rs] s; simpl; auto.
  destruct (IH rs (set_participant id a (new_participant a r)
                     (set_batch id
                        (push_participant (new_participant a r) (batch_at s id)) s)))
    as [-> Hp].
  split.
  - rewrite batch_at_set_participant. by rewrite batch_at_set_batch_ne.
  - intros a'. rewrite Hp, participant_at_set_participant.
    destruct (decide _) as [[=]|]; [done|]. by rewrite participant_at_set_batch.
Qed.

Lemma with_participants_nil b : with_participants [] b = b.
Proof.
  destruct b. unfold with_participants; simpl. f_equal.
  - by rewrite app_nil_r.
  - by rewrite (left_id_L ∅ (∪)).
Qed.

Lemma with_participants_push p l b :
  with_participants l (push_participant p b) = with_participants (p :: l) b.
Proof.
  unfold with_participants, push_participant; simpl. f_equal.
  - by rewrite <- app_assoc.
  - rewrite (assoc_L (∪)). f_equal. apply (comm_L (∪)).
Qed.

Lemma participants_added_batch id ps rs s :
  batch_at (participants_added id ps rs s) id
  = with_participants (zip_with new_participant ps rs) (batch_at s id).
Proof.
  revert rs s. induction ps as [|a ps IH]; intros [|r rs] s; simpl;
    rewrite ?with_participants_nil; auto.
  rewrite IH. rewrite batch_at_set_participant, batch_at_set_batch_eq.
  by rewrite with_participants_push.
Qed.

Lemma participants_added_participant id ps rs s a :
  NoDup ps →
  participant_at (participants_added id ps rs s) id a
  = match list_find (λ p, participantAddress p = a)
            (zip_with new_participant ps rs) with
    | Some (_, p) => p
    | None => participant_at s id a
    end.
Proof.
  revert rs s. induction ps as [|a0 ps IH]; intros [|r rs] s Hnd; simpl; auto.
  apply NoDup_cons in Hnd as [Hnotin Hnd].
  rewrite IH by done. destruct (decide (a0 = a)) as [->|Hne].
  - destruct (list_find _ (zip_with _ ps rs)) as [[j p]|] eqn:Hf; simpl.
    + apply list_find_Some in Hf as (Hj & Hp & _).
      apply lookup_zip_with_Some in Hj as (x & y & -> & Hx & _).
      simpl in Hp. subst x. apply list_elem_of_lookup_2 in Hx. done.
    + rewrite participant_at_set_participant.
      by destruct (decide ((id, a) = (id, a))).
  - destruct (list_find _ (zip_with _ ps rs)) as [[j p]|]; simpl; [done|].
    rewrite participant_at_set_participant.
    destruct (decide _) as [[=]|]; [done|]. by rewrite participant_at_set_batch.
Qed.

Lemma run_add_participants id ps rs w tr :
  length ps = length rs →
  Forall (λ a, a ≠ address_zero) ps →
  NoDup ps →
  (∀ a, a ∈ ps → a ∉ isParticipant (batch_at (store w) id)) →
  add_participants id ps rs w tr
  = Done () {| store := participants_added id ps rs (store w);
               token := token w |} tr.
Proof.
  revert rs w. induction ps as [|a ps IH]; intros [|r rs] w Hlen Hnz Hnd Hnew;
    simpl in *; try done.
  - by destruct w.
  - apply Forall_cons in Hnz as [Ha Hnz]. apply NoDup_cons in Hnd as [Hnotin Hnd].
    rewrite bool_decide_true by done. mrun.
    rewrite bool_decide_true by (apply Hnew; left). mrun.
    rewrite IH; simpl; auto.
    intros a' Ha'. rewrite batch_at_set_participant, batch_at_set_batch_eq. simpl.
    intros [Heq%elem_of_singleton|Hin]%elem_of_union.
    + by subst.
    + apply (Hnew a'); [by right|done].
Qed.

Lemma run_add_participants_fails id ps rs w tr :
  ¬ (Forall (λ a, a ≠ address_zero) ps ∧ NoDup ps)
  ∨ Exists (λ a, a ∈ isParticipant (batch_at (store w) id)) ps →
  ∃ e, add_participants id ps rs w tr = Failed e tr.
Proof.
  revert rs w. induction ps as [|a ps IH]; intros rs w Hbad.
  - destruct Hbad as [Hbad|Hbad].
    + destruct Hbad. split; constructor.
    + by apply Exists_nil in Hbad.
  - simpl.
    destruct (decide (a = address_zero)) as [Hz|Hz].
    { rewrite bool_decide_false by tauto. mrun. eauto. }
    rewrite bool_decide_true by done. mrun.
    destruct (decide (a ∈ isParticipant (batch_at (store w) id))) as [Hin|Hin].
    { rewrite bool_decide_false by tauto. mrun. eauto. }
    rewrite bool_decide_true by done. mrun.
    destruct rs as [|r rs]; [by eexists|].
    mrun. apply IH. simpl.
    rewrite batch_at_set_participant, batch_at_set_batch_eq. simpl.
    destruct (decide (a ∈ ps)) as [Hdup|Hdup].
    { right. apply Exists_exists. exists a. split; [done|].
      apply elem_of_union_l. by apply elem_of_singleton. }
    destruct Hbad as [Hbad|Hbad].
    + left. intros [Hnz Hnd]. apply Hbad. split.
      * by constructor.
      * by apply NoDup_cons.
    + right. apply Exists_cons in Hbad as [Hbad|Hbad]; [done|].
      eapply Exists_impl; [exact Hbad|]. intros x Hx. simpl in Hx.
      by apply elem_of_union_r.
Qed.

Lemma run_register env d cid w tr :
  exists_ (batch_at (store w) (d_batchId d)) = false →
  isParticipant (batch_at (store w) (d_batchId d)) = ∅ →
  registrable env d →
  registerBatchWithSupplyChain env (d_batchId d) (d_drugName d)
    (d_ingredients d) (d_expiryDate d) (d_supplyChainAddresses d)
    (d_supplyChainRoles d) cid w tr
  = Done () {| store := batch_registered env cid d (store w);
               token := token w |}
      (tr ++ [Emit (BatchRegistered (d_batchId d) (msg_sender env) cid
                      (block_timestamp env)
                      (N.of_nat (length (d_supplyChainAddresses d))))]).
Proof.
  intros Hex Hempty (Hexp & Hlen & Hpos & Hnz & Hnd).
  unfold registerBatchWithSupplyChain. mrun.
  rewrite Hex. change (negb false) with true.
  rewrite !bool_decide_true by done. mrun.
  rewrite run_bind, run_add_participants; auto.
  simpl. intros a _. rewrite batch_at_set_participantsList, batch_at_set_batch_eq.
  simpl. rewrite Hempty. apply not_elem_of_empty.
Qed.

Lemma registrable_dec env d : Decision (registrable env d).
Proof. unfold registrable. apply _. Qed.

Lemma run_register_fails env d cid w tr :
  ¬ registrable env d →
  ∃ e, registerBatchWithSupplyChain env (d_batchId d) (d_drugName d)
         (d_ingredients d) (d_expiryDate d) (d_supplyChainAddresses d)
         (d_supplyChainRoles d) cid w tr = Failed e tr.
Proof.
  intros Hbad. unfold registerBatchWithSupplyChain. mrun.
  destruct (exists_ (batch_at (store w) (d_batchId d))); simpl negb; mrun;
    [by eexists|].
  guard (block_timestamp env < d_expiryDate d)%N as Hexp; [|by eexists].
  guard (length (d_supplyChainAddresses d) = length (d_supplyChainRoles d))
    as Hlen; [|by eexists].
  guard (0 < length (d_supplyChainAddresses d)) as Hpos; [|by eexists].
  rewrite run_bind.
  edestruct run_add_participants_fails as [e ->]; [|by eexists].
  left. intros [Hnz Hnd]. apply Hbad. by repeat split.
Qed.

(** ** The storage a registration leaves *)

Lemma fmap_address_registered ps rs :
  length ps = length rs →
  participantAddress <$> zip_with new_participant ps rs = ps.
Proof.
  revert rs. induction ps as [|a ps IH]; intros [|r rs] Hlen; simpl in *;
    try done.
  f_equal. apply IH. lia.
Qed.

Lemma count_verified_registered ps rs :
  count_verified (zip_with new_participant ps rs) = 0.
Proof. revert rs. induction ps as [|a ps IH]; intros [|r rs]; simpl; auto. Qed.

Lemma same_address_same_entry (l : list SupplyChainParticipant) p q :
  NoDup (participantAddress <$> l) →
  p ∈ l → q ∈ l → participantAddress p = participantAddress q → p = q.
Proof.
  intros Hnd [i Hi]%list_elem_of_lookup [j Hj]%list_elem_of_lookup Heq.
  assert (i = j) as ->.
  { apply (NoDup_lookup _ i j (participantAddress p) Hnd).
    - by rewrite list_lookup_fmap, Hi.
    - by rewrite list_lookup_fmap, Hj, Heq. }
  congruence.
Qed.

Lemma batch_inv_ext s s' id :
  batch_at s' id = batch_at s id →
  (∀ a, participant_at s' id a = participant_at s id a) →
  batch_inv s id → batch_inv s' id.
Proof.
  intros Hb Hp [I1 I2 I3 I4 I5 I6 I7 I8 I9].
  constructor; rewrite ?Hb; try done.
  - intros p Hin. rewrite Hp. auto.
  - intros a Hin. rewrite Hp. auto.
Qed.

Lemma batch_registered_frame env cid d s :
  channels (batch_registered env cid d s) = channels s
  ∧ roles (batch_registered env cid d s) = roles s
  ∧ entered (batch_registered env cid d s) = entered s.
Proof.
  unfold batch_registered.
  destruct (participants_added_frame (d_batchId d) (d_supplyChainAddresses d)
              (d_supplyChainRoles d)
              (set_participantsList (d_batchId d) (d_supplyChainAddresses d)
                 (set_batch (d_batchId d)
                    (new_batch_header env (d_batchId d) (d_drugName d)
                       (d_ingredients d) (d_expiryDate d)
                       (length (d_supplyChainAddresses d)) cid
                       (batch_at s (d_batchId d))) s)))
    as (-> & -> & -> & _).
  auto.
Qed.

Lemma channel_at_batch_registered env cid d s cid' :
  channel_at (batch_registered env cid d s) cid' = channel_at s cid'.
Proof.
  unfold channel_at. by destruct (batch_registered_frame env cid d s) as (-> & _).
Qed.

Lemma batch_registered_other env cid d s id :
  id ≠ d_batchId d →
  batch_at (batch_registered env cid d s) id = batch_at s id
  ∧ ∀ a, participant_at (batch_registered env cid d s) id a
         = participant_at s id a.
Proof.
  intros Hne. unfold batch_registered.
  edestruct participants_added_other as [-> Hp]; [by apply not_eq_sym|].
  split.
  - rewrite batch_at_set_participantsList. by apply batch_at_set_batch_ne, not_eq_sym.
  - intros a. by rewrite Hp.
Qed.

Lemma batch_registered_batch env cid d s :
  batch_at s (d_batchId d) = zero_batch →
  length (d_supplyChainAddresses d) = length (d_supplyChainRoles d) →
  batch_at (batch_registered env cid d s) (d_batchId d)
  = registered_batch env cid d.
Proof.
  intros Hz Hlen. unfold batch_registered.
  rewrite participants_added_batch, batch_at_set_participantsList,
    batch_at_set_batch_eq, Hz.
  unfold with_participants, new_batch_header, registered_batch; simpl.
  f_equal. rewrite fmap_address_registered by done.
  by rewrite (right_id_L ∅ (∪)).
Qed.

Lemma batch_registered_participant env cid d s a :
  NoDup (d_supplyChainAddresses d) →
  participant_at (batch_registered env cid d s) (d_batchId d) a
  = match list_find (λ p, participantAddress p = a)
            (supplyChainParticipants (registered_batch env cid d)) with
    | Some (_, p) => p
    | None => participant_at s (d_batchId d) a
    end.
Proof.
  intros Hnd. unfold batch_registered.
  by rewrite participants_added_participant.
Qed.

Lemma registered_batch_inv env cid d s :
  batch_inv s (d_batchId d) →
  exists_ (batch_at s (d_batchId d)) = false →
  registrable env d →
  batch_inv (batch_registered env cid d s) (d_batchId d).
Proof.
  intros Hinv Hex (Hexp & Hlen & Hpos & Hnz & Hnd).
  pose proof (inv_absent _ _ Hinv Hex) as Hz.
  pose proof (batch_registered_batch env cid d s Hz Hlen) as Hb.
  assert (∀ a, participant_at s (d_batchId d) a = zero_participant) as Hzp.
  { intros a. apply (inv_unlisted _ _ Hinv). rewrite Hz. apply not_elem_of_empty. }
  assert (∀ p, p ∈ supplyChainParticipants (registered_batch env cid d) →
               participant_at (batch_registered env cid d s) (d_batchId d)
                 (participantAddress p) = p) as Hmirror.
  { intros p Hp. rewrite batch_registered_participant by done.
    destruct (list_find _ _) as [[j q]|] eqn:Hf.
    - apply list_find_Some in Hf as (Hq%list_elem_of_lookup_2 & Haddr & _).
      eapply same_address_same_entry; eauto.
      simpl. by rewrite fmap_address_registered.
    - apply list_find_None in Hf. rewrite Forall_forall in Hf.
      by destruct (Hf p Hp). }
  constructor; rewrite Hb.
  - done.
  - simpl. by rewrite length_zip_with_l_eq.
  - simpl. by rewrite fmap_address_registered.
  - intros a. simpl. rewrite fmap_address_registered by done.
    apply elem_of_list_to_set.
  - simpl. by rewrite count_verified_registered.
  - exact Hmirror.
  - intros a Ha. rewrite batch_registered_participant by done.
    destruct (list_find _ _) as [[j q]|] eqn:Hf; [|by apply Hzp].
    apply list_find_Some in Hf as (Hq%list_elem_of_lookup_2 & Haddr & _).
    destruct Ha. simpl. apply elem_of_list_to_set.
    rewrite <- (fmap_address_registered _ _ Hlen). subst a.
    by apply list_elem_of_fmap_2.
  - intros p Hp _. simpl in Hp.
    apply elem_of_zip_with in Hp as (a & r & -> & _). done.
  - done.
Qed.

Lemma batch_registered_inv env cid d s :
  (∀ id, batch_inv s id) →
  exists_ (batch_at s (d_batchId d)) = false →
  registrable env d →
  ∀ id, batch_inv (batch_registered env cid d s) id.
Proof.
  intros Hinv Hex Hreg id. destruct (decide (id = d_batchId d)) as [->|Hne].
  - by apply registered_batch_inv.
  - destruct (batch_registered_other env cid d s id Hne) as [Hb Hp].
    by apply (batch_inv_ext s).
Qed.

(** ** The settlement loop *)

Lemma first_entry_cons_ne id d l :
  d_batchId d ≠ id → first_entry id (d :: l) = first_entry id l.
Proof. intros Hne. simpl. by rewrite bool_decide_false. Qed.

Lemma first_entry_cons_eq d l : first_entry (d_batchId d) (d :: l) = Some d.
Proof. simpl. by rewrite bool_decide_true. Qed.

Lemma first_entry_id id l d : first_entry id l = Some d → d_batchId d = id.
Proof.
  induction l as [|d0 l IH]; simpl; [done|].
  case_bool_decide; [by intros [= ->]|done].
Qed.

Lemma run_settle_batches env cid l w tr :
  (∀ id, batch_inv (store w) id) →
  (∀ id d, first_entry id l = Some d →
           exists_ (batch_at (store w) id) = false → registrable env d) →
  ∃ tr', settle_batches env cid l w tr
         = Done () {| store := batches_settled env cid l (store w);
                      token := token w |} tr'.
Proof.
  revert w tr. induction l as [|d l IH]; intros w tr Hinv Hreg.
  - simpl. exists tr. by destruct w.
  - simpl. mrun.
    destruct (exists_ (batch_at (store w) (d_batchId d))) eqn:Hex.
    + mrun. apply IH; [done|]. intros id d' Hd' Hid. apply (Hreg id); [|done].
      rewrite first_entry_cons_ne; [done|]. congruence.
    + assert (registrable env d) as Hd.
      { apply (Hreg (d_batchId d)); [apply first_entry_cons_eq|done]. }
      rewrite run_bind, run_bind, run_register; auto.
      2:{ by rewrite (inv_absent _ _ (Hinv (d_batchId d)) Hex). }
      mrun.
      apply (IH {| store := batch_registered env cid d (store w);
                   token := token w |}); simpl.
      * by apply batch_registered_inv.
      * intros id d' Hd' Hid. destruct (decide (d_batchId d = id)) as [<-|Hne].
        { rewrite batch_registered_batch in Hid; [done| |apply Hd].
          by apply (inv_absent _ _ (Hinv _)). }
        apply (Hreg id).
        -- by rewrite first_entry_cons_ne.
        -- destruct (batch_registered_other env cid d (store w) id) as [<- _];
             [by apply not_eq_sym|done].
Qed.

(** Whenever the registration returns, it returns the fold. *)
Lemma run_add_participants_done id ps rs w tr u w1 tr1 :
  add_participants id ps rs w tr = Done u w1 tr1 →
  w1 = {| store := participants_added id ps rs (store w); token := token w |}
  ∧ tr1 = tr.
Proof.
  revert rs w. induction ps as [|a ps IH]; intros rs w; simpl.
  - destruct rs; mrun; intros [= <- <- <-]; by destruct w.
  - destruct (bool_decide (a ≠ address_zero)); mrun; [|done].
    destruct (bool_decide (a ∉ isParticipant (batch_at (store w) id))); mrun;
      [|done].
    destruct rs as [|r rs]; [done|]. mrun. intros Hrun.
    by apply IH in Hrun.
Qed.

Lemma run_register_done env d cid w tr u w1 tr1 :
  registerBatchWithSupplyChain env (d_batchId d) (d_drugName d)
    (d_ingredients d) (d_expiryDate d) (d_supplyChainAddresses d)
    (d_supplyChainRoles d) cid w tr = Done u w1 tr1 →
  w1 = {| store := batch_registered env cid d (store w); token := token w |}.
Proof.
  unfold registerBatchWithSupplyChain. mrun.
  destruct (negb _); mrun; [|done].
  destruct (bool_decide (_ < _)%N); mrun; [|done].
  destruct (bool_decide (length _ = _)); mrun; [|done].
  destruct (bool_decide (0 < _)); mrun; [|done].
  rewrite run_bind.
  destruct (add_participants _ _ _ _ _) as [[] w2 tr2|] eqn:Hrun; [|done].
  apply run_add_participants_done in Hrun as [-> ->]. mrun.
  by intros [= <- <- <-].
Qed.

(** A failing registration anywhere in the list fails the whole loop. *)
Lemma run_settle_batches_fails env cid pre d post w tr :
  (∀ x, x ∈ pre → d_batchId x ≠ d_batchId d) →
  exists_ (batch_at (store w) (d_batchId d)) = false →
  ¬ registrable env d →
  ∃ e tr', settle_batches env cid (pre ++ d :: post) w tr = Failed e tr'.
Proof.
  revert w tr. induction pre as [|d0 pre IH]; intros w tr Hpre Hex Hbad.
  - simpl. mrun. rewrite Hex. rewrite run_bind, run_bind.
    destruct (run_register_fails env d cid w tr Hbad) as [e ->]. eauto.
  - simpl. mrun.
    assert (d_batchId d0 ≠ d_batchId d) as Hne by (apply Hpre; left).
    destruct (exists_ (batch_at (store w) (d_batchId d0))) eqn:Hex0.
    + mrun. apply IH; auto. intros x Hx. apply Hpre. by right.
    + rewrite run_bind, run_bind.
      destruct (registerBatchWithSupplyChain _ _ _ _ _ _ _ _ w tr)
        as [[] w1 tr1|e tr1] eqn:Hrun; [|eauto].
      apply run_register_done in Hrun as ->.
      mrun. apply IH; auto.
      * intros x Hx. apply Hpre. by right.
      * simpl.
        destruct (batch_registered_other env cid d0 (store w) (d_batchId d))
          as [-> _]; [by apply not_eq_sym|done].
Qed.

(** What the fold leaves in each batch slot. *)

Lemma batch_registered_exists env cid d s :
  exists_ (batch_at (batch_registered env cid d s) (d_batchId d)) = true.
Proof.
  unfold batch_registered.
  by rewrite participants_added_batch, batch_at_set_participantsList,
    batch_at_set_batch_eq.
Qed.

Lemma batch_registered_absent_zero env cid d s :
  absent_zero s → absent_zero (batch_registered env cid d s).
Proof.
  intros Hz id. destruct (decide (id = d_batchId d)) as [->|Hne].
  - by rewrite batch_registered_exists.
  - destruct (batch_registered_other env cid d s id Hne) as [-> _]. apply Hz.
Qed.

Lemma batches_settled_frame env cid l s :
  channels (batches_settled env cid l s) = channels s
  ∧ roles (batches_settled env cid l s) = roles s
  ∧ entered (batches_settled env cid l s) = entered s.
Proof.
  revert s. induction l as [|d l IH]; intros s; simpl; [done|].
  destruct (IH (if exists_ (batch_at s (d_batchId d)) then s
                else batch_registered env cid d s)) as (-> & -> & ->).
  destruct (exists_ _); [done|]. apply batch_registered_frame.
Qed.

Lemma channel_at_batches_settled env cid l s cid' :
  channel_at (batches_settled env cid l s) cid' = channel_at s cid'.
Proof.
  unfold channel_at. by destruct (batches_settled_frame env cid l s) as (-> & _).
Qed.

Lemma batches_settled_present env cid l s id :
  exists_ (batch_at s id) = true →
  batch_at (batches_settled env cid l s) id = batch_at s id
  ∧ ∀ a, participant_at (batches_settled env cid l s) id a
         = participant_at s id a.
Proof.
  revert s. induction l as [|d l IH]; intros s Hex; simpl; [done|].
  destruct (exists_ (batch_at s (d_batchId d))) eqn:Hd; [by apply IH|].
  assert (id ≠ d_batchId d) as Hne by congruence.
  destruct (batch_registered_other env cid d s id Hne) as [Hb Hp].
  destruct (IH (batch_registered env cid d s)) as [-> Hp']; [by rewrite Hb|].
  split; [done|]. intros a. by rewrite Hp', Hp.
Qed.

Lemma batches_settled_absent env cid l s id :
  exists_ (batch_at s id) = false →
  first_entry id l = None →
  batch_at (batches_settled env cid l s) id = batch_at s id
  ∧ ∀ a, participant_at (batches_settled env cid l s) id a
         = participant_at s id a.
Proof.
  revert s. induction l as [|d l IH]; intros s Hex Hfirst; simpl; [done|].
  simpl in Hfirst. case_bool_decide as Hid; [done|].
  destruct (exists_ (batch_at s (d_batchId d))) eqn:Hd; [by apply IH|].
  destruct (batch_registered_other env cid d s id) as [Hb Hp];
    [by apply not_eq_sym|].
  destruct (IH (batch_registered env cid d s)) as [-> Hp'];
    [by rewrite Hb|done|].
  split; [done|]. intros a. by rewrite Hp', Hp.
Qed.

Lemma batches_settled_new env cid l s id d :
  absent_zero s →
  exists_ (batch_at s id) = false →
  first_entry id l = Some d →
  length (d_supplyChainAddresses d) = length (d_supplyChainRoles d) →
  batch_at (batches_settled env cid l s) id = registered_batch env cid d.
Proof.
  revert s. induction l as [|d0 l IH]; intros s Hz Hex Hfirst Hlen; [done|].
  simpl in *. case_bool_decide as Hid.
  - injection Hfirst as ->. subst id. rewrite Hex.
    destruct (batches_settled_present env cid l (batch_registered env cid d s)
                (d_batchId d)) as [-> _].
    + apply batch_registered_exists.
    + apply batch_registered_batch; auto.
  - destruct (exists_ (batch_at s (d_batchId d0))) eqn:Hd; [by apply IH|].
    apply IH; auto.
    + by apply batch_registered_absent_zero.
    + destruct (batch_registered_other env cid d0 s id) as [-> _];
        [by apply not_eq_sym|done].
Qed.

Lemma batches_settled_inv env cid l s :
  (∀ id, batch_inv s id) →
  (∀ id d, first_entry id l = Some d →
           exists_ (batch_at s id) = false → registrable env d) →
  ∀ id, batch_inv (batches_settled env cid l s) id.
Proof.
  revert s. induction l as [|d l IH]; intros s Hinv Hreg; simpl; [done|].
  destruct (exists_ (batch_at s (d_batchId d))) eqn:Hex.
  - apply IH; [done|]. intros id d' Hd' Hid. apply (Hreg id); [|done].
    rewrite first_entry_cons_ne; [done|]. congruence.
  - assert (registrable env d) as Hd.
    { apply (Hreg (d_batchId d)); [apply first_entry_cons_eq|done]. }
    apply IH; [by apply batch_registered_inv|].
    intros id d' Hd' Hid. destruct (decide (d_batchId d = id)) as [<-|Hne].
    { by rewrite batch_registered_exists in Hid. }
    apply (Hreg id).
    + by rewrite first_entry_cons_ne.
    + destruct (batch_registered_other env cid d s id) as [<- _];
        [by apply not_eq_sym|done].
Qed.

(** ** settleChannel *)

Lemma run_settleChannel_not_open env cid fs sig w tr :
  entered (store w) = false →
  c_isOpen (channel_at (store w) cid) = false →
  settleChannel env cid fs sig w tr = Failed (Revert "Channel not open") tr.
Proof.
  intros He Hopen. unfold settleChannel. rewrite run_nonReentrant by done.
  mrun. simpl. rewrite channel_at_set_entered, Hopen. by mrun.
Qed.

Lemma run_settleChannel env cid fs sig l signer w tr :
  store_inv (store w) →
  c_isOpen (channel_at (store w) cid) = true →
  abi_decode fs = Some l →
  recover (toEthSignedMessageHash (keccak256 fs)) sig = Some signer →
  isChannelParticipant (store w) cid signer = true →
  hasRole (store w) MANUFACTURER_ROLE signer = true →
  (∀ id d, first_entry id l = Some d →
           exists_ (batch_at (store w) id) = false → registrable env d) →
  ∃ tr', settleChannel env cid fs sig w tr
         = Done () {| store := channel_settled env cid l (store w);
                      token := token w |} tr'.
Proof.
  intros [Hinv Hch He] Hopen Hdec Hrec Hpart Hrole Hreg.
  unfold settleChannel. rewrite run_nonReentrant by done.
  mrun. simpl. rewrite channel_at_set_entered, Hopen. mrun.
  rewrite Hdec, Hrec.
  change (isChannelParticipant (set_entered true (store w)) cid signer)
    with (isChannelParticipant (store w) cid signer).
  change (hasRole (set_entered true (store w)) MANUFACTURER_ROLE signer)
    with (hasRole (store w) MANUFACTURER_ROLE signer).
  rewrite Hpart, Hrole. mrun. rewrite run_bind.
  destruct (run_settle_batches env cid l
              {| store := set_entered true (store w); token := token w |} tr)
    as [tr' ->].
  { intros id. by apply (batch_inv_ext (store w)). }
  { intros id d Hd Hid. by apply (Hreg id). }
  mrun. simpl. rewrite channel_at_set_channel_eq.
  rewrite bool_decide_false.
  2:{ simpl. rewrite channel_at_batches_settled, channel_at_set_entered.
      rewrite (Hch cid Hopen). done. }
  mrun. simpl. eauto.
Qed.

(** ** verifySupplyChainTransfer *)

Lemma run_verify_loop env id loc data l i w tr :
  verify_loop env id loc data l i w tr
  = match list_find (λ p, participantAddress p = msg_sender env) l with
    | None => Done () w tr
    | Some (j, p) =>
        if hasVerified p then Failed (Revert "Already verified") tr
        else if bool_decide (verifiedCount (batch_at (store w) id) = MAX_UINT256)
        then Failed (Panic 17) tr
        else Done ()
               {| store := verified env id loc data (i + j) p (store w);
                  token := token w |}
               (tr ++ [Emit (SupplyChainVerification id (msg_sender env)
                               (role p) (block_timestamp env) loc)])
    end.
Proof.
  revert i. induction l as [|p l IH]; intros i; simpl; [done|].
  destruct (decide (participantAddress p = msg_sender env)) as [Hp|Hp].
  - rewrite bool_decide_true by done. simpl.
    destruct (hasVerified p); simpl; mrun; [done|].
    destruct (bool_decide _); mrun; [done|].
    by rewrite Nat.add_0_r.
  - rewrite bool_decide_false by done. rewrite IH.
    destruct (list_find _ l) as [[j q]|]; simpl; [|done].
    by rewrite Nat.add_succ_r.
Qed.

Lemma count_verified_insert l j p p' :
  l !! j = Some p → hasVerified p = false → hasVerified p' = true →
  count_verified (<[j:=p']> l) = S (count_verified l).
Proof.
  revert j. induction l as [|q l IH]; intros [|j] Hj Hp Hp'; simpl in *;
    try done.
  - injection Hj as ->. by rewrite Hp, Hp'.
  - rewrite (IH j) by done. lia.
Qed.

Lemma count_verified_le l : (count_verified l ≤ length l)%nat.
Proof. induction l as [|p l IH]; simpl; [done|]. destruct (hasVerified p); lia. Qed.

Lemma elem_of_insert_inv {A} (l : list A) j x y :
  y ∈ <[j:=x]> l → y = x ∨ ∃ k, k ≠ j ∧ l !! k = Some y.
Proof.
  intros [k Hk]%list_elem_of_lookup. rewrite list_lookup_insert in Hk.
  destruct (decide (j = k ∧ j < length l)) as [_|Hne].
  - left. congruence.
  - right. exists k. split; [|done]. intros ->. apply Hne. split; [done|].
    by apply lookup_lt_Some in Hk.
Qed.

Lemma verified_other env id loc data j p s id' :
  id' ≠ id →
  batch_at (verified env id loc data j p s) id' = batch_at s id'
  ∧ ∀ a, participant_at (verified env id loc data j p s) id' a
         = participant_at s id' a.
Proof.
  intros Hne. unfold verified. split.
  - rewrite batch_at_set_participant. by apply batch_at_set_batch_ne, not_eq_sym.
  - intros a. rewrite participant_at_set_participant.
    destruct (decide _) as [[=]|]; [by subst|]. by rewrite participant_at_set_batch.
Qed.

Lemma verified_batch env id loc data j p s :
  batch_at (verified env id loc data j p s) id
  = record_verification j (mark_verified (block_timestamp env) loc data p)
      (batch_at s id).
Proof. unfold verified. by rewrite batch_at_set_participant, batch_at_set_batch_eq. Qed.

Lemma verified_participant env id loc data j p s a :
  participant_at (verified env id loc data j p s) id a
  = if decide (a = msg_sender env)
    then mark_verified (block_timestamp env) loc data
           (participant_at s id (msg_sender env))
    else participant_at s id a.
Proof.
  unfold verified. rewrite participant_at_set_participant.
  destruct (decide (a = msg_sender env)) as [->|Hne].
  - by destruct (decide _).
  - destruct (decide _) as [[=]|]; [congruence|].
    by rewrite participant_at_set_batch.
Qed.

Lemma verified_inv env id loc data j p s :
  batch_inv s id →
  exists_ (batch_at s id) = true →
  rewardClaimed (batch_at s id) = false →
  supplyChainParticipants (batch_at s id) !! j = Some p →
  participantAddress p = msg_sender env →
  hasVerified p = false →
  batch_inv (verified env id loc data j p s) id.
Proof.
  intros [I1 I2 I3 I4 I5 I6 I7 I8 I9] Hex Hcl Hj Hp Hv.
  set (p' := mark_verified (block_timestamp env) loc data p).
  assert (p ∈ supplyChainParticipants (batch_at s id)) as Hin
    by (by eapply list_elem_of_lookup_2).
  assert (participantAddress <$> <[j:=p']> (supplyChainParticipants (batch_at s id))
          = participantAddress <$> supplyChainParticipants (batch_at s id))
    as Haddr.
  { rewrite list_fmap_insert. apply list_insert_id.
    by rewrite list_lookup_fmap, Hj. }
  constructor; rewrite verified_batch; simpl; fold p'.
  - by rewrite Hex.
  - by rewrite length_insert.
  - by rewrite Haddr.
  - intros a. by rewrite Haddr.
  - rewrite (count_verified_insert _ _ p p') by done. rewrite I5. lia.
  - intros q Hq. rewrite verified_participant.
    apply elem_of_insert_inv in Hq as [->|(k & Hk & Hq)].
    + simpl. rewrite Hp. destruct (decide _); [|done].
      unfold p'. f_equal. rewrite <- Hp. by apply I6.
    + assert (q ∈ supplyChainParticipants (batch_at s id)) as Hqin
        by (by eapply list_elem_of_lookup_2).
      destruct (decide _) as [Heq|_]; [|by apply I6].
      destruct Hk. apply (NoDup_lookup _ k j (participantAddress q) I3).
      * by rewrite list_lookup_fmap, Hq.
      * rewrite list_lookup_fmap, Hj. simpl. congruence.
  - intros a Ha. rewrite verified_participant.
    destruct (decide _) as [->|_]; [|by apply I7].
    destruct Ha. apply I4. rewrite <- Hp. by apply list_elem_of_fmap_2.
  - intros q Hq Hqv.
    apply elem_of_insert_inv in Hq as [->|(k & Hk & Hq)]; [done|].
    apply I8; [|done]. by eapply list_elem_of_lookup_2.
  - by rewrite Hcl.
Qed.

(** ** Every transaction either reverts or commits as specified *)

Lemma run_settle_batches_done env cid l w tr u w1 tr1 :
  settle_batches env cid l w tr = Done u w1 tr1 →
  w1 = {| store := batches_settled env cid l (store w); token := token w |}
  ∧ ∀ id d, first_entry id l = Some d →
            exists_ (batch_at (store w) id) = false → registrable env d.
Proof.
  revert w tr. induction l as [|d0 l IH]; intros w tr; simpl.
  - mrun. intros [= <- <- <-]. split; [by destruct w|done].
  - mrun. destruct (exists_ (batch_at (store w) (d_batchId d0))) eqn:Hex.
    + mrun. intros [-> Hreg]%IH. split; [done|].
      intros id d Hd Hid. case_bool_decide as Heq; [congruence|]. eauto.
    + rewrite run_bind, run_bind.
      destruct (registerBatchWithSupplyChain _ _ _ _ _ _ _ _ w tr)
        as [[] w2 tr2|e tr2] eqn:Hrun; [|done].
      assert (registrable env d0) as Hd0.
      { destruct (decide (registrable env d0)) as [|Hbad]; [done|].
        destruct (run_register_fails env d0 cid w tr Hbad) as [e He].
        congruence. }
      apply run_register_done in Hrun as ->. mrun.
      intros [-> Hreg]%IH. split; [done|]. simpl in Hreg.
      intros id d Hd Hid. case_bool_decide as Heq; [congruence|].
      apply (Hreg id); [done|].
      destruct (batch_registered_other env cid d0 (store w) id) as [-> _];
        [by apply not_eq_sym|done].
Qed.

Lemma transact_success env c w w' tr :
  transact env c w = (w', Success tr) →
  ∃ u, dispatch env c w [] = Done u w' tr.
Proof.
  unfold transact. destruct (dispatch env c w []) as [u w1 tr1|]; [|done].
  intros [= <- <-]. eauto.
Qed.

Lemma transact_reverted env c w w' e tr :
  transact env c w = (w', Reverted e tr) →
  w' = w ∧ dispatch env c w [] = Failed e tr.
Proof.
  unfold transact. destruct (dispatch env c w []) as [u w1 tr1|]; [done|].
  by intros [= <- <- <-].
Qed.

Lemma settleChannel_sound env cid fs sig w tr u w' tr' :
  entered (store w) = false →
  settleChannel env cid fs sig w tr = Done u w' tr' →
  commits env w (SettleChannel cid fs sig) w'.
Proof.
  intros He. unfold settleChannel. rewrite run_nonReentrant by done. mrun.
  simpl. rewrite channel_at_set_entered.
  destruct (c_isOpen (channel_at (store w) cid)) eqn:Hopen; mrun; [|done].
  destruct (abi_decode fs) as [l|] eqn:Hdec; [|done].
  destruct (recover _ sig) as [signer|] eqn:Hrec; [|done].
  change (isChannelParticipant (set_entered true (store w)) cid signer)
    with (isChannelParticipant (store w) cid signer).
  change (hasRole (set_entered true (store w)) MANUFACTURER_ROLE signer)
    with (hasRole (store w) MANUFACTURER_ROLE signer).
  destruct (isChannelParticipant (store w) cid signer) eqn:Hpart; mrun; [|done].
  destruct (hasRole (store w) MANUFACTURER_ROLE signer) eqn:Hrole; mrun; [|done].
  rewrite run_bind.
  destruct (settle_batches env cid l _ tr) as [[] w1 tr1|] eqn:Hrun; [|done].
  apply run_settle_batches_done in Hrun as [-> Hreg]. mrun. simpl.
  match goal with
  | |- context [bool_decide ?P] =>
      destruct (decide P) as [Hmax|Hmax];
      [by rewrite bool_decide_true|rewrite bool_decide_false by done]
  end.
  mrun. simpl. intros [= <- <-].
  change (commits env w (SettleChannel cid fs sig)
            {| store := channel_settled env cid l (store w);
               token := token w |}).
  eapply commits_settle; eauto.
  revert Hmax. rewrite channel_at_set_channel_eq. simpl.
  by rewrite channel_at_batches_settled, channel_at_set_entered.
Qed.

Lemma verify_sound env id loc data sig w tr u w' tr' :
  verifySupplyChainTransfer env id loc data sig w tr = Done u w' tr' →
  commits env w (VerifySupplyChainTransfer id loc data sig) w'.
Proof.
  unfold verifySupplyChainTransfer. mrun.
  destruct (exists_ (batch_at (store w) id)) eqn:Hex; mrun; [|done].
  guard (msg_sender env ∈ isParticipant (batch_at (store w) id)) as Hin;
    [|done].
  destruct (rewardClaimed (batch_at (store w) id)) eqn:Hcl; simpl negb; mrun;
    [done|].
  destruct (recover _ sig) as [signer|] eqn:Hrec; [|done].
  guard (signer = msg_sender env) as Hsig; [|done]. subst signer.
  rewrite run_verify_loop.
  destruct (list_find _ _) as [[j p]|] eqn:Hfind.
  - destruct (hasVerified p) eqn:Hv; [done|].
    destruct (decide (verifiedCount (batch_at (store w) id) = MAX_UINT256))
      as [Hmax|Hmax].
    { by rewrite bool_decide_true. }
    rewrite bool_decide_false by done. intros [= <- <-]. simpl.
    by eapply commits_verify.
  - intros [= <- <-]. by eapply commits_verify_nothing.
Qed.

Lemma claim_sound env id w tr u w' tr' :
  entered (store w) = false →
  claimCustomerReward env id w tr = Done u w' tr' →
  commits env w (ClaimCustomerReward id) w'.
Proof.
  intros He. unfold claimCustomerReward. rewrite run_nonReentrant by done.
  mrun. simpl. rewrite batch_at_set_entered.
  destruct (exists_ (batch_at (store w) id)) eqn:Hex; mrun; [|done].
  destruct (rewardClaimed (batch_at (store w) id)) eqn:Hcl; simpl negb; mrun;
    [done|].
  guard (verifiedCount (batch_at (store w) id)
         = totalParticipants (batch_at (store w) id)) as Hall; [|done].
  guard (msg_sender env ∉ isParticipant (batch_at (store w) id)) as Hout;
    [|done].
  rewrite run_bind. unfold call_mint. simpl.
  destruct (mint (token w) (msg_sender env) CUSTOMER_REWARD) as [e|t'] eqn:Hmint;
    [done|].
  mrun. simpl. intros [= <- <-]. by eapply commits_claim.
Qed.

Lemma openChannel_sound env cid ps w tr u w' tr' :
  openChannel env cid ps w tr = Done u w' tr' →
  commits env w (OpenChannel cid ps) w'.
Proof.
  unfold openChannel, onlyRole. rewrite run_bind. mrun.
  destruct (hasRole (store w) CHANNEL_ROLE (msg_sender env)) eqn:Hrole; mrun;
    [|done].
  destruct (c_isOpen (channel_at (store w) cid)) eqn:Hopen; simpl negb; mrun;
    [done|].
  intros [= <- <-]. by eapply commits_open.
Qed.

Lemma closeChannel_sound env cid w tr u w' tr' :
  closeChannel env cid w tr = Done u w' tr' →
  commits env w (CloseChannel cid) w'.
Proof.
  unfold closeChannel, onlyRole. rewrite run_bind. mrun.
  destruct (hasRole (store w) CHANNEL_ROLE (msg_sender env)) eqn:Hrole; mrun;
    [|done].
  destruct (c_isOpen (channel_at (store w) cid)) eqn:Hopen; mrun; [|done].
  intros [= <- <-]. by eapply commits_close.
Qed.

Lemma transact_sound env c w w' tr :
  entered (store w) = false →
  transact env c w = (w', Success tr) → commits env w c w'.
Proof.
  intros He [u Hrun]%transact_success. destruct c; simpl in Hrun.
  - by eapply settleChannel_sound.
  - by eapply verify_sound.
  - by eapply claim_sound.
  - by eapply openChannel_sound.
  - by eapply closeChannel_sound.
  - done.
Qed.

(** ** The invariant holds in every reachable world *)

Lemma batch_inv_zero s id :
  batch_at s id = zero_batch →
  (∀ a, participant_at s id a = zero_participant) →
  batch_inv s id.
Proof.
  intros Hz Hp. constructor; rewrite ?Hz; simpl; try done.
  - constructor.
  - intros a. split; [by intros ?%not_elem_of_empty|by intros ?%elem_of_nil].
  - intros p Hin. by apply elem_of_nil in Hin.
  - intros p Hin. by apply elem_of_nil in Hin.
Qed.

Lemma constructor_inv deployer : store_inv (constructor deployer).
Proof.
  constructor; try done. intros id. by apply batch_inv_zero.
Qed.

Lemma caller_entry_Some env b j p :
  caller_entry env b = Some (j, p) →
  supplyChainParticipants b !! j = Some p
  ∧ participantAddress p = msg_sender env.
Proof. unfold caller_entry. by intros (? & ? & _)%list_find_Some. Qed.

Lemma claimed_batch env id s id' :
  batch_at (claimed env id s) id'
  = if decide (id = id') then mark_claimed env (batch_at s id)
    else batch_at s id'.
Proof.
  unfold claimed. by rewrite batch_at_set_entered, batch_at_set_batch.
Qed.

Lemma claimed_inv env id s :
  batch_inv s id →
  verifiedCount (batch_at s id) = totalParticipants (batch_at s id) →
  exists_ (batch_at s id) = true →
  batch_inv (claimed env id s) id.
Proof.
  intros [I1 I2 I3 I4 I5 I6 I7 I8 I9] Hall Hex.
  constructor; rewrite claimed_batch; destruct (decide (id = id)); try done;
    simpl; try done.
  by rewrite Hex.
Qed.

Lemma commits_inv env w c w' :
  store_inv (store w) → commits env w c w' → store_inv (store w').
Proof.
  intros [Hb Hc He] Hstep.
  destruct Hstep as [cid fs sig l signer Hopen _ _ _ _ Hreg _
                    |id loc data sig j p Hex Hin Hcl _ Hfind Hv _
                    |id loc data sig
                    |id t' Hex Hcl Hall Hout _
                    |cid ps _ Hopen
                    |cid _ Hopen]; simpl.
  - constructor; [| |done].
    + intros id.
      apply (batch_inv_ext (batches_settled env cid l (set_entered true (store w))));
        [done..|].
      apply batches_settled_inv; [|done].
      intros id'. by apply (batch_inv_ext (store w)).
    + intros cid'. unfold channel_settled. cbv zeta.
      rewrite channel_at_set_entered, !channel_at_set_channel.
      destruct (decide (cid = cid')) as [->|Hne].
      * destruct (decide (cid' = cid')); [|done]. by simpl.
      * rewrite channel_at_batches_settled, channel_at_set_entered. apply Hc.
  - apply caller_entry_Some in Hfind as [Hj Hp].
    constructor; [|done|done].
    intros id'. destruct (decide (id' = id)) as [->|Hne].
    + by apply verified_inv.
    + destruct (verified_other env id loc data j p (store w) id' Hne) as [Hb' Hp'].
      by apply (batch_inv_ext (store w)).
  - done.
  - constructor; [|done|done].
    intros id'. destruct (decide (id' = id)) as [->|Hne].
    + by apply claimed_inv.
    + apply (batch_inv_ext (store w)); [|done|done].
      rewrite claimed_batch. by destruct (decide (id = id')).
  - constructor; [| |done].
    + intros id. by apply (batch_inv_ext (store w)).
    + intros cid'. unfold opened. rewrite channel_at_set_channel.
      destruct (decide (cid = cid')); [done|apply Hc].
  - constructor; [| |done].
    + intros id. by apply (batch_inv_ext (store w)).
    + intros cid'. unfold closed. rewrite channel_at_set_channel.
      destruct (decide (cid = cid')); [done|apply Hc].
Qed.

Lemma world_after_cases env c w :
  entered (store w) = false →
  (world_after env c w = w ∧ ∃ e tr, receipt_of env c w = Reverted e tr)
  ∨ (commits env w c (world_after env c w)
     ∧ ∃ tr, receipt_of env c w = Success tr).
Proof.
  intros He. unfold world_after, receipt_of.
  destruct (transact env c w) as [w' [tr|e tr]] eqn:Hrun; simpl.
  - right. split; [|eauto]. by eapply transact_sound.
  - left. apply transact_reverted in Hrun as [-> _]. eauto.
Qed.

Lemma reachable_inv w : reachable w → store_inv (store w).
Proof.
  induction 1 as [deployer t|env c w _ IH|r w _ IH|t w _ IH]; simpl.
  - apply constructor_inv.
  - destruct (world_after_cases env c w) as [[-> _]|[Hstep _]];
      [apply IH|done|].
    by eapply commits_inv.
  - destruct IH as [Hb Hc He]. constructor; [|done|done].
    intros id. by apply (batch_inv_ext (store w)).
  - done.
Qed.

(** ** What a committed transaction changes *)

Lemma channel_at_channel_settled env cid l s cid' :
  channel_at (channel_settled env cid l s) cid'
  = if decide (cid = cid')
    then bump_nonce (close_channel (block_timestamp env) (channel_at s cid))
    else channel_at s cid'.
Proof.
  unfold channel_settled. cbv zeta.
  rewrite channel_at_set_entered, !channel_at_set_channel.
  destruct (decide (cid = cid')) as [->|Hne].
  - destruct (decide (cid' = cid')); [|done].
    by rewrite channel_at_batches_settled, channel_at_set_entered.
  - by rewrite channel_at_batches_settled, channel_at_set_entered.
Qed.

Lemma commits_channel env w c w' cid :
  commits env w c w' →
  channel_at (store w') cid
  = match c with
    | SettleChannel cid0 _ _ =>
        if decide (cid0 = cid)
        then bump_nonce (close_channel (block_timestamp env)
                           (channel_at (store w) cid0))
        else channel_at (store w) cid
    | OpenChannel cid0 ps =>
        if decide (cid0 = cid)
        then {| c_id := cid0; c_participants := ps; c_nonce := 0%N;
                c_isOpen := true; c_openedAt := block_timestamp env;
                c_closedAt := 0%N |}
        else channel_at (store w) cid
    | CloseChannel cid0 =>
        if decide (cid0 = cid)
        then close_channel (block_timestamp env) (channel_at (store w) cid0)
        else channel_at (store w) cid
    | _ => channel_at (store w) cid
    end.
Proof.
  intros [cid0 fs sig l signer _ _ _ _ _ _ _| | | |cid0 ps _ _|cid0 _ _]; simpl;
    try done.
  - apply channel_at_channel_settled.
  - unfold opened. apply channel_at_set_channel.
  - unfold closed. apply channel_at_set_channel.
Qed.

Lemma run_openChannel env cid ps w tr :
  hasRole (store w) CHANNEL_ROLE (msg_sender env) = true →
  c_isOpen (channel_at (store w) cid) = false →
  openChannel env cid ps w tr
  = Done () {| store := opened env cid ps (store w); token := token w |}
      (tr ++ [Emit (ChannelOpened cid ps)]).
Proof.
  intros Hrole Hopen. unfold openChannel, onlyRole. rewrite run_bind. mrun.
  rewrite Hrole. mrun. rewrite Hopen. simpl negb. by mrun.
Qed.

Lemma run_closeChannel env cid w tr :
  hasRole (store w) CHANNEL_ROLE (msg_sender env) = true →
  c_isOpen (channel_at (store w) cid) = true →
  closeChannel env cid w tr
  = Done () {| store := closed env cid (store w); token := token w |}
      (tr ++ [Emit (ChannelClosed cid (block_timestamp env))]).
Proof.
  intros Hrole Hopen. unfold closeChannel, onlyRole. rewrite run_bind. mrun.
  rewrite Hrole. mrun. rewrite Hopen. by mrun.
Qed.

Lemma commits_batch env w c w' id :
  commits env w c w' →
  batch_at (store w') id
  = match c with
    | SettleChannel cid fs _ =>
        batch_at (batches_settled env cid (default [] (abi_decode fs))
                    (set_entered true (store w))) id
    | VerifySupplyChainTransfer id0 loc data _ =>
        match caller_entry env (batch_at (store w) id0) with
        | Some (j, p) =>
            if decide (id0 = id)
            then record_verification j
                   (mark_verified (block_timestamp env) loc data p)
                   (batch_at (store w) id0)
            else batch_at (store w) id
        | None => batch_at (store w) id
        end
    | ClaimCustomerReward id0 =>
        if decide (id0 = id) then mark_claimed env (batch_at (store w) id0)
        else batch_at (store w) id
    | _ => batch_at (store w) id
    end.
Proof.
  intros [cid fs sig l signer _ Hdec _ _ _ _ _
         |id0 loc data sig j p _ _ _ _ Hfind _ _
         |id0 loc data sig _ _ _ _ Hfind
         |id0 t' _ _ _ _ _| |]; simpl; try done.
  - by rewrite Hdec.
  - rewrite Hfind. destruct (decide (id0 = id)) as [->|Hne].
    + apply verified_batch.
    + by destruct (verified_other env id0 loc data j p (store w) id) as [-> _];
        [apply not_eq_sym|].
  - by rewrite Hfind.
  - apply claimed_batch.
Qed.

(** ** Listed participants and their records *)

Lemma listed_entry s id a :
  batch_inv s id →
  a ∈ isParticipant (batch_at s id) →
  ∃ j p, list_find (λ p, participantAddress p = a)
           (supplyChainParticipants (batch_at s id)) = Some (j, p)
         ∧ participant_at s id a = p.
Proof.
  intros Hinv Hin. apply (inv_listed _ _ Hinv) in Hin.
  apply list_elem_of_fmap in Hin as (p & -> & Hp).
  destruct (list_find_elem_of (λ q, participantAddress q = participantAddress p)
              _ p Hp eq_refl) as [[j q] Hfind].
  exists j, q. split; [done|].
  apply list_find_Some in Hfind as (Hq%list_elem_of_lookup_2 & Haddr & _).
  rewrite <- Haddr. by apply (inv_mirror _ _ Hinv).
Qed.

Lemma verified_is_listed s id a :
  batch_inv s id →
  hasVerified (participant_at s id a) = true →
  a ∈ isParticipant (batch_at s id).
Proof.
  intros Hinv Hv.
  destruct (decide (a ∈ isParticipant (batch_at s id))) as [|Hout]; [done|].
  by rewrite (inv_unlisted _ _ Hinv a Hout) in Hv.
Qed.

Lemma count_verified_zero l p :
  count_verified l = 0 → p ∈ l → hasVerified p = false.
Proof.
  induction l as [|q l IH]; simpl; intros Hc Hin.
  - by apply elem_of_nil in Hin.
  - apply elem_of_cons in Hin as [->|Hin].
    + destruct (hasVerified q); [lia|done].
    + apply IH; [|done]. destruct (hasVerified q); lia.
Qed.

Lemma run_verify_not_found env id loc data sig w tr :
  exists_ (batch_at (store w) id) = false →
  verifySupplyChainTransfer env id loc data sig w tr
  = Failed (Revert "Batch not found") tr.
Proof.
  intros Hex. unfold verifySupplyChainTransfer. mrun. rewrite Hex. by mrun.
Qed.

Lemma run_verify_unlisted env id loc data sig w tr :
  exists_ (batch_at (store w) id) = true →
  msg_sender env ∉ isParticipant (batch_at (store w) id) →
  verifySupplyChainTransfer env id loc data sig w tr
  = Failed (Revert "Not authorized participant") tr.
Proof.
  intros Hex Hout. unfold verifySupplyChainTransfer. mrun. rewrite Hex. mrun.
  rewrite bool_decide_false by done. by mrun.
Qed.

Lemma run_verify_completed env id loc data sig w tr :
  exists_ (batch_at (store w) id) = true →
  msg_sender env ∈ isParticipant (batch_at (store w) id) →
  rewardClaimed (batch_at (store w) id) = true →
  verifySupplyChainTransfer env id loc data sig w tr
  = Failed (Revert "Batch already completed") tr.
Proof.
  intros Hex Hin Hcl. unfold verifySupplyChainTransfer. mrun. rewrite Hex. mrun.
  rewrite bool_decide_true by done. mrun. rewrite Hcl. simpl negb. by mrun.
Qed.

Lemma run_verify_already env id loc data sig w tr :
  batch_inv (store w) id →
  exists_ (batch_at (store w) id) = true →
  rewardClaimed (batch_at (store w) id) = false →
  hasVerified (participant_at (store w) id (msg_sender env)) = true →
  ∃ e, verifySupplyChainTransfer env id loc data sig w tr = Failed e tr
       ∧ (recover (toEthSignedMessageHash
                     (keccak256 (encodePacked id (msg_sender env) loc data)))
            sig = Some (msg_sender env) →
          e = Revert "Already verified").
Proof.
  intros Hinv Hex Hcl Hv.
  pose proof (verified_is_listed _ _ _ Hinv Hv) as Hin.
  destruct (listed_entry _ _ _ Hinv Hin) as (j & p & Hfind & Hp).
  unfold verifySupplyChainTransfer. mrun. rewrite Hex. mrun.
  rewrite bool_decide_true by done. mrun. rewrite Hcl. simpl negb. mrun.
  destruct (recover _ sig) as [signer|]; [|by eexists].
  guard (signer = msg_sender env) as Hsig.
  - subst signer. rewrite run_verify_loop, Hfind. rewrite <- Hp, Hv. eauto.
  - eexists. split; [done|]. congruence.
Qed.

(** ** How one committed transaction moves the verification state *)

Lemma batch_at_channel_settled env cid l s id :
  batch_at (channel_settled env cid l s) id
  = batch_at (batches_settled env cid l (set_entered true s)) id.
Proof. reflexivity. Qed.

Lemma participant_at_channel_settled env cid l s id a :
  participant_at (channel_settled env cid l s) id a
  = participant_at (batches_settled env cid l (set_entered true s)) id a.
Proof. reflexivity. Qed.

Lemma unverified_when_count_zero s id a :
  batch_inv s id →
  verifiedCount (batch_at s id) = 0%N →
  hasVerified (participant_at s id a) = false.
Proof.
  intros Hinv Hzero.
  destruct (decide (a ∈ isParticipant (batch_at s id))) as [Hin|Hout].
  - destruct (listed_entry _ _ _ Hinv Hin) as (j & p & Hfind & ->).
    apply list_find_Some in Hfind as (Hp%list_elem_of_lookup_2 & _).
    apply (count_verified_zero (supplyChainParticipants (batch_at s id)));
      [|done].
    rewrite (inv_count _ _ Hinv) in Hzero. lia.
  - by rewrite (inv_unlisted _ _ Hinv a Hout).
Qed.

Lemma commits_verification_step env w c w' id :
  store_inv (store w) →
  commits env w c w' →
  (verifiedCount (batch_at (store w') id) = verifiedCount (batch_at (store w) id)
   ∧ ∀ a, hasVerified (participant_at (store w') id a)
          = hasVerified (participant_at (store w) id a))
  ∨ (∃ loc data sig,
       c = VerifySupplyChainTransfer id loc data sig
       ∧ verifiedCount (batch_at (store w') id)
         = (verifiedCount (batch_at (store w) id) + 1)%N
       ∧ hasVerified (participant_at (store w) id (msg_sender env)) = false
       ∧ hasVerified (participant_at (store w') id (msg_sender env)) = true
       ∧ ∀ a, a ≠ msg_sender env →
              participant_at (store w') id a = participant_at (store w) id a).
Proof.
  intros Hinv Hstep. pose proof (commits_inv _ _ _ _ Hinv Hstep) as Hinv'.
  destruct Hinv as [Hb Hc He]. destruct Hinv' as [Hb' _ _].
  destruct Hstep as [cid fs sig l signer Hopen _ _ _ _ Hreg _
                    |id0 loc data sig j p Hex Hin Hcl Hrec Hfind Hv _
                    |id0 loc data sig
                    |id0 t' Hex Hcl Hall Hout _
                    |cid ps _ Hopen
                    |cid _ Hopen]; simpl in *.
  - left.
    destruct (exists_ (batch_at (store w) id)) eqn:Hex.
    + destruct (batches_settled_present env cid l (set_entered true (store w)) id Hex)
        as [Heq Hp].
      rewrite batch_at_channel_settled, Heq. split; [done|]. intros a.
      by rewrite participant_at_channel_settled, Hp.
    + pose proof (inv_absent _ _ (Hb id) Hex) as Hz.
      assert (verifiedCount (batch_at (channel_settled env cid l (store w)) id)
              = 0%N) as Hzero.
      { rewrite batch_at_channel_settled.
        destruct (first_entry id l) as [d|] eqn:Hd.
        - rewrite (batches_settled_new env cid l (set_entered true (store w)) id d);
            auto.
          + intros id' Hid'. by apply (inv_absent _ _ (Hb id')).
          + by destruct (Hreg id d Hd Hex) as (_ & ? & _).
        - destruct (batches_settled_absent env cid l
                      (set_entered true (store w)) id Hex Hd) as [-> _].
          by rewrite batch_at_set_entered, Hz. }
      split; [by rewrite Hzero, Hz|]. intros a.
      rewrite (unverified_when_count_zero _ _ a (Hb' id) Hzero).
      symmetry. apply (unverified_when_count_zero _ _ a (Hb id)). by rewrite Hz.
  - apply caller_entry_Some in Hfind as [Hj Hp].
    destruct (decide (id = id0)) as [->|Hne].
    + right. exists loc, data, sig. split_and!; [done| | | |].
      * by rewrite verified_batch.
      * rewrite <- Hp, (inv_mirror _ _ (Hb id0) p); [done|].
        by eapply list_elem_of_lookup_2.
      * rewrite verified_participant. by destruct (decide _).
      * intros a Ha. rewrite verified_participant. by destruct (decide _).
    + left. destruct (verified_other env id0 loc data j p (store w) id Hne)
        as [-> Hp'].
      split; [done|]. intros a. by rewrite Hp'.
  - by left.
  - left. split; [|done]. rewrite claimed_batch.
    by destruct (decide (id0 = id)) as [->|].
  - by left.
  - by left.
Qed.

Lemma commits_total_fixed env w c w' id :
  commits env w c w' →
  exists_ (batch_at (store w) id) = true →
  totalParticipants (batch_at (store w') id)
  = totalParticipants (batch_at (store w) id)
  ∧ exists_ (batch_at (store w') id) = true.
Proof.
  intros Hstep Hex.
  destruct Hstep as [cid fs sig l signer Hopen _ _ _ _ Hreg _
                    |id0 loc data sig j p _ _ _ _ _ _ _
                    |id0 loc data sig
                    |id0 t' _ _ _ _ _
                    |cid ps _ Hopen
                    |cid _ Hopen]; simpl; try done.
  - destruct (batches_settled_present env cid l (set_entered true (store w)) id Hex)
      as [Heq _].
    by rewrite batch_at_channel_settled, Heq.
  - destruct (decide (id = id0)) as [->|Hne].
    + by rewrite verified_batch.
    + by destruct (verified_other env id0 loc data j p (store w) id Hne) as [-> _].
  - rewrite claimed_batch. by destruct (decide (id0 = id)) as [->|].
Qed.

Lemma world_after_reverted env c w e tr :
  receipt_of env c w = Reverted e tr → world_after env c w = w.
Proof.
  unfold receipt_of, world_after, transact.
  by destruct (dispatch env c w []).
Qed.

Lemma count_verified_all l :
  count_verified l = length l ↔ ∀ p, p ∈ l → hasVerified p = true.
Proof.
  induction l as [|q l IH]; simpl.
  - split; [|done]. intros _ p Hp. by apply elem_of_nil in Hp.
  - pose proof (count_verified_le l) as Hle. split.
    + intros Hc p [->|Hp]%elem_of_cons.
      * destruct (hasVerified q); [done|lia].
      * apply IH; [|done]. destruct (hasVerified q); lia.
    + intros Hall. rewrite (Hall q) by left.
      f_equal. apply IH. intros p Hp. apply Hall. by right.
Qed.

Lemma count_verified_lt l p :
  p ∈ l → hasVerified p = false → (count_verified l < length l)%nat.
Proof.
  intros Hp Hv. pose proof (count_verified_le l) as Hle.
  destruct (decide (count_verified l = length l)) as [Heq|]; [|lia].
  rewrite (proj1 (count_verified_all l) Heq p Hp) in Hv. done.
Qed.

(** * The claims of the specification *)

(** ** Reward claims (C1, C9) *)

(** The exact success condition of [claimCustomerReward]: the four guards
    and the mint.  The expiry date of the batch does not occur in it. *)
Lemma claimCustomerReward_success_iff env id w :
  entered (store w) = false →
  (∃ tr, receipt_of env (ClaimCustomerReward id) w = Success tr)
  ↔ (exists_ (batch_at (store w) id) = true
     ∧ rewardClaimed (batch_at (store w) id) = false
     ∧ verifiedCount (batch_at (store w) id)
       = totalParticipants (batch_at (store w) id)
     ∧ (msg_sender env ∉ isParticipant (batch_at (store w) id))
     ∧ ∃ t', mint (token w) (msg_sender env) CUSTOMER_REWARD = inr t').
Proof.
  intros He. split.
  - intros [tr Hrec]. unfold receipt_of in Hrec.
    destruct (transact env (ClaimCustomerReward id) w) as [w' r] eqn:Hrun.
    simpl in Hrec. subst r. apply transact_sound in Hrun; [|done].
    inversion Hrun; subst. eauto 10.
  - intros (Hex & Hcl & Hall & Hout & t' & Hmint).
    unfold receipt_of, transact. simpl. unfold claimCustomerReward.
    rewrite run_nonReentrant by done. mrun. simpl.
    rewrite batch_at_set_entered, Hex, Hcl. simpl negb. mrun.
    rewrite !bool_decide_true by done. mrun.
    rewrite run_bind. unfold call_mint. simpl. rewrite Hmint. mrun.
    simpl. eauto.
Qed.

End Properties.

(** C1.  The code does not check the expiry date when a reward is claimed:
    in the local deployment batch B1 expires at time 100, is fully verified
    and unclaimed, and the customer, who is not one of its participants,
    claims at time 200.  The transaction succeeds, the reward is marked as
    claimed and the customer is credited. *)
Theorem claim_succeeds_after_expiry :
  let env := Local.at_ Local.customer 200 in
  let b := batch_at (store Local.w_verified) "B1" in
  exists_ b = true
  ∧ rewardClaimed b = false
  ∧ verifiedCount b = totalParticipants b
  ∧ (Local.customer ∉ isParticipant b)
  ∧ (expiryDate b < block_timestamp env)%N
  ∧ (∃ snapshot,
       receipt_of env (ClaimCustomerReward "B1") Local.w_verified
       = Success [CallMint snapshot Local.customer CUSTOMER_REWARD;
                  Emit (CustomerRewardClaimed "B1" Local.customer
                          CUSTOMER_REWARD 200%N)])
  ∧ rewardClaimed (batch_at (store Local.w_claimed) "B1") = true
  ∧ rewardClaimedBy (batch_at (store Local.w_claimed) "B1") = Local.customer
  ∧ MediToken.balanceOf (token Local.w_claimed) Local.customer
    = CUSTOMER_REWARD.
Proof.
  cbv zeta. split_and!.
  - by vm_compute.
  - by vm_compute.
  - by vm_compute.
  - apply (bool_decide_unpack _). by vm_compute.
  - by vm_compute.
  - eexists. by vm_compute.
  - by vm_compute.
  - by vm_compute.
  - by vm_compute.
Qed.

(** ** Registration (C2, C6) *)

(** C2.  The code puts no upper bound on the number of participants: a
    settlement entry with twenty-one distinct participants is registered,
    through [settleChannel] and by the internal function itself. *)
Theorem registration_accepts_21_participants :
  let d := Local.batch_B21 in
  let env := Local.at_ Local.deployer 20 in
  let call := SettleChannel 7%N (Local.payload 1) (Local.signed_by Local.deployer) in
  length (d_supplyChainAddresses d) = 21
  ∧ NoDup (d_supplyChainAddresses d)
  ∧ registrable env d
  ∧ receipt_of env call Local.w_open
    = Success [Emit (BatchRegistered "B21" Local.deployer 7%N 20%N 21%N);
               Emit (BatchSettled "B21" 7%N); Emit (ChannelClosed 7%N 20%N)]
  ∧ exists_ (batch_at (store (world_after env call Local.w_open)) "B21") = true
  ∧ totalParticipants (batch_at (store (world_after env call Local.w_open)) "B21")
    = 21%N
  ∧ match registerBatchWithSupplyChain env (d_batchId d) (d_drugName d)
            (d_ingredients d) (d_expiryDate d) (d_supplyChainAddresses d)
            (d_supplyChainRoles d) 7%N Local.w_open [] with
    | Done _ w' tr =>
        tr = [Emit (BatchRegistered "B21" Local.deployer 7%N 20%N 21%N)]
        ∧ totalParticipants (batch_at (store w') "B21") = 21%N
    | Failed _ _ => False
    end.
Proof.
  cbv zeta. split_and!.
  - done.
  - apply (bool_decide_unpack _). by vm_compute.
  - apply (bool_decide_unpack _). by vm_compute.
  - by vm_compute.
  - by vm_compute.
  - by vm_compute.
  - by vm_compute.
Qed.

(** ** Channels (C3) *)

(** C3, as stated, fails: channel 7 is opened, closed by [closeChannel] and
    opened again; it is also opened, closed by settlement and opened again.
    Every world of the two runs is reachable. *)
Lemma closed_channel_reopens :
  reachable Local.w_reopened
  ∧ c_isOpen (channel_at (store Local.w_open) 7%N) = true
  ∧ c_isOpen (channel_at (store Local.w_closed) 7%N) = false
  ∧ c_isOpen (channel_at (store Local.w_reopened) 7%N) = true
  ∧ reachable Local.w_resettled
  ∧ c_isOpen (channel_at (store Local.w_settled) 7%N) = false
  ∧ c_isOpen (channel_at (store Local.w_resettled) 7%N) = true.
Proof.
  split_and!.
  - unfold Local.w_reopened, Local.w_closed, Local.w_open.
    repeat apply reach_call. apply reach_deploy.
  - by vm_compute.
  - by vm_compute.
  - by vm_compute.
  - unfold Local.w_resettled, Local.w_settled, Local.w_open.
    repeat apply reach_call. apply reach_deploy.
  - by vm_compute.
  - by vm_compute.
Qed.

Section Channels.
Context `{Collaborators}.

(** C3, amended.  On the ledger a channel is open or not open.  It leaves
    the open state only by a [closeChannel] or [settleChannel] on its id,
    and enters it only by an [openChannel] on its id from a holder of the
    channel role, which installs a fresh record with nonce zero; such an
    [openChannel] succeeds on every id that is not open, closed ones
    included, and is refused only while the id is open. *)
Theorem channel_open_flag_changes env c w cid :
  reachable w →
  (c_isOpen (channel_at (store w) cid) = true →
   c_isOpen (channel_at (store (world_after env c w)) cid) = false →
   c = CloseChannel cid ∨ ∃ fs sig, c = SettleChannel cid fs sig)
  ∧ (c_isOpen (channel_at (store w) cid) = false →
     c_isOpen (channel_at (store (world_after env c w)) cid) = true →
     ∃ ps, c = OpenChannel cid ps
           ∧ hasRole (store w) CHANNEL_ROLE (msg_sender env) = true
           ∧ channel_at (store (world_after env c w)) cid
             = {| c_id := cid; c_participants := ps; c_nonce := 0%N;
                  c_isOpen := true; c_openedAt := block_timestamp env;
                  c_closedAt := 0%N |})
  ∧ (∀ ps, c = OpenChannel cid ps →
           hasRole (store w) CHANNEL_ROLE (msg_sender env) = true →
           (c_isOpen (channel_at (store w) cid) = false
            → receipt_of env c w = Success [Emit (ChannelOpened cid ps)]
              ∧ c_isOpen (channel_at (store (world_after env c w)) cid) = true)
           ∧ (c_isOpen (channel_at (store w) cid) = true
              → receipt_of env c w
                = Reverted (Revert "Channel already open") []
                ∧ world_after env c w = w)).
Proof.
  intros Hreach. pose proof (reachable_inv w Hreach) as [_ _ He].
  split_and!.
  - intros Hopen Hclosed.
    destruct (world_after_cases env c w He) as [[Hsame _]|[Hstep _]].
    { rewrite Hsame in Hclosed. congruence. }
    rewrite (commits_channel _ _ _ _ cid Hstep) in Hclosed.
    destruct c as [cid0 fs sig| | |cid0 ps|cid0|]; try congruence.
    + destruct (decide (cid0 = cid)) as [->|]; [eauto|congruence].
    + destruct (decide (cid0 = cid)) as [->|]; [done|congruence].
    + destruct (decide (cid0 = cid)) as [->|]; [eauto|congruence].
  - intros Hclosed Hopen.
    destruct (world_after_cases env c w He) as [[Hsame _]|[Hstep _]].
    { rewrite Hsame in Hopen. congruence. }
    pose proof (commits_channel _ _ _ _ cid Hstep) as Hch.
    rewrite Hch in Hopen.
    destruct c as [cid0 fs sig| | |cid0 ps|cid0|]; try congruence.
    + destruct (decide (cid0 = cid)) as [->|]; [done|congruence].
    + destruct (decide (cid0 = cid)) as [->|]; [|congruence].
      exists ps. split_and!; [done| |done]. by inversion Hstep.
    + destruct (decide (cid0 = cid)) as [->|]; [done|congruence].
  - intros ps -> Hrole. split.
    + intros Hclosed. unfold receipt_of, world_after, transact. simpl.
      rewrite run_openChannel by done. simpl. split; [done|].
      unfold opened. by rewrite channel_at_set_channel_eq.
    + intros Hopen. unfold receipt_of, world_after, transact. simpl.
      unfold openChannel, onlyRole. rewrite run_bind. mrun.
      rewrite Hrole. mrun. rewrite Hopen. simpl negb. by mrun.
Qed.

End Channels.

(** The amended C3 at the re-opening of channel 7 after its explicit close. *)
Lemma channel_open_flag_changes_witness :
  reachable Local.w_closed
  ∧ c_isOpen (channel_at (store Local.w_closed) 7%N) = false
  ∧ c_isOpen (channel_at (store Local.w_reopened) 7%N) = true
  ∧ ∃ ps, OpenChannel 7%N [Local.deployer; 2%N] = OpenChannel 7%N ps
          ∧ hasRole (store Local.w_closed) CHANNEL_ROLE Local.deployer = true
          ∧ channel_at (store Local.w_reopened) 7%N
            = {| c_id := 7%N; c_participants := ps; c_nonce := 0%N;
                 c_isOpen := true; c_openedAt := 30%N; c_closedAt := 0%N |}.
Proof.
  assert (reachable Local.w_closed) as Hreach.
  { unfold Local.w_closed, Local.w_open.
    repeat apply reach_call. apply reach_deploy. }
  split; [exact Hreach|]. split; [by vm_compute|]. split; [by vm_compute|].
  apply (proj1 (proj2 (channel_open_flag_changes (Local.at_ Local.deployer 30)
                         (OpenChannel 7%N [Local.deployer; 2%N])
                         Local.w_closed 7%N Hreach))).
  - by vm_compute.
  - by vm_compute.
Defined.

(** ** Settlement (C4, C5) *)

(** C4, as stated, fails: channel 7 is open and the signed list holds the
    sound entry G1 followed by X1, whose expiry date has passed.  The whole
    call reverts: G1 is not registered and the channel stays open. *)
Lemma failing_item_reverts_the_settlement :
  let env := Local.at_ Local.deployer 20 in
  let call := SettleChannel 7%N (Local.payload 2) (Local.signed_by Local.deployer) in
  @abi_decode Local.chain (Local.payload 2) = Some [Local.batch_G1; Local.batch_X1]
  ∧ registrable env Local.batch_G1
  ∧ receipt_of env call Local.w_open
    = Reverted (Revert "Expiry date must be in future")
        [Emit (BatchRegistered "G1" Local.deployer 7%N 20%N 1%N);
         Emit (BatchSettled "G1" 7%N)]
  ∧ world_after env call Local.w_open = Local.w_open
  ∧ exists_ (batch_at (store (world_after env call Local.w_open)) "G1") = false
  ∧ c_isOpen (channel_at (store (world_after env call Local.w_open)) 7%N) = true.
Proof.
  cbv zeta.
  assert (receipt_of (Local.at_ Local.deployer 20)
            (SettleChannel 7%N (Local.payload 2) (Local.signed_by Local.deployer))
            Local.w_open
          = Reverted (Revert "Expiry date must be in future")
              [Emit (BatchRegistered "G1" Local.deployer 7%N 20%N 1%N);
               Emit (BatchSettled "G1" 7%N)]) as Hrec by (by vm_compute).
  rewrite (world_after_reverted _ _ _ _ _ Hrec). split_and!.
  - by vm_compute.
  - apply (bool_decide_unpack _). by vm_compute.
  - exact Hrec.
  - done.
  - by vm_compute.
  - by vm_compute.
Qed.

Section Settlement.
Context `{Collaborators}.

(** C4, amended.  A registration failure of one entry fails the whole
    settlement: when the decoded list holds an entry whose id is new (not in
    the registry, not earlier in the list) and whose data violates a
    registration precondition, [settleChannel] reverts, so that no entry of
    the list is registered and the channel stays as it was. *)
Theorem settlement_item_failure_reverts_all env cid fs sig w pre d post :
  abi_decode fs = Some (pre ++ d :: post) →
  (∀ x, x ∈ pre → d_batchId x ≠ d_batchId d) →
  exists_ (batch_at (store w) (d_batchId d)) = false →
  ¬ registrable env d →
  world_after env (SettleChannel cid fs sig) w = w
  ∧ ∃ e tr, receipt_of env (SettleChannel cid fs sig) w = Reverted e tr.
Proof.
  intros Hdec Hpre Hex Hbad.
  assert (∃ e tr, dispatch env (SettleChannel cid fs sig) w [] = Failed e tr)
    as (e & tr & Hrun).
  { simpl. unfold settleChannel.
    destruct (entered (store w)) eqn:He.
    { rewrite run_nonReentrant_entered by done. eauto. }
    rewrite run_nonReentrant by done. mrun. simpl.
    destruct (c_isOpen _); mrun; [|eauto].
    rewrite Hdec. destruct (recover _ sig) as [signer|]; [|eauto].
    destruct (isChannelParticipant _ cid signer); mrun; [|eauto].
    destruct (hasRole _ MANUFACTURER_ROLE signer); mrun; [|eauto].
    rewrite run_bind.
    destruct (run_settle_batches_fails env cid pre d post
                {| store := set_entered true (store w); token := token w |} [])
      as (e & tr & ->); eauto. }
  unfold world_after, receipt_of, transact. rewrite Hrun. simpl. eauto.
Qed.

End Settlement.

(** The amended C4 at the list [G1; X1] of the local deployment. *)
Lemma settlement_item_failure_reverts_all_witness :
  let env := Local.at_ Local.deployer 20 in
  let call := SettleChannel 7%N (Local.payload 2) (Local.signed_by Local.deployer) in
  @abi_decode Local.chain (Local.payload 2) = Some ([Local.batch_G1] ++ Local.batch_X1 :: [])
  ∧ (∀ x, x ∈ [Local.batch_G1] → d_batchId x ≠ "X1")
  ∧ exists_ (batch_at (store Local.w_open) "X1") = false
  ∧ ¬ registrable env Local.batch_X1
  ∧ world_after env call Local.w_open = Local.w_open
  ∧ ∃ e tr, receipt_of env call Local.w_open = Reverted e tr.
Proof.
  cbv zeta.
  assert (∀ x, x ∈ [Local.batch_G1] → d_batchId x ≠ "X1") as Hpre.
  { intros x ->%list_elem_of_singleton. by vm_compute. }
  assert (¬ registrable (Local.at_ Local.deployer 20) Local.batch_X1) as Hbad.
  { intros [Hexp _]. by vm_compute in Hexp. }
  split; [by vm_compute|]. split; [exact Hpre|]. split; [by vm_compute|].
  split; [exact Hbad|].
  apply (settlement_item_failure_reverts_all (Local.at_ Local.deployer 20) 7%N
           (Local.payload 2) (Local.signed_by Local.deployer) Local.w_open
           [Local.batch_G1] Local.batch_X1 []).
  - by vm_compute.
  - exact Hpre.
  - by vm_compute.
  - exact Hbad.
Defined.

(** C5, as stated, fails: the signature is that of an authorised
    manufacturer, channel 7 is open and the id X2 is not in the registry,
    but the entry lists one participant twice.  The call reverts and X2 is
    not registered. *)
Lemma new_entry_not_registered :
  let env := Local.at_ Local.deployer 20 in
  let call := SettleChannel 7%N (Local.payload 3) (Local.signed_by Local.deployer) in
  c_isOpen (channel_at (store Local.w_open) 7%N) = true
  ∧ @abi_decode Local.chain (Local.payload 3) = Some [Local.batch_X2]
  ∧ @recover Local.chain
      (@toEthSignedMessageHash Local.chain (@keccak256 Local.chain (Local.payload 3)))
      (Local.signed_by Local.deployer) = Some Local.deployer
  ∧ isChannelParticipant (store Local.w_open) 7%N Local.deployer = true
  ∧ hasRole (store Local.w_open) MANUFACTURER_ROLE Local.deployer = true
  ∧ exists_ (batch_at (store Local.w_open) "X2") = false
  ∧ receipt_of env call Local.w_open
    = Reverted (Revert "Duplicate participant") []
  ∧ exists_ (batch_at (store (world_after env call Local.w_open)) "X2") = false.
Proof. cbv zeta. split_and!; by vm_compute. Qed.

Section SettlementEffect.
Context `{Collaborators}.

(** C5, amended.  For an open channel and a list signed by a channel
    participant who is a manufacturer, in which every entry with a new id
    satisfies the registration preconditions, [settleChannel] succeeds and
    registers exactly the entries whose id is not yet present, an id that
    occurs twice in the list counting as present from its first entry on:
    records that existed are left as they were, every other id of the list
    receives the record of its first entry, no other id is created, and the
    channel is closed.  A settlement against a channel that is not open is
    rejected with "Channel not open" and changes nothing. *)
Theorem settlement_registers_new_entries env cid fs sig w :
  reachable w →
  (c_isOpen (channel_at (store w) cid) = true →
   ∀ l signer,
     abi_decode fs = Some l →
     recover (toEthSignedMessageHash (keccak256 fs)) sig = Some signer →
     isChannelParticipant (store w) cid signer = true →
     hasRole (store w) MANUFACTURER_ROLE signer = true →
     (∀ id d, first_entry id l = Some d →
              exists_ (batch_at (store w) id) = false → registrable env d) →
     (∃ tr, receipt_of env (SettleChannel cid fs sig) w = Success tr)
     ∧ (∀ id, exists_ (batch_at (store w) id) = true →
              batch_at (store (world_after env (SettleChannel cid fs sig) w)) id
              = batch_at (store w) id
              ∧ ∀ a, participant_at
                       (store (world_after env (SettleChannel cid fs sig) w)) id a
                     = participant_at (store w) id a)
     ∧ (∀ id d, exists_ (batch_at (store w) id) = false →
                first_entry id l = Some d →
                batch_at (store (world_after env (SettleChannel cid fs sig) w)) id
                = registered_batch env cid d)
     ∧ (∀ id, exists_ (batch_at (store w) id) = false →
              first_entry id l = None →
              batch_at (store (world_after env (SettleChannel cid fs sig) w)) id
              = zero_batch)
     ∧ c_isOpen (channel_at
                   (store (world_after env (SettleChannel cid fs sig) w)) cid)
       = false)
  ∧ (c_isOpen (channel_at (store w) cid) = false →
     receipt_of env (SettleChannel cid fs sig) w
     = Reverted (Revert "Channel not open") []
     ∧ world_after env (SettleChannel cid fs sig) w = w).
Proof.
  intros Hreach. pose proof (reachable_inv w Hreach) as Hinv.
  pose proof Hinv as [Hb Hc He]. split.
  - intros Hopen l signer Hdec Hrec Hpart Hrole Hreg.
    destruct (run_settleChannel env cid fs sig l signer w [])
      as [tr Hrun]; auto.
    unfold world_after, receipt_of, transact. simpl. rewrite Hrun. simpl.
    assert (absent_zero (set_entered true (store w))) as Hz.
    { intros id Hid. by apply (inv_absent _ _ (Hb id)). }
    split_and!.
    + eauto.
    + intros id Hid.
      by apply (batches_settled_present env cid l (set_entered true (store w))).
    + intros id d Hid Hd.
      apply (batches_settled_new env cid l (set_entered true (store w)));
        auto.
      by destruct (Hreg id d Hd Hid) as (_ & ? & _).
    + intros id Hid Hnone.
      destruct (batches_settled_absent env cid l (set_entered true (store w)) id)
        as [Heq _]; auto.
      change (batch_at (channel_settled env cid l (store w)) id)
        with (batch_at (batches_settled env cid l (set_entered true (store w))) id).
      rewrite Heq. by apply (inv_absent _ _ (Hb id)).
    + rewrite channel_at_channel_settled.
      by destruct (decide (cid = cid)).
  - intros Hclosed. unfold world_after, receipt_of, transact. simpl.
    by rewrite run_settleChannel_not_open.
Qed.

End SettlementEffect.

(** The amended C5 in the local deployment: channel 7, opened again after
    its first settlement, settles the list [B1; B3], of which B1 is present
    and B3 is new; and the first settlement is submitted again while the
    channel is closed. *)
Lemma settlement_registers_new_entries_witness :
  let env := Local.at_ Local.deployer 30 in
  let call4 := SettleChannel 7%N (Local.payload 4) (Local.signed_by Local.deployer) in
  let call0 := SettleChannel 7%N (Local.payload 0) (Local.signed_by Local.deployer) in
  reachable Local.w_resettled
  ∧ c_isOpen (channel_at (store Local.w_resettled) 7%N) = true
  ∧ @abi_decode Local.chain (Local.payload 4) = Some [Local.batch_B1; Local.batch_B3]
  ∧ exists_ (batch_at (store Local.w_resettled) "B1") = true
  ∧ exists_ (batch_at (store Local.w_resettled) "B3") = false
  ∧ batch_at (store (world_after env call4 Local.w_resettled)) "B1"
    = batch_at (store Local.w_resettled) "B1"
  ∧ batch_at (store (world_after env call4 Local.w_resettled)) "B3"
    = registered_batch env 7%N Local.batch_B3
  ∧ reachable Local.w_settled
  ∧ c_isOpen (channel_at (store Local.w_settled) 7%N) = false
  ∧ receipt_of env call0 Local.w_settled
    = Reverted (Revert "Channel not open") []
  ∧ world_after env call0 Local.w_settled = Local.w_settled.
Proof.
  cbv zeta.
  assert (reachable Local.w_settled) as Hs.
  { unfold Local.w_settled, Local.w_open.
    repeat apply reach_call. apply reach_deploy. }
  assert (reachable Local.w_resettled) as Hr.
  { unfold Local.w_resettled. apply reach_call. exact Hs. }
  destruct (proj1 (settlement_registers_new_entries (Local.at_ Local.deployer 30)
                     7%N (Local.payload 4) (Local.signed_by Local.deployer)
                     Local.w_resettled Hr))
    with (l := [Local.batch_B1; Local.batch_B3]) (signer := Local.deployer)
    as (_ & Hold & Hnew & _ & _).
  { by vm_compute. }
  { by vm_compute. }
  { by vm_compute. }
  { by vm_compute. }
  { by vm_compute. }
  { intros id d Hd Hid. simpl in Hd.
    case_bool_decide as H1; [subst id; by vm_compute in Hid|].
    case_bool_decide as H3; [|done]. injection Hd as <-.
    apply (bool_decide_unpack _). by vm_compute. }
  destruct (proj2 (settlement_registers_new_entries (Local.at_ Local.deployer 30)
                     7%N (Local.payload 0) (Local.signed_by Local.deployer)
                     Local.w_settled Hs))
    as [Hrej Hsame].
  { by vm_compute. }
  split_and!.
  - exact Hr.
  - by vm_compute.
  - by vm_compute.
  - by vm_compute.
  - by vm_compute.
  - apply Hold. by vm_compute.
  - apply Hnew; by vm_compute.
  - exact Hs.
  - by vm_compute.
  - exact Hrej.
  - exact Hsame.
Defined.

Section DirectRegistration.
Context `{Collaborators}.

(** C6.  The code offers no direct registration: the function is internal,
    a message that names it is reverted, and no external call other than
    [settleChannel] creates a batch. *)
Theorem batches_created_only_by_settlement env c w :
  reachable w →
  (∀ cid fs sig, c ≠ SettleChannel cid fs sig) →
  (∀ id, exists_ (batch_at (store (world_after env c w)) id)
         = exists_ (batch_at (store w) id))
  ∧ (∀ id drug ingr expiry ps rs cid,
       c = RegisterBatchWithSupplyChain id drug ingr expiry ps rs cid →
       receipt_of env c w
       = Reverted (LibraryError "function selector not found") []
       ∧ world_after env c w = w).
Proof.
  intros Hreach Hc. pose proof (reachable_inv w Hreach) as [_ _ He]. split.
  - intros id.
    destruct (world_after_cases env c w He) as [[-> _]|[Hstep _]]; [done|].
    rewrite (commits_batch _ _ _ _ id Hstep).
    destruct c as [cid fs sig|id0 loc data sig|id0| | |]; try done.
    + by destruct (Hc cid fs sig).
    + destruct (caller_entry _ _) as [[j p]|]; [|done].
      by destruct (decide (id0 = id)) as [->|].
    + by destruct (decide (id0 = id)) as [->|].
  - by intros id drug ingr expiry ps rs cid ->.
Qed.

End DirectRegistration.

(** C6 at a direct registration attempted by the deployer, who holds the
    manufacturer role, right after deployment. *)
Lemma batches_created_only_by_settlement_witness :
  let env := Local.at_ Local.deployer 10 in
  let call := RegisterBatchWithSupplyChain "B1" "Paracetamol" "Acetaminophen"
                100%N [11%N; 12%N] [TRANSPORTER; SUPPLIER] 0%N in
  reachable Local.w_deployed
  ∧ hasRole (store Local.w_deployed) MANUFACTURER_ROLE Local.deployer = true
  ∧ (∀ cid fs sig, call ≠ SettleChannel cid fs sig)
  ∧ exists_ (batch_at (store (world_after env call Local.w_deployed)) "B1")
    = false
  ∧ receipt_of env call Local.w_deployed
    = Reverted (LibraryError "function selector not found") [].
Proof.
  cbv zeta.
  assert (reachable Local.w_deployed) as Hreach by apply reach_deploy.
  split; [exact Hreach|]. split; [by vm_compute|]. split; [done|].
  destruct (batches_created_only_by_settlement (Local.at_ Local.deployer 10)
              (RegisterBatchWithSupplyChain "B1" "Paracetamol" "Acetaminophen"
                 100%N [11%N; 12%N] [TRANSPORTER; SUPPLIER] 0%N)
              Local.w_deployed Hreach) as [Hex Hrev]; [done|].
  split.
  - by rewrite Hex.
  - by destruct (Hrev _ _ _ _ _ _ _ eq_refl).
Defined.

(** ** Verification (C7, C8) *)

Section Verification.
Context `{Collaborators}.

(** The receipt of a verification call on an existing batch, guard by
    guard in the order of the code. *)
Lemma receipt_of_verification env id loc data sig w :
  batch_inv (store w) id →
  exists_ (batch_at (store w) id) = true →
  receipt_of env (VerifySupplyChainTransfer id loc data sig) w
  = if bool_decide (msg_sender env ∈ isParticipant (batch_at (store w) id))
    then
      if rewardClaimed (batch_at (store w) id)
      then Reverted (Revert "Batch already completed") []
      else
        match recover
                (toEthSignedMessageHash
                   (keccak256 (encodePacked id (msg_sender env) loc data)))
                sig with
        | None => Reverted (LibraryError "ECDSAInvalidSignature") []
        | Some signer =>
            if bool_decide (signer = msg_sender env) then
              if hasVerified (participant_at (store w) id (msg_sender env))
              then Reverted (Revert "Already verified") []
              else if bool_decide (verifiedCount (batch_at (store w) id)
                                   = MAX_UINT256)
              then Reverted (Panic 17) []
              else Success
                     [Emit (SupplyChainVerification id (msg_sender env)
                              (role (participant_at (store w) id
                                       (msg_sender env)))
                              (block_timestamp env) loc)]
            else Reverted (Revert "Invalid signature") []
        end
    else Reverted (Revert "Not authorized participant") [].
Proof.
  intros Hinv Hex. unfold receipt_of, transact. simpl.
  destruct (decide (msg_sender env ∈ isParticipant (batch_at (store w) id)))
    as [Hin|Hout].
  2:{ rewrite run_verify_unlisted by done. by rewrite bool_decide_false. }
  rewrite (bool_decide_true _ Hin).
  destruct (rewardClaimed (batch_at (store w) id)) eqn:Hcl.
  { by rewrite run_verify_completed. }
  destruct (listed_entry _ _ _ Hinv Hin) as (j & p & Hfind & Hp).
  unfold verifySupplyChainTransfer. mrun. rewrite Hex. mrun.
  rewrite bool_decide_true by done. mrun. rewrite Hcl. simpl negb. mrun.
  destruct (recover _ sig) as [signer|]; [|done].
  guard (signer = msg_sender env) as Hsig; [|done].
  rewrite run_verify_loop, Hfind, Hp.
  destruct (hasVerified p); [done|].
  by destruct (bool_decide _).
Qed.

(** C7.  A verification call on an existing batch fails with "Not
    authorized participant" when the caller is not a listed participant of
    the batch; with "Already verified" when the call carries the caller's
    signature and that participant's [hasVerified] is already true; and with
    "Batch already completed" when the reward of the batch has been claimed.
    The last two conditions meet exactly on a claimed batch, where every
    listed participant has verified: there the answer is "Batch already
    completed".  The receipt of every call is fixed guard by guard, in the
    order listed, claimed, signature, verified.  In each failure case
    nothing is emitted and the world, so every batch, is unchanged. *)
Theorem verification_guards env id loc data sig w :
  reachable w →
  exists_ (batch_at (store w) id) = true →
  let call := VerifySupplyChainTransfer id loc data sig in
  let listed := msg_sender env ∈ isParticipant (batch_at (store w) id) in
  let authorized :=
    recover (toEthSignedMessageHash
               (keccak256 (encodePacked id (msg_sender env) loc data))) sig
    = Some (msg_sender env) in
  let entry := participant_at (store w) id (msg_sender env) in
  (¬ listed →
   receipt_of env call w = Reverted (Revert "Not authorized participant") [])
  ∧ (authorized → hasVerified entry = true →
     receipt_of env call w
     = Reverted
         (Revert (if rewardClaimed (batch_at (store w) id)
                  then "Batch already completed" else "Already verified")) [])
  ∧ (listed → rewardClaimed (batch_at (store w) id) = true →
     receipt_of env call w = Reverted (Revert "Batch already completed") []
     ∧ hasVerified entry = true)
  ∧ receipt_of env call w
    = (if bool_decide listed then
         if rewardClaimed (batch_at (store w) id)
         then Reverted (Revert "Batch already completed") []
         else
           match recover
                   (toEthSignedMessageHash
                      (keccak256 (encodePacked id (msg_sender env) loc data)))
                   sig with
           | None => Reverted (LibraryError "ECDSAInvalidSignature") []
           | Some signer =>
               if bool_decide (signer = msg_sender env) then
                 if hasVerified entry
                 then Reverted (Revert "Already verified") []
                 else if bool_decide (verifiedCount (batch_at (store w) id)
                                      = MAX_UINT256)
                 then Reverted (Panic 17) []
                 else Success
                        [Emit (SupplyChainVerification id (msg_sender env)
                                 (role entry) (block_timestamp env) loc)]
               else Reverted (Revert "Invalid signature") []
           end
       else Reverted (Revert "Not authorized participant") [])
  ∧ (∀ e tr, receipt_of env call w = Reverted e tr →
             tr = [] ∧ world_after env call w = w).
Proof.
  intros Hreach Hex. cbv zeta.
  pose proof (reachable_inv w Hreach) as [Hb _ _]. pose proof (Hb id) as Hi.
  pose proof (receipt_of_verification env id loc data sig w Hi Hex) as Htable.
  assert (rewardClaimed (batch_at (store w) id) = true →
          ∀ a, a ∈ isParticipant (batch_at (store w) id) →
               hasVerified (participant_at (store w) id a) = true) as Hall.
  { intros Hcl a Hin.
    pose proof (inv_claimed _ _ Hi Hcl) as Hcount.
    rewrite (inv_count _ _ Hi), (inv_length _ _ Hi), Nat2N.inj_iff,
      count_verified_all in Hcount.
    destruct (listed_entry _ _ _ Hi Hin) as (j & p & Hfind & ->).
    apply list_find_Some in Hfind as (Hp%list_elem_of_lookup_2 & _).
    by apply Hcount. }
  split_and!.
  - intros Hout. by rewrite Htable, bool_decide_false.
  - intros Hsig Hv. pose proof (verified_is_listed _ _ _ Hi Hv) as Hin.
    rewrite Htable, (bool_decide_true _ Hin).
    destruct (rewardClaimed (batch_at (store w) id)); [done|].
    by rewrite Hsig, bool_decide_true, Hv.
  - intros Hin Hcl. split; [|by apply Hall].
    by rewrite Htable, (bool_decide_true _ Hin), Hcl.
  - exact Htable.
  - intros e tr Hrec. split; [|by eapply world_after_reverted].
    rewrite Htable in Hrec.
    repeat match type of Hrec with
           | context [if ?b then _ else _] => destruct b
           | context [match ?o with Some _ => _ | None => _ end] => destruct o
           end; congruence.
Qed.

End Verification.

(** C7 in the local deployment.  A stranger on B1; participant 11 after the
    claim; participant 11, who has verified, before the claim, once with
    its own signature and once with the signature of 12. *)
Lemma verification_guards_witness :
  let call := λ signer,
    VerifySupplyChainTransfer "B1" "Mumbai" "again" (Local.signed_by signer) in
  reachable Local.w_claimed
  ∧ exists_ (batch_at (store Local.w_claimed) "B1") = true
  ∧ (99%N ∉ isParticipant (batch_at (store Local.w_claimed) "B1"))
  ∧ receipt_of (Local.at_ 99 210) (call 99%N) Local.w_claimed
    = Reverted (Revert "Not authorized participant") []
  ∧ 11%N ∈ isParticipant (batch_at (store Local.w_claimed) "B1")
  ∧ rewardClaimed (batch_at (store Local.w_claimed) "B1") = true
  ∧ receipt_of (Local.at_ 11 210) (call 11%N) Local.w_claimed
    = Reverted (Revert "Batch already completed") []
  ∧ reachable Local.w_verified1
  ∧ exists_ (batch_at (store Local.w_verified1) "B1") = true
  ∧ rewardClaimed (batch_at (store Local.w_verified1) "B1") = false
  ∧ hasVerified (participant_at (store Local.w_verified1) "B1" 11%N) = true
  ∧ receipt_of (Local.at_ 11 35) (call 11%N) Local.w_verified1
    = Reverted (Revert "Already verified") []
  ∧ receipt_of (Local.at_ 11 35) (call 12%N) Local.w_verified1
    = Reverted (Revert "Invalid signature") []
  ∧ world_after (Local.at_ 11 35) (call 11%N) Local.w_verified1
    = Local.w_verified1.
Proof.
  cbv zeta.
  assert (reachable Local.w_verified1) as Hr1.
  { unfold Local.w_verified1, Local.w_settled, Local.w_open.
    repeat apply reach_call. apply reach_deploy. }
  assert (reachable Local.w_claimed) as Hr2.
  { unfold Local.w_claimed, Local.w_verified, Local.w_verified1,
      Local.w_settled, Local.w_open.
    repeat apply reach_call. apply reach_deploy. }
  assert (99%N ∉ isParticipant (batch_at (store Local.w_claimed) "B1")) as Hout.
  { apply (bool_decide_unpack _). by vm_compute. }
  assert (11%N ∈ isParticipant (batch_at (store Local.w_claimed) "B1")) as Hin2.
  { apply (bool_decide_unpack _). by vm_compute. }
  assert (exists_ (batch_at (store Local.w_claimed) "B1") = true) as Hex2
    by by vm_compute.
  assert (exists_ (batch_at (store Local.w_verified1) "B1") = true) as Hex1
    by by vm_compute.
  assert (rewardClaimed (batch_at (store Local.w_claimed) "B1") = true) as Hcl2
    by by vm_compute.
  assert (rewardClaimed (batch_at (store Local.w_verified1) "B1") = false)
    as Hcl1 by by vm_compute.
  assert (hasVerified (participant_at (store Local.w_verified1) "B1" 11%N)
          = true) as Hv1 by by vm_compute.
  destruct (verification_guards (Local.at_ 99 210) "B1" "Mumbai" "again"
              (Local.signed_by 99%N) Local.w_claimed Hr2 Hex2)
    as (Ha & _).
  destruct (verification_guards (Local.at_ 11 210) "B1" "Mumbai" "again"
              (Local.signed_by 11%N) Local.w_claimed Hr2 Hex2)
    as (_ & _ & Hb & _).
  destruct (verification_guards (Local.at_ 11 35) "B1" "Mumbai" "again"
              (Local.signed_by 11%N) Local.w_verified1 Hr1 Hex1)
    as (_ & Hc & _ & _ & Hd).
  destruct (verification_guards (Local.at_ 11 35) "B1" "Mumbai" "again"
              (Local.signed_by 12%N) Local.w_verified1 Hr1 Hex1)
    as (_ & _ & _ & He & _).
  assert (receipt_of (Local.at_ 11 35)
            (VerifySupplyChainTransfer "B1" "Mumbai" "again"
               (Local.signed_by 11%N)) Local.w_verified1
          = Reverted (Revert "Already verified") []) as Hrec.
  { rewrite (Hc ltac:(by vm_compute) Hv1). by rewrite Hcl1. }
  split_and!.
  - exact Hr2.
  - exact Hex2.
  - exact Hout.
  - exact (Ha Hout).
  - exact Hin2.
  - exact Hcl2.
  - exact (proj1 (Hb Hin2 Hcl2)).
  - exact Hr1.
  - exact Hex1.
  - exact Hcl1.
  - exact Hv1.
  - exact Hrec.
  - rewrite He. by vm_compute.
  - exact (proj2 (Hd _ _ Hrec)).
Defined.

Section VerifiedCount.
Context `{Collaborators}.

(** C8.  In every reachable world and for every batch id: [verifiedCount]
    is at most [totalParticipants], which never changes once the batch
    exists; it equals the number of entries of the participant array marked
    as verified, the entries having pairwise distinct addresses; no
    transaction decreases it; a transaction either leaves it and every
    participant's [hasVerified] as they were, or is a verification of this
    batch whose caller goes from unverified to verified while the count
    grows by exactly one and no other participant changes; and a
    verification attempt by a participant who has already verified changes
    nothing. *)
Theorem verifiedCount_monotone_bounded env c w id :
  reachable w →
  (verifiedCount (batch_at (store w) id)
   ≤ totalParticipants (batch_at (store w) id))%N
  ∧ (verifiedCount (batch_at (store w) id)
     ≤ verifiedCount (batch_at (store (world_after env c w)) id))%N
  ∧ (exists_ (batch_at (store w) id) = true →
     totalParticipants (batch_at (store (world_after env c w)) id)
     = totalParticipants (batch_at (store w) id))
  ∧ verifiedCount (batch_at (store w) id)
    = N.of_nat (count_verified (supplyChainParticipants (batch_at (store w) id)))
  ∧ NoDup (participantAddress <$> supplyChainParticipants (batch_at (store w) id))
  ∧ ((verifiedCount (batch_at (store (world_after env c w)) id)
      = verifiedCount (batch_at (store w) id)
      ∧ ∀ a, hasVerified (participant_at (store (world_after env c w)) id a)
             = hasVerified (participant_at (store w) id a))
     ∨ (∃ loc data sig,
          c = VerifySupplyChainTransfer id loc data sig
          ∧ verifiedCount (batch_at (store (world_after env c w)) id)
            = (verifiedCount (batch_at (store w) id) + 1)%N
          ∧ hasVerified (participant_at (store w) id (msg_sender env)) = false
          ∧ hasVerified
              (participant_at (store (world_after env c w)) id (msg_sender env))
            = true
          ∧ ∀ a, a ≠ msg_sender env →
                 participant_at (store (world_after env c w)) id a
                 = participant_at (store w) id a))
  ∧ (∀ loc data sig,
       c = VerifySupplyChainTransfer id loc data sig →
       hasVerified (participant_at (store w) id (msg_sender env)) = true →
       world_after env c w = w).
Proof.
  intros Hreach. pose proof (reachable_inv w Hreach) as Hinv.
  pose proof Hinv as [Hb _ He].
  assert ((verifiedCount (batch_at (store (world_after env c w)) id)
           = verifiedCount (batch_at (store w) id)
           ∧ ∀ a, hasVerified (participant_at (store (world_after env c w)) id a)
                  = hasVerified (participant_at (store w) id a))
          ∨ (∃ loc data sig,
               c = VerifySupplyChainTransfer id loc data sig
               ∧ verifiedCount (batch_at (store (world_after env c w)) id)
                 = (verifiedCount (batch_at (store w) id) + 1)%N
               ∧ hasVerified (participant_at (store w) id (msg_sender env)) = false
               ∧ hasVerified
                   (participant_at (store (world_after env c w)) id (msg_sender env))
                 = true
               ∧ ∀ a, a ≠ msg_sender env →
                      participant_at (store (world_after env c w)) id a
                      = participant_at (store w) id a)) as Hstep.
  { destruct (world_after_cases env c w He) as [[-> _]|[Hstep _]]; [by left|].
    by apply commits_verification_step. }
  split_and!.
  - rewrite (inv_count _ _ (Hb id)), (inv_length _ _ (Hb id)).
    pose proof (count_verified_le (supplyChainParticipants (batch_at (store w) id))).
    lia.
  - destruct Hstep as [[-> _]|(? & ? & ? & _ & -> & _)]; lia.
  - intros Hex.
    destruct (world_after_cases env c w He) as [[-> _]|[Hc _]]; [done|].
    by destruct (commits_total_fixed _ _ _ _ id Hc Hex).
  - apply (inv_count _ _ (Hb id)).
  - apply (inv_nodup _ _ (Hb id)).
  - exact Hstep.
  - intros loc data sig -> Hv.
    unfold world_after, transact. simpl.
    pose proof (verified_is_listed _ _ _ (Hb id) Hv) as Hin.
    destruct (exists_ (batch_at (store w) id)) eqn:Hex.
    2:{ by rewrite run_verify_not_found. }
    destruct (rewardClaimed (batch_at (store w) id)) eqn:Hcl.
    { by rewrite run_verify_completed. }
    by destruct (run_verify_already env id loc data sig w [] (Hb id) Hex Hcl Hv)
      as (e & -> & _).
Qed.

End VerifiedCount.

(** C8 in the local deployment: the second participant of B1 verifies, which
    takes the count from one to two, and then tries again. *)
Lemma verifiedCount_monotone_bounded_witness :
  let env := Local.at_ 12 40 in
  let call := VerifySupplyChainTransfer "B1" "Delhi" "sealed" (Local.signed_by 12%N) in
  reachable Local.w_verified1
  ∧ verifiedCount (batch_at (store Local.w_verified1) "B1") = 1%N
  ∧ totalParticipants (batch_at (store Local.w_verified1) "B1") = 2%N
  ∧ verifiedCount (batch_at (store Local.w_verified) "B1") = 2%N
  ∧ (verifiedCount (batch_at (store Local.w_verified1) "B1")
     ≤ verifiedCount (batch_at (store (world_after env call Local.w_verified1)) "B1"))%N
  ∧ reachable Local.w_verified
  ∧ hasVerified (participant_at (store Local.w_verified) "B1" 12%N) = true
  ∧ world_after (Local.at_ 12 45) call Local.w_verified = Local.w_verified.
Proof.
  cbv zeta.
  assert (reachable Local.w_verified1) as Hr1.
  { unfold Local.w_verified1, Local.w_settled, Local.w_open.
    repeat apply reach_call. apply reach_deploy. }
  assert (reachable Local.w_verified) as Hr2.
  { unfold Local.w_verified. apply reach_call. exact Hr1. }
  split_and!.
  - exact Hr1.
  - by vm_compute.
  - by vm_compute.
  - by vm_compute.
  - apply (verifiedCount_monotone_bounded (Local.at_ 12 40)
             (VerifySupplyChainTransfer "B1" "Delhi" "sealed" (Local.signed_by 12%N))
             Local.w_verified1 "B1" Hr1).
  - exact Hr2.
  - by vm_compute.
  - apply (verifiedCount_monotone_bounded (Local.at_ 12 45)
             (VerifySupplyChainTransfer "B1" "Delhi" "sealed" (Local.signed_by 12%N))
             Local.w_verified "B1" Hr2) with "Delhi" "sealed" (Local.signed_by 12%N).
    + reflexivity.
    + by vm_compute.
Defined.

(** ** Order of effects in a claim (C9) *)

Section ClaimOrder.
Context `{Collaborators}.

(** C9.  Whenever [claimCustomerReward] reaches the token's [mint], the
    storage the registry has at that moment is the storage the call began
    with after exactly one change: the batch is marked as claimed, by the
    caller, at the current time (the reentrancy flag being set).  A
    successful claim calls [mint] exactly once, for the caller and the fixed
    reward, on a batch that was unclaimed when the call began, and emits its
    event after it; it commits the storage the token was called with, the
    reentrancy flag released, and the token state that this [mint] returned.
    A reverted claim called [mint] at most once, under the same condition,
    was refused by it, and leaves the world as it was. *)
Theorem claim_marks_before_mint env id w :
  let marked :=
    set_batch id (mark_claimed env (batch_at (store w) id))
      (set_entered true (store w)) in
  let after := world_after env (ClaimCustomerReward id) w in
  (∀ tr, receipt_of env (ClaimCustomerReward id) w = Success tr →
         rewardClaimed (batch_at (store w) id) = false
         ∧ ∃ at_call,
             tr = [CallMint at_call (msg_sender env) CUSTOMER_REWARD;
                   Emit (CustomerRewardClaimed id (msg_sender env)
                           CUSTOMER_REWARD (block_timestamp env))]
             ∧ rewardClaimed (batch_at at_call id) = true
             ∧ rewardClaimedBy (batch_at at_call id) = msg_sender env
             ∧ rewardClaimedAt (batch_at at_call id) = block_timestamp env
             ∧ at_call = marked
             ∧ store after = set_entered false at_call
             ∧ mint (token w) (msg_sender env) CUSTOMER_REWARD
               = inr (token after)
             ∧ rewardClaimed (batch_at (store after) id) = true
             ∧ rewardClaimedBy (batch_at (store after) id) = msg_sender env
             ∧ rewardClaimedAt (batch_at (store after) id)
               = block_timestamp env)
  ∧ (∀ e tr, receipt_of env (ClaimCustomerReward id) w = Reverted e tr →
             after = w
             ∧ (tr = []
                ∨ ∃ at_call,
                    tr = [CallMint at_call (msg_sender env) CUSTOMER_REWARD]
                    ∧ rewardClaimed (batch_at at_call id) = true
                    ∧ rewardClaimedBy (batch_at at_call id) = msg_sender env
                    ∧ rewardClaimedAt (batch_at at_call id)
                      = block_timestamp env
                    ∧ at_call = marked
                    ∧ rewardClaimed (batch_at (store w) id) = false
                    ∧ mint (token w) (msg_sender env) CUSTOMER_REWARD
                      = inl e)).
Proof.
  cbv zeta. unfold world_after, receipt_of, transact. simpl.
  unfold claimCustomerReward.
  destruct (entered (store w)) eqn:He.
  { rewrite run_nonReentrant_entered by done. simpl. split; [done|].
    intros e tr [= <- <-]. split; [done|by left]. }
  rewrite run_nonReentrant by done. mrun. simpl.
  rewrite batch_at_set_entered.
  destruct (exists_ (batch_at (store w) id)); mrun; simpl.
  2:{ split; [done|]. intros e tr [= <- <-]. split; [done|by left]. }
  destruct (rewardClaimed (batch_at (store w) id)) eqn:Hcl; simpl negb; mrun;
    simpl.
  { split; [done|]. intros e tr [= <- <-]. split; [done|by left]. }
  destruct (bool_decide (verifiedCount _ = _)); mrun; simpl.
  2:{ split; [done|]. intros e tr [= <- <-]. split; [done|by left]. }
  destruct (bool_decide (_ ∉ _)); mrun; simpl.
  2:{ split; [done|]. intros e tr [= <- <-]. split; [done|by left]. }
  rewrite run_bind. unfold call_mint. simpl.
  destruct (mint (token w) (msg_sender env) CUSTOMER_REWARD) as [e|t'] eqn:Hmint;
    mrun; simpl.
  - split; [done|]. intros e' tr [= <- <-]. split; [done|]. right.
    eexists. split; [done|].
    by rewrite batch_at_set_batch_eq.
  - split; [|done]. intros tr [= <-]. split; [done|]. eexists.
    split; [done|].
    rewrite ?batch_at_set_entered, ?batch_at_set_batch_eq.
    split_and!; reflexivity.
Qed.

End ClaimOrder.

(** C9 at the claim of the local deployment. *)
Lemma claim_marks_before_mint_witness :
  let env := Local.at_ Local.customer 200 in
  let after := world_after env (ClaimCustomerReward "B1") Local.w_verified in
  ∃ at_call,
    receipt_of env (ClaimCustomerReward "B1") Local.w_verified
    = Success [CallMint at_call Local.customer CUSTOMER_REWARD;
               Emit (CustomerRewardClaimed "B1" Local.customer
                       CUSTOMER_REWARD 200%N)]
    ∧ rewardClaimed (batch_at (store Local.w_verified) "B1") = false
    ∧ rewardClaimed (batch_at at_call "B1") = true
    ∧ rewardClaimedBy (batch_at at_call "B1") = Local.customer
    ∧ rewardClaimedAt (batch_at at_call "B1") = 200%N
    ∧ store after = set_entered false at_call
    ∧ rewardClaimed (batch_at (store after) "B1") = true.
Proof.
  cbv zeta.
  destruct (receipt_of (Local.at_ Local.customer 200) (ClaimCustomerReward "B1")
              Local.w_verified) as [tr|e tr] eqn:Hrec; [|by vm_compute in Hrec].
  destruct (proj1 (claim_marks_before_mint (Local.at_ Local.customer 200) "B1"
                     Local.w_verified) tr Hrec)
    as (Hcl & at_call & -> & H1 & H2 & H3 & _ & H5 & _ & H7 & _).
  exists at_call. split_and!; [reflexivity|exact Hcl|exact H1|exact H2
                              |exact H3|exact H5|exact H7].
Defined.

(** ** Participant details (C10) *)

(** C10, as stated, fails.  On batch B1 of the local deployment neither
    the stranger 99 nor the listed participant 11 has ever verified, and the
    query fails for neither; yet the stranger is answered with role NONE and
    the participant with its role TRANSPORTER, so the two answers can be
    told apart. *)
Lemma unverified_participant_is_distinguishable :
  exists_ (batch_at (store Local.w_settled) "B1") = true
  ∧ (99%N ∉ isParticipant (batch_at (store Local.w_settled) "B1"))
  ∧ 11%N ∈ isParticipant (batch_at (store Local.w_settled) "B1")
  ∧ hasVerified (participant_at (store Local.w_settled) "B1" 11%N) = false
  ∧ verifiedAt (participant_at (store Local.w_settled) "B1" 11%N) = 0%N
  ∧ getParticipantDetails (store Local.w_settled) "B1" 99%N
    = inr (NONE, false, 0%N, "", "")
  ∧ getParticipantDetails (store Local.w_settled) "B1" 11%N
    = inr (TRANSPORTER, false, 0%N, "", "")
  ∧ getParticipantDetails (store Local.w_settled) "B1" 11%N
    ≠ getParticipantDetails (store Local.w_settled) "B1" 99%N.
Proof.
  split_and!; by vm_compute.
Qed.

Section ParticipantDetails.
Context `{Collaborators}.

(** C10, amended.  On an existing batch [getParticipantDetails] does not
    fail, and answers for an identity that is not a participant with the
    default record (role NONE, not verified, zero timestamp, empty location
    and data).  A listed participant that has never verified is answered
    with the same record except that it carries the role the participant was
    registered with, so the two answers are the same exactly when that role
    is NONE.  The query fails exactly when the batch does not exist. *)
Theorem getParticipantDetails_unlisted id a w :
  reachable w →
  (exists_ (batch_at (store w) id) = true →
   a ∉ isParticipant (batch_at (store w) id) →
   getParticipantDetails (store w) id a = inr (NONE, false, 0%N, "", ""))
  ∧ (∀ a', exists_ (batch_at (store w) id) = true →
           a' ∈ isParticipant (batch_at (store w) id) →
           hasVerified (participant_at (store w) id a') = false →
           getParticipantDetails (store w) id a'
           = inr (role (participant_at (store w) id a'), false, 0%N, "", ""))
  ∧ (∀ a', exists_ (batch_at (store w) id) = true →
           a ∉ isParticipant (batch_at (store w) id) →
           a' ∈ isParticipant (batch_at (store w) id) →
           hasVerified (participant_at (store w) id a') = false →
           getParticipantDetails (store w) id a'
           = getParticipantDetails (store w) id a
           ↔ role (participant_at (store w) id a') = NONE)
  ∧ ((∃ e, getParticipantDetails (store w) id a = inl e)
     ↔ exists_ (batch_at (store w) id) = false).
Proof.
  intros Hreach. pose proof (reachable_inv w Hreach) as [Hb _ _].
  assert (∀ a', exists_ (batch_at (store w) id) = true →
                a' ∈ isParticipant (batch_at (store w) id) →
                hasVerified (participant_at (store w) id a') = false →
                getParticipantDetails (store w) id a'
                = inr (role (participant_at (store w) id a'), false, 0%N, "", ""))
    as Hlisted.
  { intros a' Hex Hin Hv. unfold getParticipantDetails. rewrite Hex.
    destruct (listed_entry _ _ _ (Hb id) Hin) as (j & p & Hfind & Hp).
    apply list_find_Some in Hfind as (Hin'%list_elem_of_lookup_2 & _).
    rewrite Hp in *. by rewrite (inv_fresh _ _ (Hb id) p Hin' Hv). }
  assert (exists_ (batch_at (store w) id) = true →
          a ∉ isParticipant (batch_at (store w) id) →
          getParticipantDetails (store w) id a = inr (NONE, false, 0%N, "", ""))
    as Hunlisted.
  { intros Hex Hout. unfold getParticipantDetails.
    by rewrite Hex, (inv_unlisted _ _ (Hb id) a Hout). }
  split_and!; [done..| |].
  - intros a' Hex Hout Hin Hv.
    rewrite (Hlisted a' Hex Hin Hv), (Hunlisted Hex Hout). split.
    + by intros [= ->].
    + by intros ->.
  - unfold getParticipantDetails.
    destruct (exists_ (batch_at (store w) id)); split; try done; eauto.
    by intros [e ?].
Qed.

End ParticipantDetails.

(** The amended C10 in the local deployment.  On B1 the stranger 99 gets the
    default record and participant 11, listed as TRANSPORTER, a different
    one; on B2, whose only participant 13 is listed with role NONE and has
    not verified, the answers for 13 and for 99 are the same; on the
    unknown id B9 the query fails. *)
Lemma getParticipantDetails_unlisted_witness :
  reachable Local.w_settled
  ∧ exists_ (batch_at (store Local.w_settled) "B2") = true
  ∧ (99%N ∉ isParticipant (batch_at (store Local.w_settled) "B2"))
  ∧ 13%N ∈ isParticipant (batch_at (store Local.w_settled) "B2")
  ∧ getParticipantDetails (store Local.w_settled) "B2" 99%N
    = inr (NONE, false, 0%N, "", "")
  ∧ getParticipantDetails (store Local.w_settled) "B2" 13%N
    = getParticipantDetails (store Local.w_settled) "B2" 99%N
  ∧ exists_ (batch_at (store Local.w_settled) "B1") = true
  ∧ (99%N ∉ isParticipant (batch_at (store Local.w_settled) "B1"))
  ∧ 11%N ∈ isParticipant (batch_at (store Local.w_settled) "B1")
  ∧ hasVerified (participant_at (store Local.w_settled) "B1" 11%N) = false
  ∧ getParticipantDetails (store Local.w_settled) "B1" 11%N
    ≠ getParticipantDetails (store Local.w_settled) "B1" 99%N
  ∧ exists_ (batch_at (store Local.w_settled) "B9") = false
  ∧ ∃ e, getParticipantDetails (store Local.w_settled) "B9" 99%N = inl e.
Proof.
  assert (reachable Local.w_settled) as Hr.
  { unfold Local.w_settled, Local.w_open.
    repeat apply reach_call. apply reach_deploy. }
  assert (99%N ∉ isParticipant (batch_at (store Local.w_settled) "B2")) as Hout.
  { apply (bool_decide_unpack _). by vm_compute. }
  assert (13%N ∈ isParticipant (batch_at (store Local.w_settled) "B2")) as Hin.
  { apply (bool_decide_unpack _). by vm_compute. }
  assert (99%N ∉ isParticipant (batch_at (store Local.w_settled) "B1")) as Hout1.
  { apply (bool_decide_unpack _). by vm_compute. }
  assert (11%N ∈ isParticipant (batch_at (store Local.w_settled) "B1")) as Hin1.
  { apply (bool_decide_unpack _). by vm_compute. }
  assert (exists_ (batch_at (store Local.w_settled) "B2") = true) as Hex
    by by vm_compute.
  assert (exists_ (batch_at (store Local.w_settled) "B1") = true) as Hex1
    by by vm_compute.
  assert (hasVerified (participant_at (store Local.w_settled) "B2" 13%N)
          = false) as Hv by by vm_compute.
  assert (hasVerified (participant_at (store Local.w_settled) "B1" 11%N)
          = false) as Hv1 by by vm_compute.
  destruct (getParticipantDetails_unlisted "B2" 99%N Local.w_settled Hr)
    as (H1 & _ & H3 & _).
  destruct (getParticipantDetails_unlisted "B1" 99%N Local.w_settled Hr)
    as (_ & _ & H3' & _).
  destruct (getParticipantDetails_unlisted "B9" 99%N Local.w_settled Hr)
    as (_ & _ & _ & H4).
  split_and!.
  - exact Hr.
  - exact Hex.
  - exact Hout.
  - exact Hin.
  - exact (H1 Hex Hout).
  - apply (H3 13%N Hex Hout Hin Hv). by vm_compute.
  - exact Hex1.
  - exact Hout1.
  - exact Hin1.
  - exact Hv1.
  - intros Heq. apply (H3' 11%N Hex1 Hout1 Hin1 Hv1) in Heq.
    by vm_compute in Heq.
  - by vm_compute.
  - apply H4. by vm_compute.
Defined.

(** * Further properties of the registry *)

Section Facts.
Context `{Collaborators}.

Lemma participants_list_at_set_batch s id b id' :
  participants_list_at (set_batch id b s) id' = participants_list_at s id'.
Proof. reflexivity. Qed.

Lemma participants_list_at_set_participant s id a p id' :
  participants_list_at (set_participant id a p s) id'
  = participants_list_at s id'.
Proof. reflexivity. Qed.

Lemma participants_list_at_set_participantsList s id l id' :
  participants_list_at (set_participantsList id l s) id'
  = if decide (id = id') then l else participants_list_at s id'.
Proof.
  unfold participants_list_at, set_participantsList; simpl.
  rewrite lookup_insert. by destruct (decide (id = id')).
Qed.

Lemma participants_list_at_participants_added id ps rs s id' :
  participants_list_at (participants_added id ps rs s) id'
  = participants_list_at s id'.
Proof.
  unfold participants_list_at.
  by destruct (participants_added_frame id ps rs s) as (_ & _ & _ & ->).
Qed.

Lemma participants_list_at_batch_registered env cid d s id :
  participants_list_at (batch_registered env cid d s) id
  = if decide (d_batchId d = id) then d_supplyChainAddresses d
    else participants_list_at s id.
Proof.
  unfold batch_registered.
  rewrite participants_list_at_participants_added.
  by rewrite participants_list_at_set_participantsList.
Qed.

Lemma batch_facts_ext s s' id :
  batch_at s' id = batch_at s id →
  participants_list_at s' id = participants_list_at s id →
  batch_facts s id → batch_facts s' id.
Proof.
  intros Hb Hl [F1 F2 F3 F4 F5 F6 F7].
  constructor; rewrite ?Hb, ?Hl; done.
Qed.

Lemma registered_batch_facts env cid d s :
  batch_at s (d_batchId d) = zero_batch →
  registrable env d →
  batch_facts (batch_registered env cid d s) (d_batchId d).
Proof.
  intros Hz (Hexp & Hlen & Hpos & Hnz & Hnd).
  pose proof (batch_registered_batch env cid d s Hz Hlen) as Hb.
  constructor; rewrite ?Hb; simpl; try done.
  - intros _ Hnil. apply (f_equal length) in Hnil.
    rewrite length_zip_with_l_eq in Hnil by done. simpl in Hnil. lia.
  - rewrite elem_of_list_to_set. intros Hin.
    rewrite Forall_forall in Hnz. by apply (Hnz _ Hin).
  - rewrite participants_list_at_batch_registered.
    destruct (decide _); [|done]. by rewrite fmap_address_registered.
Qed.

Lemma batch_registered_facts env cid d s :
  (∀ id, batch_inv s id) →
  (∀ id, batch_facts s id) →
  exists_ (batch_at s (d_batchId d)) = false →
  registrable env d →
  ∀ id, batch_facts (batch_registered env cid d s) id.
Proof.
  intros Hinv Hf Hex Hreg id. destruct (decide (id = d_batchId d)) as [->|Hne].
  - apply registered_batch_facts; [|done]. by apply (inv_absent _ _ (Hinv _)).
  - destruct (batch_registered_other env cid d s id Hne) as [Hb _].
    apply (batch_facts_ext s); [done| |done].
    rewrite participants_list_at_batch_registered.
    destruct (decide _); [congruence|done].
Qed.

Lemma batches_settled_facts env cid l s :
  (∀ id, batch_inv s id) →
  (∀ id, batch_facts s id) →
  (∀ id d, first_entry id l = Some d →
           exists_ (batch_at s id) = false → registrable env d) →
  ∀ id, batch_facts (batches_settled env cid l s) id.
Proof.
  revert s. induction l as [|d l IH]; intros s Hinv Hf Hreg; simpl; [done|].
  destruct (exists_ (batch_at s (d_batchId d))) eqn:Hex.
  - apply IH; [done..|]. intros id d' Hd' Hid. apply (Hreg id); [|done].
    rewrite first_entry_cons_ne; [done|]. congruence.
  - assert (registrable env d) as Hd.
    { apply (Hreg (d_batchId d)); [apply first_entry_cons_eq|done]. }
    apply IH.
    + by apply batch_registered_inv.
    + by apply batch_registered_facts.
    + intros id d' Hd' Hid. destruct (decide (d_batchId d = id)) as [<-|Hne].
      { by rewrite batch_registered_exists in Hid. }
      apply (Hreg id).
      * by rewrite first_entry_cons_ne.
      * destruct (batch_registered_other env cid d s id) as [<- _];
          [by apply not_eq_sym|done].
Qed.

Lemma commits_batch_facts env w c w' :
  store_inv (store w) →
  (∀ id, batch_facts (store w) id) →
  commits env w c w' →
  ∀ id, batch_facts (store w') id.
Proof.
  intros [Hb Hc He] Hf Hstep.
  destruct Hstep as [cid fs sig l signer Hopen _ _ _ _ Hreg _
                    |id0 loc data sig j p Hex Hin Hcl _ Hfind Hv _
                    |id0 loc data sig
                    |id0 t' Hex Hcl Hall Hout _
                    |cid ps _ Hopen
                    |cid _ Hopen]; simpl; intros id.
  - apply (batch_facts_ext
             (batches_settled env cid l (set_entered true (store w))));
      [done..|].
    apply batches_settled_facts; [| |done].
    + intros id'. by apply (batch_inv_ext (store w)).
    + intros id'. by apply (batch_facts_ext (store w)).
  - apply caller_entry_Some in Hfind as [Hj Hp].
    destruct (decide (id = id0)) as [->|Hne].
    + destruct (Hf id0) as [F1 F2 F3 F4 F5 F6 F7].
      constructor; rewrite verified_batch; simpl; try done.
      * intros _ Hnil. apply (f_equal length) in Hnil.
        rewrite length_insert in Hnil. apply F3; [done|].
        by apply nil_length_inv.
      * rewrite list_fmap_insert, list_insert_id; [done|].
        by rewrite list_lookup_fmap, Hj.
    + destruct (verified_other env id0 loc data j p (store w) id Hne) as [Hb' _].
      by apply (batch_facts_ext (store w)).
  - done.
  - destruct (decide (id = id0)) as [->|Hne].
    + destruct (Hf id0) as [F1 F2 F3 F4 F5 F6 F7].
      constructor; rewrite claimed_batch; destruct (decide (id0 = id0));
        try done; simpl; done.
    + apply (batch_facts_ext (store w)); [|done|done].
      rewrite claimed_batch. by destruct (decide (id0 = id)).
  - by apply (batch_facts_ext (store w)).
  - by apply (batch_facts_ext (store w)).
Qed.

Lemma commits_channel_facts env w c w' :
  (∀ cid, channel_facts (store w) cid) →
  commits env w c w' →
  ∀ cid, channel_facts (store w') cid.
Proof.
  intros Hf Hstep cid. pose proof (commits_channel _ _ _ _ cid Hstep) as Hch.
  destruct (Hf cid) as [F1 F2 F3 F4].
  destruct c as [cid0 fs sig| | |cid0 ps|cid0|]; try by constructor; rewrite Hch.
  - destruct (decide (cid0 = cid)) as [->|]; [|by constructor; rewrite Hch].
    assert (c_isOpen (channel_at (store w) cid) = true) as Hopen
      by (by inversion Hstep).
    destruct (F2 Hopen) as [Hn _]. destruct (F4) as [Hz|Hid].
    { by rewrite Hz in Hopen. }
    constructor; rewrite Hch; simpl; rewrite ?Hn; try done. by right.
  - destruct (decide (cid0 = cid)) as [->|]; [|by constructor; rewrite Hch].
    constructor; rewrite Hch; simpl; try done. by right.
  - destruct (decide (cid0 = cid)) as [->|]; [|by constructor; rewrite Hch].
    assert (c_isOpen (channel_at (store w) cid) = true) as Hopen
      by (by inversion Hstep).
    destruct (F2 Hopen) as [Hn _]. destruct (F4) as [Hz|Hid].
    { by rewrite Hz in Hopen. }
    constructor; rewrite Hch; simpl; rewrite ?Hn; try done. by right.
Qed.

Lemma reachable_facts w :
  reachable w →
  (∀ id, batch_facts (store w) id) ∧ (∀ cid, channel_facts (store w) cid).
Proof.
  induction 1 as [deployer t|env c w Hreach IH|r w _ IH|t w _ IH]; simpl.
  - split.
    + intros id. by constructor.
    + intros cid. constructor; try done. by left.
  - pose proof (reachable_inv w Hreach) as Hinv.
    destruct (world_after_cases env c w (inv_entered _ Hinv))
      as [[-> _]|[Hstep _]]; [done|].
    destruct IH as [Hf Hc]. split.
    + by eapply commits_batch_facts.
    + by eapply commits_channel_facts.
  - destruct IH as [Hf Hc]. split.
    + intros id. by apply (batch_facts_ext (store w)).
    + intros cid. destruct (Hc cid). by constructor.
  - done.
Qed.

End Facts.

Section Lifecycle.
Context `{Collaborators}.

Lemma exists_of_claimed s id :
  batch_inv s id → rewardClaimed (batch_at s id) = true →
  exists_ (batch_at s id) = true.
Proof.
  intros Hinv Hcl. destruct (exists_ (batch_at s id)) eqn:Hex; [done|].
  by rewrite (inv_absent _ _ Hinv Hex) in Hcl.
Qed.

Lemma registration_of_record_verification j p now loc data b :
  supplyChainParticipants b !! j = Some p →
  registration_of (record_verification j (mark_verified now loc data p) b)
  = registration_of b.
Proof.
  intros Hj. unfold registration_of; simpl.
  rewrite list_fmap_insert, list_insert_id; [done|].
  by rewrite list_lookup_fmap, Hj.
Qed.

Lemma registration_preserved env c w id :
  reachable w →
  exists_ (batch_at (store w) id) = true →
  exists_ (batch_at (store (world_after env c w)) id) = true
  ∧ registration_of (batch_at (store (world_after env c w)) id)
    = registration_of (batch_at (store w) id).
Proof.
  intros Hreach Hex. pose proof (reachable_inv w Hreach) as [_ _ He].
  destruct (world_after_cases env c w He) as [[-> _]|[Hstep _]]; [done|].
  destruct Hstep as [cid fs sig l signer _ _ _ _ _ _ _
                    |id0 loc data sig j p _ _ _ _ Hfind _ _
                    |id0 loc data sig
                    |id0 t' _ _ _ _ _
                    |cid ps _ _
                    |cid _ _]; simpl; try done.
  - destruct (batches_settled_present env cid l (set_entered true (store w)) id Hex)
      as [Heq _].
    by rewrite batch_at_channel_settled, Heq.
  - apply caller_entry_Some in Hfind as [Hj _].
    destruct (decide (id = id0)) as [->|Hne].
    + rewrite verified_batch. split; [done|].
      by apply registration_of_record_verification.
    + by destruct (verified_other env id0 loc data j p (store w) id Hne) as [-> _].
  - rewrite claimed_batch. by destruct (decide (id0 = id)) as [->|].
Qed.

(** X1.  What a registration wrote is permanent: no external call removes
    an existing batch or changes its manufacturer, id, drug name,
    ingredients, expiry date, registration time, channel, participant count,
    participant set, or the address and role of any participant.  So
    [getBatch] keeps answering, and with the same manufacturer, drug name,
    ingredients, expiry date and registration time. *)
Theorem registration_is_permanent env c w id :
  reachable w →
  exists_ (batch_at (store w) id) = true →
  exists_ (batch_at (store (world_after env c w)) id) = true
  ∧ registration_of (batch_at (store (world_after env c w)) id)
    = registration_of (batch_at (store w) id)
  ∧ match getBatch (store w) id,
          getBatch (store (world_after env c w)) id with
    | inr (m, d, i, e, r, _), inr (m', d', i', e', r', _) =>
        (m, d, i, e, r) = (m', d', i', e', r')
    | _, _ => False
    end.
Proof.
  intros Hreach Hex.
  destruct (registration_preserved env c w id Hreach Hex) as [Hex' Hreg].
  split_and!; [done|done|].
  unfold getBatch. rewrite Hex, Hex'.
  unfold registration_of in Hreg. injection Hreg. intros. congruence.
Qed.

(** X2.  A claimed batch is final: once [rewardClaimed] is set, no external
    call changes the batch record or any of its participant records, and a
    further claim is refused with "Reward already claimed". *)
Theorem claimed_batch_is_final env c w id :
  reachable w →
  rewardClaimed (batch_at (store w) id) = true →
  batch_at (store (world_after env c w)) id = batch_at (store w) id
  ∧ (∀ a, participant_at (store (world_after env c w)) id a
          = participant_at (store w) id a)
  ∧ receipt_of env (ClaimCustomerReward id) w
    = Reverted (Revert "Reward already claimed") [].
Proof.
  intros Hreach Hcl. pose proof (reachable_inv w Hreach) as [Hb _ He].
  pose proof (exists_of_claimed _ _ (Hb id) Hcl) as Hex.
  split_and!.
  - destruct (world_after_cases env c w He) as [[-> _]|[Hstep _]]; [done|].
    destruct Hstep as [cid fs sig l signer _ _ _ _ _ _ _
                      |id0 loc data sig j p _ _ Hcl0 _ _ _ _
                      |id0 loc data sig
                      |id0 t' _ Hcl0 _ _ _
                      |cid ps _ _
                      |cid _ _]; simpl; try done.
    + rewrite batch_at_channel_settled.
      by destruct (batches_settled_present env cid l
                     (set_entered true (store w)) id Hex) as [-> _].
    + destruct (decide (id = id0)) as [->|Hne]; [congruence|].
      by destruct (verified_other env id0 loc data j p (store w) id Hne) as [-> _].
    + rewrite claimed_batch.
      destruct (decide (id0 = id)) as [->|]; [congruence|done].
  - intros a.
    destruct (world_after_cases env c w He) as [[-> _]|[Hstep _]]; [done|].
    destruct Hstep as [cid fs sig l signer _ _ _ _ _ _ _
                      |id0 loc data sig j p _ _ Hcl0 _ _ _ _
                      |id0 loc data sig
                      |id0 t' _ Hcl0 _ _ _
                      |cid ps _ _
                      |cid _ _]; simpl; try done.
    + rewrite participant_at_channel_settled.
      by destruct (batches_settled_present env cid l
                     (set_entered true (store w)) id Hex) as [_ ->].
    + destruct (decide (id = id0)) as [->|Hne]; [congruence|].
      by destruct (verified_other env id0 loc data j p (store w) id Hne) as [_ ->].
  - unfold receipt_of, transact. simpl. unfold claimCustomerReward.
    rewrite run_nonReentrant by done. mrun. simpl.
    rewrite batch_at_set_entered, Hex, Hcl. simpl negb. by mrun.
Qed.

(** X3.  [isBatchReadyForCustomer] answers true exactly for an existing,
    unclaimed batch all of whose listed participants have verified. *)
Theorem ready_iff_all_verified id w :
  reachable w →
  isBatchReadyForCustomer (store w) id = true
  ↔ (exists_ (batch_at (store w) id) = true
     ∧ rewardClaimed (batch_at (store w) id) = false
     ∧ ∀ a, a ∈ isParticipant (batch_at (store w) id) →
            hasVerified (participant_at (store w) id a) = true).
Proof.
  intros Hreach. pose proof (reachable_inv w Hreach) as [Hb _ _].
  pose proof (Hb id) as Hi.
  unfold isBatchReadyForCustomer.
  rewrite !andb_true_iff, negb_true_iff, bool_decide_eq_true.
  rewrite (inv_count _ _ Hi), (inv_length _ _ Hi), Nat2N.inj_iff.
  rewrite count_verified_all. split.
  - intros [[Hex Hcl] Hall]. split_and!; [done..|]. intros a Hin.
    destruct (listed_entry _ _ _ Hi Hin) as (j & p & Hfind & ->).
    apply list_find_Some in Hfind as (Hp%list_elem_of_lookup_2 & _).
    by apply Hall.
  - intros (Hex & Hcl & Hall). split_and!; [done..|]. intros p Hp.
    rewrite <- (inv_mirror _ _ Hi p Hp). apply Hall.
    apply (inv_listed _ _ Hi). by apply list_elem_of_fmap_2.
Qed.

(** X4.  The views predict the claim.  A claim succeeds exactly when
    [isBatchReadyForCustomer] answers true, the caller is not a participant
    and the token accepts the mint.  While it answers false the claim is
    refused, with "Batch not found" if the batch does not exist, "Reward
    already claimed" if the status view reports the reward as claimed, and
    "Supply chain verification incomplete" otherwise. *)
Theorem claim_follows_the_views env id w :
  reachable w →
  ((∃ tr, receipt_of env (ClaimCustomerReward id) w = Success tr)
   ↔ (isBatchReadyForCustomer (store w) id = true
      ∧ Views.isParticipant (store w) id (msg_sender env) = false
      ∧ ∃ t', mint (token w) (msg_sender env) CUSTOMER_REWARD = inr t'))
  ∧ (isBatchReadyForCustomer (store w) id = false →
     receipt_of env (ClaimCustomerReward id) w
     = Reverted
         (Revert
            match getBatchSupplyChainStatus (store w) id with
            | inl _ => "Batch not found"
            | inr (_, _, true, _) => "Reward already claimed"
            | inr (_, _, false, _) => "Supply chain verification incomplete"
            end) []).
Proof.
  intros Hreach. pose proof (reachable_inv w Hreach) as [_ _ He]. split.
  - rewrite (claimCustomerReward_success_iff env id w He).
    unfold isBatchReadyForCustomer, Views.isParticipant.
    rewrite !andb_true_iff, negb_true_iff, bool_decide_eq_true,
      bool_decide_eq_false.
    tauto.
  - unfold isBatchReadyForCustomer, getBatchSupplyChainStatus.
    unfold receipt_of, transact. simpl. unfold claimCustomerReward.
    rewrite run_nonReentrant by done. mrun. simpl.
    rewrite batch_at_set_entered.
    destruct (exists_ (batch_at (store w) id)); simpl; mrun; [|done].
    destruct (rewardClaimed (batch_at (store w) id)); simpl; mrun; [done|].
    intros Hnot. rewrite Hnot. by mrun.
Qed.

(** X5.  What the status view can report on an existing batch: the verified
    count never exceeds the participant count, which is positive; a claimed
    reward means that all participants verified and names a claimant who is
    not a participant; an unclaimed one names the zero address.  The view
    fails exactly on a batch that does not exist. *)
Theorem status_view_consistent id w :
  reachable w →
  match getBatchSupplyChainStatus (store w) id with
  | inr (total, verified, claimed_, claimant) =>
      exists_ (batch_at (store w) id) = true
      ∧ (verified ≤ total)%N ∧ (0 < total)%N
      ∧ (claimed_ = true →
         verified = total
         ∧ Views.isParticipant (store w) id claimant = false)
      ∧ (claimed_ = false → claimant = address_zero)
  | inl e =>
      e = Revert "Batch not found" ∧ exists_ (batch_at (store w) id) = false
  end.
Proof.
  intros Hreach. pose proof (reachable_inv w Hreach) as [Hb _ _].
  destruct (reachable_facts w Hreach) as [Hf _].
  pose proof (Hb id) as Hi. pose proof (Hf id) as Hfi.
  unfold getBatchSupplyChainStatus.
  destruct (exists_ (batch_at (store w) id)) eqn:Hex; [|done].
  split_and!.
  - done.
  - rewrite (inv_count _ _ Hi), (inv_length _ _ Hi).
    pose proof (count_verified_le (supplyChainParticipants (batch_at (store w) id))).
    lia.
  - rewrite (inv_length _ _ Hi).
    pose proof (fact_nonempty _ _ Hfi Hex) as Hne.
    destruct (supplyChainParticipants (batch_at (store w) id)); [done|].
    simpl. lia.
  - intros Hcl. split; [by apply (inv_claimed _ _ Hi)|].
    unfold Views.isParticipant. apply bool_decide_eq_false.
    by apply (fact_claimant _ _ Hfi).
  - intros Hcl. by apply (fact_unclaimed _ _ Hfi).
Qed.

(** X6.  On an existing batch [getBatchParticipants] returns the addresses
    of the participant array in registration order: a non-empty list without
    repetition and without the zero address, as long as the participant
    count, whose members are exactly the identities the [isParticipant] view
    accepts.  Every existing batch carries its key as id and was registered
    before its expiry date.  The query fails exactly on a batch that does
    not exist. *)
Theorem getBatchParticipants_lists_the_participants id w :
  reachable w →
  match getBatchParticipants (store w) id with
  | inr l =>
      exists_ (batch_at (store w) id) = true
      ∧ l = participantAddress <$> supplyChainParticipants (batch_at (store w) id)
      ∧ NoDup l ∧ l ≠ [] ∧ (address_zero ∉ l)
      ∧ N.of_nat (length l) = totalParticipants (batch_at (store w) id)
      ∧ (∀ a, a ∈ l ↔ Views.isParticipant (store w) id a = true)
      ∧ batchId (batch_at (store w) id) = id
      ∧ (registeredAt (batch_at (store w) id)
         < expiryDate (batch_at (store w) id))%N
  | inl e =>
      e = Revert "Batch not found" ∧ exists_ (batch_at (store w) id) = false
  end.
Proof.
  intros Hreach. pose proof (reachable_inv w Hreach) as [Hb _ _].
  destruct (reachable_facts w Hreach) as [Hf _].
  pose proof (Hb id) as Hi. pose proof (Hf id) as Hfi.
  unfold getBatchParticipants.
  destruct (exists_ (batch_at (store w) id)) eqn:Hex; [|done].
  rewrite (fact_list _ _ Hfi). split_and!.
  - done.
  - done.
  - apply (inv_nodup _ _ Hi).
  - intros Hnil%fmap_nil_inv. by apply (fact_nonempty _ _ Hfi Hex).
  - rewrite <- (inv_listed _ _ Hi). apply (fact_nonzero _ _ Hfi).
  - by rewrite length_fmap, (inv_length _ _ Hi).
  - intros a. unfold Views.isParticipant. rewrite bool_decide_eq_true.
    symmetry. apply (inv_listed _ _ Hi).
  - by apply (fact_id _ _ Hfi).
  - by apply (fact_dates _ _ Hfi).
Qed.

End Lifecycle.

Section Attestation.
Context `{Collaborators}.

(** X7.  A verification goes through whenever its guards hold: on an
    existing, unclaimed batch (whose participant count fits a word) a call
    of a listed participant who has not verified, signed by that
    participant, succeeds.  It emits one event carrying the participant's
    role, raises the verified count by one, and from then on
    [getParticipantDetails] reports the participant as verified at the
    current time with the given location and data, under the role fixed at
    registration. *)
Theorem verification_records_the_attestation env id loc data sig w :
  reachable w →
  exists_ (batch_at (store w) id) = true →
  msg_sender env ∈ isParticipant (batch_at (store w) id) →
  rewardClaimed (batch_at (store w) id) = false →
  hasVerified (participant_at (store w) id (msg_sender env)) = false →
  recover (toEthSignedMessageHash
             (keccak256 (encodePacked id (msg_sender env) loc data))) sig
  = Some (msg_sender env) →
  (totalParticipants (batch_at (store w) id) ≤ MAX_UINT256)%N →
  receipt_of env (VerifySupplyChainTransfer id loc data sig) w
  = Success [Emit (SupplyChainVerification id (msg_sender env)
                     (role (participant_at (store w) id (msg_sender env)))
                     (block_timestamp env) loc)]
  ∧ getParticipantDetails
      (store (world_after env (VerifySupplyChainTransfer id loc data sig) w))
      id (msg_sender env)
    = inr (role (participant_at (store w) id (msg_sender env)), true,
           block_timestamp env, loc, data)
  ∧ verifiedCount
      (batch_at
         (store (world_after env (VerifySupplyChainTransfer id loc data sig) w))
         id)
    = (verifiedCount (batch_at (store w) id) + 1)%N.
Proof.
  intros Hreach Hex Hin Hcl Hv Hrec Hfit.
  pose proof (reachable_inv w Hreach) as [Hb _ _]. pose proof (Hb id) as Hi.
  destruct (listed_entry _ _ _ Hi Hin) as (j & p & Hfind & Hp).
  pose proof Hfind as (Hj & Haddr & _)%list_find_Some.
  assert (verifiedCount (batch_at (store w) id) ≠ MAX_UINT256) as Hmax.
  { rewrite (inv_count _ _ Hi). rewrite (inv_length _ _ Hi) in Hfit.
    pose proof (count_verified_lt _ p (list_elem_of_lookup_2 _ _ _ Hj)) as Hlt.
    rewrite <- Hp in Hlt. specialize (Hlt Hv). lia. }
  assert (dispatch env (VerifySupplyChainTransfer id loc data sig) w []
          = Done () {| store := verified env id loc data j p (store w);
                       token := token w |}
              [Emit (SupplyChainVerification id (msg_sender env) (role p)
                       (block_timestamp env) loc)]) as Hrun.
  { simpl. unfold verifySupplyChainTransfer. mrun. rewrite Hex. mrun.
    rewrite bool_decide_true by done. mrun. rewrite Hcl. simpl negb. mrun.
    rewrite Hrec. rewrite bool_decide_true by done. mrun.
    rewrite run_verify_loop, Hfind. rewrite <- Hp, Hv.
    rewrite bool_decide_false by done. by rewrite Hp. }
  unfold receipt_of, world_after, transact. rewrite Hrun. simpl.
  rewrite Hp. split_and!.
  - done.
  - unfold getParticipantDetails. rewrite verified_batch. simpl. rewrite Hex.
    rewrite verified_participant. destruct (decide _); [|done].
    by rewrite Hp.
  - by rewrite verified_batch.
Qed.

End Attestation.

Section RegistrationErrors.
Context `{Collaborators}.




End RegistrationErrors.
Section SettlementAccess.
Context `{Collaborators}.

Lemma address_in_spec ps a : address_in ps a = true ↔ a ∈ ps.
Proof.
  induction ps as [|p ps IH]; simpl.
  - split; [done|]. by intros ?%elem_of_nil.
  - rewrite elem_of_cons. case_bool_decide as Hp.
    + split; [|done]. intros _. by left.
    + rewrite IH. split; [by right|]. intros [->|?]; done.
Qed.

(** X9.  A settlement is authorised by its signature alone, and before any
    registration: [isChannelParticipant] is membership in the participant
    list given when the channel was opened; on an open channel a payload
    that does not decode or a signature that does not recover reverts, a
    signer outside the participant list is refused with "Invalid signer",
    and a listed signer without the manufacturer role with "Signer not a
    manufacturer".  In each case nothing was emitted and nothing changes. *)
Theorem settlement_authorization env cid fs sig w :
  reachable w →
  c_isOpen (channel_at (store w) cid) = true →
  (∀ a, isChannelParticipant (store w) cid a = true
        ↔ a ∈ c_participants (channel_at (store w) cid))
  ∧ (abi_decode fs = None
     ∨ recover (toEthSignedMessageHash (keccak256 fs)) sig = None →
     ∃ e, receipt_of env (SettleChannel cid fs sig) w = Reverted e [])
  ∧ (∀ l signer,
       abi_decode fs = Some l →
       recover (toEthSignedMessageHash (keccak256 fs)) sig = Some signer →
       (signer ∉ c_participants (channel_at (store w) cid) →
        receipt_of env (SettleChannel cid fs sig) w
        = Reverted (Revert "Invalid signer") [])
       ∧ (signer ∈ c_participants (channel_at (store w) cid) →
          hasRole (store w) MANUFACTURER_ROLE signer = false →
          receipt_of env (SettleChannel cid fs sig) w
          = Reverted (Revert "Signer not a manufacturer") []))
  ∧ ((∃ e, receipt_of env (SettleChannel cid fs sig) w = Reverted e []) →
     world_after env (SettleChannel cid fs sig) w = w).
Proof.
  intros Hreach Hopen. pose proof (reachable_inv w Hreach) as [_ _ He].
  split_and!.
  - intros a. apply address_in_spec.
  - intros Hbad. unfold receipt_of, transact. simpl. unfold settleChannel.
    rewrite run_nonReentrant by done. mrun. simpl.
    rewrite channel_at_set_entered, Hopen. mrun.
    destruct (abi_decode fs) as [l|]; [|by eexists].
    destruct Hbad as [Hbad|Hbad]; [done|]. rewrite Hbad. by eexists.
  - intros l signer Hdec Hrec. split.
    + intros Hout. unfold receipt_of, transact. simpl. unfold settleChannel.
      rewrite run_nonReentrant by done. mrun. simpl.
      rewrite channel_at_set_entered, Hopen. mrun. rewrite Hdec, Hrec.
      change (isChannelParticipant (set_entered true (store w)) cid signer)
        with (isChannelParticipant (store w) cid signer).
      destruct (isChannelParticipant (store w) cid signer) eqn:Hp; mrun; [|done].
      by apply address_in_spec in Hp.
    + intros Hin Hrole. unfold receipt_of, transact. simpl. unfold settleChannel.
      rewrite run_nonReentrant by done. mrun. simpl.
      rewrite channel_at_set_entered, Hopen. mrun. rewrite Hdec, Hrec.
      change (isChannelParticipant (set_entered true (store w)) cid signer)
        with (isChannelParticipant (store w) cid signer).
      change (hasRole (set_entered true (store w)) MANUFACTURER_ROLE signer)
        with (hasRole (store w) MANUFACTURER_ROLE signer).
      apply address_in_spec in Hin. unfold isChannelParticipant.
      rewrite Hin, Hrole. by mrun.
  - intros [e Hrev]. by eapply world_after_reverted.
Qed.

Lemma registrable_same_time env env' d :
  block_timestamp env' = block_timestamp env →
  registrable env d → registrable env' d.
Proof. unfold registrable. by intros ->. Qed.

Lemma settle_success_iff env cid fs sig w :
  store_inv (store w) →
  (∃ tr, receipt_of env (SettleChannel cid fs sig) w = Success tr)
  ↔ ∃ l signer,
      c_isOpen (channel_at (store w) cid) = true
      ∧ abi_decode fs = Some l
      ∧ recover (toEthSignedMessageHash (keccak256 fs)) sig = Some signer
      ∧ isChannelParticipant (store w) cid signer = true
      ∧ hasRole (store w) MANUFACTURER_ROLE signer = true
      ∧ ∀ id d, first_entry id l = Some d →
                exists_ (batch_at (store w) id) = false → registrable env d.
Proof.
  intros Hinv. split.
  - intros [tr Hrec]. unfold receipt_of in Hrec.
    destruct (transact env (SettleChannel cid fs sig) w) as [w' r] eqn:Hrun.
    simpl in Hrec. subst r.
    apply transact_sound in Hrun; [|by destruct Hinv].
    inversion Hrun; subst. eauto 10.
  - intros (l & signer & Hopen & Hdec & Hrec & Hp & Hr & Hreg).
    destruct (run_settleChannel env cid fs sig l signer w []) as [tr Hrun];
      auto.
    unfold receipt_of, transact. simpl. rewrite Hrun. simpl. eauto.
Qed.

(** X10.  [settleChannel] does not look at its caller: whether a settlement
    succeeds depends on the channel, the payload, the signature and the
    time, not on who submits it.  The submitter, whatever roles it holds, is
    recorded as manufacturer of every batch the settlement creates, together
    with the channel and the time of the settlement. *)
Theorem settlement_open_to_any_caller env env' cid fs sig w :
  reachable w →
  block_timestamp env' = block_timestamp env →
  ((∃ tr, receipt_of env (SettleChannel cid fs sig) w = Success tr)
   ↔ (∃ tr, receipt_of env' (SettleChannel cid fs sig) w = Success tr))
  ∧ (∀ id,
       exists_ (batch_at (store w) id) = false →
       exists_ (batch_at (store (world_after env (SettleChannel cid fs sig) w)) id)
       = true →
       manufacturer
         (batch_at (store (world_after env (SettleChannel cid fs sig) w)) id)
       = msg_sender env
       ∧ channelId
           (batch_at (store (world_after env (SettleChannel cid fs sig) w)) id)
         = cid
       ∧ registeredAt
           (batch_at (store (world_after env (SettleChannel cid fs sig) w)) id)
         = block_timestamp env).
Proof.
  intros Hreach Htime. pose proof (reachable_inv w Hreach) as Hinv. split.
  - rewrite !settle_success_iff by done.
    split; intros (l & signer & ? & ? & ? & ? & ? & Hreg);
      exists l, signer; split_and!; try done; intros id d Hd Hid.
    + apply (registrable_same_time env env'); [done|]. by apply (Hreg id).
    + apply (registrable_same_time env' env); [done|]. by apply (Hreg id).
  - intros id Hex Hex'. pose proof Hinv as [Hb Hc He].
    destruct (world_after_cases env (SettleChannel cid fs sig) w He)
      as [[Hsame _]|[Hstep Hsucc]].
    { rewrite Hsame in Hex'. congruence. }
    apply (settle_success_iff env cid fs sig w Hinv) in Hsucc
      as (l & signer & _ & Hdec & _ & _ & _ & Hreg).
    revert Hex'. rewrite (commits_batch _ _ _ _ id Hstep), Hdec. simpl.
    destruct (first_entry id l) as [d|] eqn:Hd.
    + rewrite (batches_settled_new env cid l (set_entered true (store w)) id d);
        auto.
      * intros id' Hid'. by apply (inv_absent _ _ (Hb id')).
      * by destruct (Hreg id d Hd Hex) as (_ & ? & _).
    + destruct (batches_settled_absent env cid l (set_entered true (store w))
                  id Hex Hd) as [-> _].
      rewrite batch_at_set_entered. congruence.
Qed.

(** X11.  The nonce of a channel counts at most one settlement: it is never
    above one, it is zero (and the close time unset) while the channel is
    open, a successful settlement leaves it at one with the channel closed
    at the current time, and an explicit close leaves it at zero.  Neither
    way of closing touches the participant list or the opening time. *)
Theorem channel_nonce_counts_one_settlement env c w cid :
  reachable w →
  (c_nonce (channel_at (store w) cid) ≤ 1)%N
  ∧ (c_isOpen (channel_at (store w) cid) = true →
     c_nonce (channel_at (store w) cid) = 0%N
     ∧ c_closedAt (channel_at (store w) cid) = 0%N)
  ∧ ((∃ tr, receipt_of env c w = Success tr) →
     (∀ fs sig, c = SettleChannel cid fs sig →
        channel_at (store (world_after env c w)) cid
        = {| c_id := c_id (channel_at (store w) cid);
             c_participants := c_participants (channel_at (store w) cid);
             c_nonce := 1%N; c_isOpen := false;
             c_openedAt := c_openedAt (channel_at (store w) cid);
             c_closedAt := block_timestamp env |})
     ∧ (c = CloseChannel cid →
        channel_at (store (world_after env c w)) cid
        = {| c_id := c_id (channel_at (store w) cid);
             c_participants := c_participants (channel_at (store w) cid);
             c_nonce := 0%N; c_isOpen := false;
             c_openedAt := c_openedAt (channel_at (store w) cid);
             c_closedAt := block_timestamp env |})).
Proof.
  intros Hreach. pose proof (reachable_inv w Hreach) as [_ _ He].
  destruct (reachable_facts w Hreach) as [_ Hc].
  destruct (Hc cid) as [F1 F2 F3 F4]. split_and!; [done..|].
  intros [tr Hrec].
  destruct (world_after_cases env c w He) as [[_ (e & tr' & Hrev)]|[Hstep _]];
    [congruence|].
  pose proof (commits_channel _ _ _ _ cid Hstep) as Hch.
  assert (∀ c0, commits env w c0 (world_after env c w) →
                (c0 = CloseChannel cid ∨ ∃ fs sig, c0 = SettleChannel cid fs sig) →
                c_isOpen (channel_at (store w) cid) = true) as Hopen.
  { intros c0 Hs [->|(fs & sig & ->)]; by inversion Hs. }
  split.
  - intros fs sig ->. rewrite Hch. destruct (decide (cid = cid)); [|done].
    destruct F2 as [Hn _]; [apply (Hopen _ Hstep); eauto|].
    unfold bump_nonce, close_channel; simpl. by rewrite Hn.
  - intros ->. rewrite Hch. destruct (decide (cid = cid)); [|done].
    destruct F2 as [Hn _]; [apply (Hopen _ Hstep); eauto|].
    unfold close_channel; simpl. by rewrite Hn.
Qed.

(** X12.  A claim whose mint is refused by the token is undone as a whole:
    the call reverts with the token's error after the one attempted mint,
    and the batch is still unclaimed and ready, so the claim can be made
    again. *)
Theorem refused_mint_undoes_the_claim env id w e :
  reachable w →
  isBatchReadyForCustomer (store w) id = true →
  msg_sender env ∉ isParticipant (batch_at (store w) id) →
  mint (token w) (msg_sender env) CUSTOMER_REWARD = inl e →
  (∃ at_call,
     receipt_of env (ClaimCustomerReward id) w
     = Reverted e [CallMint at_call (msg_sender env) CUSTOMER_REWARD])
  ∧ world_after env (ClaimCustomerReward id) w = w
  ∧ isBatchReadyForCustomer
      (store (world_after env (ClaimCustomerReward id) w)) id = true.
Proof.
  intros Hreach Hready Hout Hmint.
  pose proof (reachable_inv w Hreach) as [_ _ He].
  assert (∃ at_call,
            receipt_of env (ClaimCustomerReward id) w
            = Reverted e [CallMint at_call (msg_sender env) CUSTOMER_REWARD])
    as [at_call Hrec].
  { pose proof Hready as Hr. unfold isBatchReadyForCustomer in Hr.
    rewrite !andb_true_iff, negb_true_iff, bool_decide_eq_true in Hr.
    destruct Hr as [[Hex Hcl] Hall].
    unfold receipt_of, transact. simpl. unfold claimCustomerReward.
    rewrite run_nonReentrant by done. mrun. simpl.
    rewrite batch_at_set_entered, Hex, Hcl. simpl negb. mrun.
    rewrite !bool_decide_true by done. mrun.
    rewrite run_bind. unfold call_mint. simpl. rewrite Hmint. eauto. }
  rewrite (world_after_reverted _ _ _ _ _ Hrec). eauto.
Qed.

End SettlementAccess.

(** * The reward token *)

Lemma balances_sum_insert (m : gmap address uint256) a v :
  (map_fold (λ _ v acc, (v + acc)%N) 0%N (<[a:=v]> m) + default 0%N (m !! a))%N
  = (map_fold (λ _ v acc, (v + acc)%N) 0%N m + v)%N.
Proof.
  assert (∀ (m' : gmap address uint256) (j1 j2 : address) (z1 z2 y : N),
            j1 ≠ j2 → m' !! j1 = Some z1 → m' !! j2 = Some z2 →
            (z1 + (z2 + y))%N = (z2 + (z1 + y))%N) as Hcomm
    by (intros; lia).
  destruct (m !! a) as [x|] eqn:Ha; simpl.
  - rewrite (map_fold_delete_L _ _ a x m (Hcomm m) Ha).
    rewrite <- (insert_delete_eq m a v).
    rewrite map_fold_insert_L; [|apply Hcomm|apply lookup_delete_eq].
    unfold uint256 in *. lia.
  - rewrite map_fold_insert_L; [|apply Hcomm|done]. unfold uint256 in *. lia.
Qed.

Lemma balances_sum_ge (m : gmap address uint256) a :
  (default 0%N (m !! a) ≤ map_fold (λ _ v acc, (v + acc)%N) 0%N m)%N.
Proof.
  destruct (m !! a) as [x|] eqn:Ha; simpl; [|lia].
  rewrite (map_fold_delete_L _ _ a x m); [|intros; lia|done].
  unfold uint256 in *. lia.
Qed.

Lemma moved_spec from to value t t' :
  MediTokenCalls.moved from to value t = inr t' →
  (value ≤ MediToken.balanceOf t from)%N
  ∧ MediToken.minters t' = MediToken.minters t
  ∧ MediToken.totalSupply t' = MediToken.totalSupply t
  ∧ MediTokenCalls.circulating t' = MediTokenCalls.circulating t
  ∧ ∀ a, MediToken.balanceOf t' a
         = if decide (a = to) then
             if decide (to = from) then MediToken.balanceOf t a
             else (MediToken.balanceOf t a + value)%N
           else if decide (a = from)
                then (MediToken.balanceOf t a - value)%N
                else MediToken.balanceOf t a.
Proof.
  unfold MediTokenCalls.moved. case_bool_decide as Hlt; [done|].
  intros [= <-]. simpl. split_and!; [lia|done|done| |].
  - unfold MediTokenCalls.circulating. simpl.
    pose proof (balances_sum_ge (MediToken.balances t) from) as Hge.
    pose proof (balances_sum_insert (MediToken.balances t) from
                  (MediToken.balanceOf t from - value)%N) as H1.
    pose proof (balances_sum_insert
                  (<[from := (MediToken.balanceOf t from - value)%N]>
                     (MediToken.balances t)) to
                  (default 0%N
                     (<[from := (MediToken.balanceOf t from - value)%N]>
                        (MediToken.balances t) !! to) + value)%N) as H2.
    unfold MediToken.balanceOf, uint256 in *. lia.
  - intros a. unfold MediToken.balanceOf. simpl.
    destruct (decide (a = to)) as [->|Hto].
    + rewrite lookup_insert_eq. simpl.
      destruct (decide (to = from)) as [->|Hne].
      * rewrite lookup_insert_eq. simpl.
        unfold MediToken.balanceOf, uint256 in *. lia.
      * by rewrite lookup_insert_ne.
    + rewrite lookup_insert_ne by done.
      destruct (decide (a = from)) as [->|Hfrom].
      * by rewrite lookup_insert_eq.
      * by rewrite lookup_insert_ne.
Qed.

Lemma transfer_between_spec from to value t t' :
  MediTokenCalls.transfer_between from to value t = inr t' →
  MediTokenCalls.moved from to value t = inr t'.
Proof.
  unfold MediTokenCalls.transfer_between. by repeat case_bool_decide.
Qed.

Lemma spendAllowance_spec holder spender value d d1 :
  MediTokenCalls.spendAllowance holder spender value d = inr d1 →
  MediTokenCalls.ledger d1 = MediTokenCalls.ledger d
  ∧ MediTokenCalls.owner d1 = MediTokenCalls.owner d
  ∧ ((value ≤ MediTokenCalls.allowance d holder spender)%N
     ∨ MediTokenCalls.allowance d holder spender = MAX_UINT256)
  ∧ ∀ h s, (MediTokenCalls.allowance d1 h s
            ≤ MediTokenCalls.allowance d h s)%N.
Proof.
  unfold MediTokenCalls.spendAllowance, MediTokenCalls.approve_for.
  repeat case_bool_decide; try done; intros [= <-]; simpl;
    (split_and!; [done|done| |]); try (by right); try (left; lia);
    try (intros; lia).
  intros h s. unfold MediTokenCalls.allowance. simpl.
  destruct (decide ((holder, spender) = (h, s))) as [[= -> ->]|Hne].
  - rewrite lookup_insert_eq. simpl. lia.
  - by rewrite lookup_insert_ne.
Qed.

(** X13.  Whatever callers do through the token's external functions
    ([mint], [burn], [addMinter], [removeMinter] and the inherited
    [transfer], [approve], [transferFrom], [transferOwnership],
    [renounceOwnership]), starting from the constructor, the total supply
    stays within [MAX_SUPPLY] and equals the sum of all balances. *)
Theorem token_supply_capped_and_accounted d :
  MediTokenCalls.reachable d →
  (MediToken.totalSupply (MediTokenCalls.ledger d) ≤ MediToken.MAX_SUPPLY)%N
  ∧ MediTokenCalls.circulating (MediTokenCalls.ledger d)
    = MediToken.totalSupply (MediTokenCalls.ledger d).
Proof.
  induction 1 as [deployer d Hd|caller c d _ [IHcap IHsum]].
  - unfold MediTokenCalls.constructor in Hd.
    case_bool_decide; [done|]. injection Hd as <-. simpl. split.
    + by vm_compute.
    + unfold MediTokenCalls.circulating. simpl.
      rewrite <- insert_empty, map_fold_insert_L, map_fold_empty;
        [lia|intros; lia|done].
  - unfold MediTokenCalls.after, MediTokenCalls.call.
    destruct c as [to amount|amount|m|m|to value|spender value
                  |from to value|newOwner|]; simpl.
    + unfold MediToken.mint.
      repeat case_bool_decide; simpl; try done. split; [done|].
      unfold MediTokenCalls.circulating in *. simpl.
      pose proof (balances_sum_insert
                    (MediToken.balances (MediTokenCalls.ledger d)) to
                    (MediToken.balanceOf (MediTokenCalls.ledger d) to + amount)%N)
        as Hsum.
      unfold MediToken.balanceOf, uint256 in *. lia.
    + unfold MediTokenCalls.burn.
      repeat case_bool_decide; simpl; try done.
      unfold MediTokenCalls.circulating in *. simpl.
      pose proof (balances_sum_insert
                    (MediToken.balances (MediTokenCalls.ledger d)) caller
                    (MediToken.balanceOf (MediTokenCalls.ledger d) caller - amount)%N)
        as Hsum.
      pose proof (balances_sum_ge
                    (MediToken.balances (MediTokenCalls.ledger d)) caller)
        as Hle.
      unfold MediTokenCalls.circulating, MediToken.balanceOf, uint256 in *. lia.
    + unfold MediTokenCalls.addMinter. by case_bool_decide.
    + unfold MediTokenCalls.removeMinter. by case_bool_decide.
    + unfold MediTokenCalls.transfer.
      destruct (MediTokenCalls.transfer_between _ _ _ _) as [e|t'] eqn:Ht;
        simpl; [done|].
      apply transfer_between_spec, moved_spec in Ht as (_ & _ & -> & -> & _).
      done.
    + unfold MediTokenCalls.approve, MediTokenCalls.approve_for.
      by repeat case_bool_decide.
    + unfold MediTokenCalls.transferFrom.
      destruct (MediTokenCalls.spendAllowance _ _ _ _) as [e|d1] eqn:Hs;
        [done|].
      apply spendAllowance_spec in Hs as (Hl & _).
      destruct (MediTokenCalls.transfer_between _ _ _ _) as [e|t'] eqn:Ht;
        simpl; [done|].
      apply transfer_between_spec, moved_spec in Ht as (_ & _ & -> & -> & _).
      by rewrite Hl.
    + unfold MediTokenCalls.transferOwnership. by repeat case_bool_decide.
    + unfold MediTokenCalls.renounceOwnership. by case_bool_decide.
Qed.

(** Closes the conjuncts of a call that leaves the component alone. *)
Ltac token_frame :=
  try done;
  try (intros; lia);
  try (intros Hne; by destruct Hne);
  try (intros a Ha; unfold MediToken.balanceOf in Ha; simpl in Ha; lia);
  try (intros h s Hlt; unfold MediTokenCalls.allowance in Hlt; simpl in Hlt;
       lia);
  try by eauto 6.

(** X18.  Who can do what to the token, for every external call: the set
    of minters changes only by [addMinter] or [removeMinter] of the owner;
    the total supply rises only by [mint] of a minter and falls only by
    [burn]; a balance goes down only by its holder's own [burn] or
    [transfer], or by [transferFrom] of a spender within the allowance the
    holder gave (or holding the unlimited allowance); an allowance rises
    only by its holder's [approve]; the owner changes only by the owner's
    own [transferOwnership] or [renounceOwnership]. *)
Theorem token_rights caller c d :
  let d' := MediTokenCalls.after caller c d in
  let t := MediTokenCalls.ledger d in
  let t' := MediTokenCalls.ledger d' in
  (MediToken.minters t' ≠ MediToken.minters t →
   caller = MediTokenCalls.owner d
   ∧ ∃ m, c = MediTokenCalls.AddMinter m ∨ c = MediTokenCalls.RemoveMinter m)
  ∧ ((MediToken.totalSupply t < MediToken.totalSupply t')%N →
     caller ∈ MediToken.minters t
     ∧ ∃ to amount, c = MediTokenCalls.Mint to amount)
  ∧ ((MediToken.totalSupply t' < MediToken.totalSupply t)%N →
     ∃ amount, c = MediTokenCalls.Burn amount)
  ∧ (∀ a, (MediToken.balanceOf t' a < MediToken.balanceOf t a)%N →
          (a = caller
           ∧ ((∃ amount, c = MediTokenCalls.Burn amount)
              ∨ ∃ to value, c = MediTokenCalls.Transfer to value))
          ∨ ∃ to value,
              c = MediTokenCalls.TransferFrom a to value
              ∧ ((value ≤ MediTokenCalls.allowance d a caller)%N
                 ∨ MediTokenCalls.allowance d a caller = MAX_UINT256))
  ∧ (∀ h s, (MediTokenCalls.allowance d h s
             < MediTokenCalls.allowance d' h s)%N →
            h = caller ∧ ∃ value, c = MediTokenCalls.Approve s value)
  ∧ (MediTokenCalls.owner d' ≠ MediTokenCalls.owner d →
     caller = MediTokenCalls.owner d
     ∧ ((∃ newOwner, c = MediTokenCalls.TransferOwnership newOwner)
        ∨ c = MediTokenCalls.RenounceOwnership)).
Proof.
  cbv zeta. unfold MediTokenCalls.after, MediTokenCalls.call.
  destruct c as [to amount|amount|m|m|to value|spender value
                |from to value|newOwner|]; simpl.
  - unfold MediToken.mint.
    repeat case_bool_decide; simpl; split_and!; token_frame.
    intros a. unfold MediToken.balanceOf. simpl.
    destruct (decide (to = a)) as [->|Hne].
    + rewrite lookup_insert_eq. simpl. unfold uint256 in *. lia.
    + rewrite lookup_insert_ne by done. unfold uint256 in *. lia.
  - unfold MediTokenCalls.burn.
    repeat case_bool_decide; simpl; split_and!; token_frame.
    intros a. unfold MediToken.balanceOf. simpl.
    destruct (decide (caller = a)) as [->|Hne].
    + eauto 6.
    + rewrite lookup_insert_ne by done. unfold uint256 in *. lia.
  - unfold MediTokenCalls.addMinter.
    case_bool_decide; simpl; split_and!; token_frame.
  - unfold MediTokenCalls.removeMinter.
    case_bool_decide; simpl; split_and!; token_frame.
  - unfold MediTokenCalls.transfer.
    destruct (MediTokenCalls.transfer_between _ _ _ _) as [e|t'] eqn:Ht; simpl.
    { split_and!; token_frame. }
    apply transfer_between_spec, moved_spec in Ht as (_ & Hm & Hs & _ & Hb).
    split_and!; token_frame.
    intros a. rewrite (Hb a). left.
    destruct (decide (a = to)) as [->|Hto].
    { destruct (decide (to = caller)); lia. }
    destruct (decide (a = caller)) as [->|Hc]; [|lia]. eauto 6.
  - unfold MediTokenCalls.approve, MediTokenCalls.approve_for.
    repeat case_bool_decide; simpl; split_and!; token_frame.
    intros h s. unfold MediTokenCalls.allowance. simpl.
    destruct (decide ((caller, spender) = (h, s))) as [[= -> ->]|Hne].
    + eauto.
    + rewrite lookup_insert_ne by done. unfold uint256 in *. lia.
  - unfold MediTokenCalls.transferFrom.
    destruct (MediTokenCalls.spendAllowance _ _ _ _) as [e|d1] eqn:Hs.
    { split_and!; token_frame. }
    apply spendAllowance_spec in Hs as (Hl & Ho & Hwithin & Hal).
    destruct (MediTokenCalls.transfer_between _ _ _ _) as [e|t'] eqn:Ht; simpl.
    { split_and!; token_frame. }
    rewrite Hl in Ht.
    apply transfer_between_spec, moved_spec in Ht as (_ & Hm & Hsup & _ & Hb).
    split_and!; token_frame.
    + intros a. rewrite (Hb a). right.
      destruct (decide (a = to)) as [->|Hto].
      { destruct (decide (to = from)); lia. }
      destruct (decide (a = from)) as [->|Hc]; [|lia]. eauto.
    + intros h s Hlt. pose proof (Hal h s) as Hle.
      unfold MediTokenCalls.allowance in *. simpl in *.
      unfold uint256 in *. lia.
  - unfold MediTokenCalls.transferOwnership.
    repeat case_bool_decide; simpl; split_and!; token_frame.
  - unfold MediTokenCalls.renounceOwnership.
    case_bool_decide; simpl; split_and!; token_frame.
Qed.

Section ClaimRun.
Context `{Collaborators}.

Lemma transact_claim_ready env id w :
  entered (store w) = false →
  isBatchReadyForCustomer (store w) id = true →
  msg_sender env ∉ isParticipant (batch_at (store w) id) →
  ∃ at_call,
    transact env (ClaimCustomerReward id) w
    = match mint (token w) (msg_sender env) CUSTOMER_REWARD with
      | inr t' =>
          ({| store := claimed env id (store w); token := t' |},
           Success [CallMint at_call (msg_sender env) CUSTOMER_REWARD;
                    Emit (CustomerRewardClaimed id (msg_sender env)
                            CUSTOMER_REWARD (block_timestamp env))])
      | inl e =>
          (w, Reverted e [CallMint at_call (msg_sender env) CUSTOMER_REWARD])
      end.
Proof.
  intros He Hready Hout. unfold isBatchReadyForCustomer in Hready.
  rewrite !andb_true_iff, negb_true_iff, bool_decide_eq_true in Hready.
  destruct Hready as [[Hex Hcl] Hall].
  unfold transact. simpl. unfold claimCustomerReward.
  rewrite run_nonReentrant by done. mrun. simpl.
  rewrite batch_at_set_entered, Hex, Hcl. simpl negb. mrun.
  rewrite !bool_decide_true by done. mrun.
  rewrite run_bind. unfold call_mint. simpl.
  destruct (mint (token w) (msg_sender env) CUSTOMER_REWARD) as [e|t'];
    [by eexists|].
  mrun. eexists. reflexivity.
Qed.

End ClaimRun.

(** X14.  The registry together with the repository's token, whatever the
    other collaborators and the registry's address are.  A claim on a
    ready batch by a non-participant succeeds exactly when the registry is
    one of the token's minters, one more MEDI fits under [MAX_SUPPLY] and
    the caller is not the zero address; it then credits the caller with
    exactly [CUSTOMER_REWARD], raises the total supply by the same amount
    and changes no other balance and no minter.  Without the minter right
    the claim reverts with "Not a minter", and at the cap with "Max supply
    exceeded". *)
Theorem claim_pays_one_token (c : Collaborators) (registry : address) env id
    (w : @World (with_MediToken registry c)) :
  reachable w →
  isBatchReadyForCustomer (store w) id = true →
  msg_sender env ∉ isParticipant (batch_at (store w) id) →
  let t := token w in
  let t' := token (world_after env (ClaimCustomerReward id) w) in
  let paid := ∃ tr, receipt_of env (ClaimCustomerReward id) w = Success tr in
  (paid ↔ registry ∈ MediToken.minters t
          ∧ (MediToken.totalSupply t + CUSTOMER_REWARD
             ≤ MediToken.MAX_SUPPLY)%N
          ∧ msg_sender env ≠ address_zero)
  ∧ (paid →
     MediToken.balanceOf t' (msg_sender env)
     = (MediToken.balanceOf t (msg_sender env) + CUSTOMER_REWARD)%N
     ∧ MediToken.totalSupply t'
       = (MediToken.totalSupply t + CUSTOMER_REWARD)%N
     ∧ (∀ a, a ≠ msg_sender env →
             MediToken.balanceOf t' a = MediToken.balanceOf t a)
     ∧ MediToken.minters t' = MediToken.minters t)
  ∧ ((registry ∉ MediToken.minters t) →
     ∃ at_call,
       receipt_of env (ClaimCustomerReward id) w
       = Reverted (Revert "Not a minter")
           [CallMint at_call (msg_sender env) CUSTOMER_REWARD])
  ∧ (registry ∈ MediToken.minters t →
     (MediToken.MAX_SUPPLY < MediToken.totalSupply t + CUSTOMER_REWARD
      ≤ MAX_UINT256)%N →
     ∃ at_call,
       receipt_of env (ClaimCustomerReward id) w
       = Reverted (Revert "Max supply exceeded")
           [CallMint at_call (msg_sender env) CUSTOMER_REWARD]).
Proof.
  intros Hreach Hready Hout.
  pose proof (reachable_inv w Hreach) as [_ _ He].
  destruct (transact_claim_ready env id w He Hready Hout) as [at_call Hrun].
  unfold receipt_of, world_after. rewrite Hrun. clear Hrun.
  change (@mint (with_MediToken registry c)) with (MediToken.mint registry).
  unfold MediToken.mint. cbv zeta.
  assert (MediToken.MAX_SUPPLY < MAX_UINT256)%N as Hmax
    by (apply (bool_decide_unpack _); by vm_compute).
  set (cap := MediToken.MAX_SUPPLY) in *.
  set (top := MAX_UINT256) in *.
  set (reward := CUSTOMER_REWARD) in *.
  clearbody cap top reward.
  set (supply := MediToken.totalSupply (token w)) in *.
  destruct (decide (registry ∈ MediToken.minters (token w)))
    as [Hm|Hm].
  2:{ rewrite (bool_decide_false _ Hm). simpl. split_and!.
      - split; [by intros [tr [=]]|by intros [? _]].
      - by intros [tr [=]].
      - intros _. by exists at_call.
      - done. }
  rewrite (bool_decide_true _ Hm).
  destruct (decide (top < supply + reward)%N) as [Hov|Hov].
  { rewrite (bool_decide_true _ Hov). simpl. split_and!.
    - split; [by intros [tr [=]]|intros (_ & ? & _); lia].
    - by intros [tr [=]].
    - done.
    - intros _ [_ ?]. lia. }
  rewrite (bool_decide_false _ Hov).
  destruct (decide (supply + reward ≤ cap)%N) as [Hcap|Hcap].
  2:{ rewrite (bool_decide_false _ Hcap). simpl. split_and!.
      - split; [by intros [tr [=]]|by intros (_ & ? & _)].
      - by intros [tr [=]].
      - done.
      - intros _ _. by exists at_call. }
  rewrite (bool_decide_true _ Hcap).
  destruct (decide (msg_sender env = address_zero)) as [Hz|Hz].
  { rewrite (bool_decide_true _ Hz). simpl. split_and!.
    - split; [by intros [tr [=]]|by intros (_ & _ & ?)].
    - by intros [tr [=]].
    - done.
    - intros _ [? _]. lia. }
  rewrite (bool_decide_false _ Hz). simpl. split_and!.
  - split; [done|eauto].
  - intros _. split_and!; try reflexivity.
    + unfold MediToken.balanceOf. simpl. by rewrite lookup_insert_eq.
    + intros a Ha. unfold MediToken.balanceOf. simpl.
      by rewrite lookup_insert_ne.
  - done.
  - intros _ [? _]. lia.
Qed.

(** * The backend's channel buffer *)

Section ManagerProperties.
Import ChannelManager.
Context {BatchData : Type} (id_of : N → string).
Implicit Types (m : Manager BatchData) (ch : Channel BatchData).

Lemma channels_put m k ch k' :
  channels (put k ch m) !! k'
  = if decide (k = k') then Some ch else channels m !! k'.
Proof.
  unfold put. simpl. destruct (decide (k = k')) as [->|Hne].
  - by rewrite lookup_insert_eq.
  - by rewrite lookup_insert_ne.
Qed.

Lemma closeAndSettleChannel_channel outcome k m ch :
  channels m !! k = Some ch →
  ∃ st tx,
    (closeAndSettleChannel outcome k m).1
    = put k {| id := id ch; chainKey := chainKey ch; status := st;
               state := state ch; nonce := nonce ch;
               createdAt := createdAt ch; settlementTx := tx |} m
    ∧ ((st = settled ∧ is_Some tx
        ∧ ∃ r, (closeAndSettleChannel outcome k m).2 = Returned r)
       ∨ (st = failed ∧ tx = settlementTx ch
          ∧ ∃ e, (closeAndSettleChannel outcome k m).2 = Thrown e)).
Proof.
  intros Hk. unfold closeAndSettleChannel. rewrite Hk. simpl.
  case_bool_decide; [destruct outcome as [e|hash]|]; simpl;
    eexists _, _; (split; [reflexivity|]); eauto 8.
Qed.

(** X15.  In every state the manager can reach, a stored channel is filed
    under its own id, its nonce is the number of buffered entries, its
    verification and update lists are empty, it is never left in
    'settling', an open channel has no settlement transaction and fewer
    than ten buffered entries, and a settled one names its transaction. *)
Theorem manager_channels_stay_consistent m k ch :
  reachable id_of m → channels m !! k = Some ch → channel_ok k ch.
Proof.
  intros Hreach. revert k ch.
  induction Hreach as [registries|r m _ IH]; intros k ch.
  - unfold new_manager. simpl. by rewrite lookup_empty.
  - destruct r as [id_now created_now key|now outcome cid d|outcome cid];
      unfold handle.
    + unfold createChannel. cbn [fst]. rewrite channels_put. destruct (decide _) as [<-|_]; [|apply IH].
      intros [= <-]. split; simpl; try done. intros _. split; [done|lia].
    + unfold addBatchToChannel.
      destruct (channels m !! cid) as [c0|] eqn:Hc; [|apply IH].
      pose proof (IH _ _ Hc) as [Hid Hn Hv Hu Ho Hs Hg].
      cbv zeta. case_bool_decide as Hlen.
      * destruct (closeAndSettleChannel_channel outcome cid
                    (put cid (pushed {| data := d; timestamp := now |} c0) m)
                    (pushed {| data := d; timestamp := now |} c0))
          as (st & tx & Hm & Hcase).
        { rewrite channels_put. by destruct (decide _). }
        assert ((let '(m2, r) :=
                   closeAndSettleChannel outcome cid
                     (put cid (pushed {| data := d; timestamp := now |} c0) m)
                 in match r with
                    | Returned _ =>
                        (m2, Returned
                               (default
                                  (pushed {| data := d; timestamp := now |} c0)
                                  (channels m2 !! cid)))
                    | Thrown message => (m2, Thrown message)
                    end).1
                = (closeAndSettleChannel outcome cid
                     (put cid (pushed {| data := d; timestamp := now |} c0) m)).1)
          as ->.
        { by destruct (closeAndSettleChannel _ _ _) as [m2 [?|?]]. }
        rewrite Hm, !channels_put.
        destruct (decide (cid = k)) as [<-|Hne].
        -- intros [= <-]. split; simpl; try done.
           ++ rewrite length_app. simpl. lia.
           ++ intros Hst. destruct Hcase as [(-> & _)|(-> & _)]; done.
           ++ intros Hst. destruct Hcase as [(_ & ? & _)|(-> & _)]; done.
           ++ destruct Hcase as [(-> & _)|(-> & _)]; done.
        -- destruct (decide (cid = k)); [done|]. apply IH.
      * cbn [fst]. rewrite channels_put.
        destruct (decide (cid = k)) as [<-|_]; [|apply IH].
        intros [= <-]. split; simpl; try done.
        -- rewrite length_app. simpl. lia.
        -- intros Hst. split; [by apply Ho|]. simpl in Hlen. lia.
    + destruct (channels m !! cid) as [c0|] eqn:Hc.
      * destruct (closeAndSettleChannel_channel outcome cid m c0 Hc)
          as (st & tx & -> & Hcase).
        pose proof (IH _ _ Hc) as [Hid Hn Hv Hu Ho Hs Hg].
        rewrite channels_put.
        destruct (decide (cid = k)) as [<-|_]; [|apply IH].
        intros [= <-]. split; simpl; try done.
        -- intros Hst. destruct Hcase as [(-> & _)|(-> & _)]; done.
        -- intros Hst. destruct Hcase as [(_ & ? & _)|(-> & _)]; done.
        -- destruct Hcase as [(-> & _)|(-> & _)]; done.
      * unfold closeAndSettleChannel. rewrite Hc. apply IH.
Qed.

Lemma closeAndSettleChannel_found outcome k m ch :
  channels m !! k = Some ch →
  closeAndSettleChannel outcome k m
  = if bool_decide (String.append (chainKey ch) "_registry" ∈ contracts m)
    then match outcome with
         | inr hash =>
             (put k (with_settlementTx hash
                       (with_status settled (with_status settling ch))) m,
              Returned {| s_channelId := k; s_settlementTx := hash;
                          s_batchCount := length (batches (state ch)) |})
         | inl message =>
             (put k (with_status failed (with_status settling ch)) m,
              Thrown message)
         end
    else (put k (with_status failed (with_status settling ch)) m,
          Thrown "Registry contract not found").
Proof. intros Hk. unfold closeAndSettleChannel. by rewrite Hk. Qed.

(** X16.  An entry handed to [addBatchToChannel] is never lost.  On an
    existing channel the buffer grows by exactly that entry and the nonce by
    one, whatever the channel's status and whatever happens next; no other
    channel changes.  Below ten buffered entries nothing else happens.  From
    the tenth on a settlement is attempted on every call: if it succeeds the
    channel is returned settled; if it fails the call throws, the channel is
    left 'failed' and the entry stays buffered.  On an unknown channel the
    call throws and changes nothing. *)
Theorem added_entry_is_always_buffered now outcome k (d : BatchData) m :
  let run := addBatchToChannel now outcome k d m in
  match channels m !! k with
  | None => run = (m, Thrown "Channel not found")
  | Some ch =>
      let registry := String.append (chainKey ch) "_registry" ∈ contracts m in
      ∃ ch',
        channels run.1 !! k = Some ch'
        ∧ batches (state ch')
          = batches (state ch) ++ [{| data := d; timestamp := now |}]
        ∧ nonce ch' = (nonce ch + 1)%N
        ∧ (∀ k', k' ≠ k → channels run.1 !! k' = channels m !! k')
        ∧ ((length (batches (state ch)) < 9)%nat →
           status ch' = status ch ∧ settlementTx ch' = settlementTx ch
           ∧ run.2 = Returned ch')
        ∧ ((9 ≤ length (batches (state ch)))%nat →
           match outcome with
           | inr hash =>
               registry →
               status ch' = settled ∧ settlementTx ch' = Some hash
               ∧ run.2 = Returned ch'
           | inl message =>
               registry →
               status ch' = failed ∧ settlementTx ch' = settlementTx ch
               ∧ run.2 = Thrown message
           end
           ∧ (¬ registry →
              status ch' = failed ∧ settlementTx ch' = settlementTx ch
              ∧ run.2 = Thrown "Registry contract not found"))
  end.
Proof.
  cbv zeta. unfold addBatchToChannel.
  destruct (channels m !! k) as [ch|] eqn:Hk; [|done].
  cbv zeta. case_bool_decide as Hlen.
  - simpl in Hlen. rewrite length_app in Hlen. simpl in Hlen.
    unfold closeAndSettleChannel. rewrite channels_put.
    destruct (decide (k = k)); [|done]. cbv zeta.
    change (chainKey (with_status settling (pushed ?e ch)))
      with (chainKey ch).
    change (contracts (put ?a ?b m)) with (contracts m).
    case_bool_decide as Hreg; [destruct outcome as [message|hash]|];
      cbn [fst snd]; rewrite !channels_put;
      (destruct (decide (k = k)); [|done]); simpl;
      (eexists; split_and!; [reflexivity|reflexivity|reflexivity| | |]);
      try (intros k' Hne; rewrite lookup_insert_ne by done;
           by rewrite lookup_insert_ne by done);
      try (intros; lia); intros _; split; try done.
    by destruct outcome.
  - simpl in Hlen. rewrite length_app in Hlen. simpl in Hlen.
    cbn [fst snd]. rewrite channels_put.
    destruct (decide (k = k)); [|done].
    eexists; split_and!; [reflexivity|reflexivity|reflexivity| | |].
    + intros k' Hne. rewrite channels_put. by destruct (decide (k = k')).
    + done.
    + intros. lia.
Qed.

(** X17.  [closeAndSettleChannel] on an existing channel returns exactly
    when the chain has a registry contract and the transaction went
    through: the channel is then 'settled' under that transaction hash and
    the reported batch count is the buffer length.  Otherwise it throws and
    leaves the channel 'failed' with its previous transaction hash.  Either
    way the buffer, the nonce and all other channels are untouched, and the
    status before the call is not looked at: after a successful settlement
    a second call submits the same entries again.  On an unknown channel
    the call throws and changes nothing. *)
Theorem settlement_never_empties_the_buffer outcome k m :
  let run := closeAndSettleChannel outcome k m in
  match channels m !! k with
  | None => run = (m : Manager BatchData, Thrown "Channel not found")
  | Some ch =>
      let registry := String.append (chainKey ch) "_registry" ∈ contracts m in
      ∃ ch',
        channels run.1 !! k = Some ch'
        ∧ state ch' = state ch ∧ nonce ch' = nonce ch
        ∧ chainKey ch' = chainKey ch ∧ createdAt ch' = createdAt ch
        ∧ (∀ k', k' ≠ k → channels run.1 !! k' = channels m !! k')
        ∧ match run.2 with
          | Returned r =>
              registry ∧ outcome = inr (s_settlementTx r)
              ∧ status ch' = settled
              ∧ settlementTx ch' = Some (s_settlementTx r)
              ∧ s_channelId r = k
              ∧ s_batchCount r = length (batches (state ch))
              ∧ ∀ hash,
                  (closeAndSettleChannel (inr hash) k run.1).2
                  = Returned {| s_channelId := k; s_settlementTx := hash;
                                s_batchCount := s_batchCount r |}
          | Thrown message =>
              status ch' = failed ∧ settlementTx ch' = settlementTx ch
              ∧ if decide registry then outcome = inl message
                else message = "Registry contract not found"
          end
  end.
Proof.
  cbv zeta. destruct (channels m !! k) as [ch|] eqn:Hk;
    [|unfold closeAndSettleChannel; by rewrite Hk].
  rewrite (closeAndSettleChannel_found outcome k m ch Hk).
  destruct (decide (String.append (chainKey ch) "_registry" ∈ contracts m))
    as [Hreg|Hreg].
  - rewrite (bool_decide_true _ Hreg).
    destruct outcome as [message|hash]; cbn [fst snd]; rewrite channels_put;
      (destruct (decide (k = k)); [|done]);
      (eexists; do 5 (split; [reflexivity|]); split);
      try (intros k' Hne; rewrite channels_put; by destruct (decide (k = k'))).
    + done.
    + split_and!; try done. intros hash'.
      unfold closeAndSettleChannel. rewrite channels_put.
      destruct (decide (k = k)); [|done]. simpl.
      by rewrite (bool_decide_true _ Hreg).
  - rewrite (bool_decide_false _ Hreg). cbn [fst snd]. rewrite channels_put.
    destruct (decide (k = k)); [|done].
    eexists; do 5 (split; [reflexivity|]); split.
    + intros k' Hne. rewrite channels_put. by destruct (decide (k = k')).
    + done.
Qed.

End ManagerProperties.

(** * The properties in the local deployment *)

Lemma reachable_w_verified : reachable Local.w_verified.
Proof.
  unfold Local.w_verified, Local.w_verified1, Local.w_settled, Local.w_open.
  repeat apply reach_call. apply reach_deploy.
Qed.

Lemma reachable_w_settled : reachable Local.w_settled.
Proof.
  unfold Local.w_settled, Local.w_open.
  repeat apply reach_call. apply reach_deploy.
Qed.

Lemma reachable_w_open : reachable Local.w_open.
Proof. unfold Local.w_open. apply reach_call. apply reach_deploy. Qed.

Lemma reachable_w_claimed : reachable Local.w_claimed.
Proof. unfold Local.w_claimed. apply reach_call, reachable_w_verified. Qed.

Lemma reachable_w_reopened : reachable Local.w_reopened.
Proof.
  unfold Local.w_reopened, Local.w_closed.
  do 2 apply reach_call. apply reachable_w_open.
Qed.

(** X1: the claim of B1 leaves its registration as it was. *)
Lemma registration_is_permanent_witness :
  let env := Local.at_ Local.customer 200 in
  let call := ClaimCustomerReward "B1" in
  reachable Local.w_verified
  ∧ exists_ (batch_at (store Local.w_verified) "B1") = true
  ∧ registration_of (batch_at (store (world_after env call Local.w_verified)) "B1")
    = registration_of (batch_at (store Local.w_verified) "B1").
Proof.
  cbv zeta. split_and!.
  - exact reachable_w_verified.
  - by vm_compute.
  - assert (exists_ (batch_at (store Local.w_verified) "B1") = true)
      as Hex by by vm_compute.
    destruct (registration_is_permanent (Local.at_ Local.customer 200)
                (ClaimCustomerReward "B1") Local.w_verified "B1"
                reachable_w_verified Hex) as (_ & Hreg & _).
    exact Hreg.
Defined.

(** X2: after the customer's claim a second claim of B1 is refused. *)
Lemma claimed_batch_is_final_witness :
  reachable Local.w_claimed
  ∧ rewardClaimed (batch_at (store Local.w_claimed) "B1") = true
  ∧ receipt_of (Local.at_ 60 300) (ClaimCustomerReward "B1") Local.w_claimed
    = Reverted (Revert "Reward already claimed") [].
Proof.
  split_and!.
  - exact reachable_w_claimed.
  - by vm_compute.
  - assert (rewardClaimed (batch_at (store Local.w_claimed) "B1") = true)
      as Hcl by by vm_compute.
    destruct (claimed_batch_is_final (Local.at_ 60 300)
                (ClaimCustomerReward "B1") Local.w_claimed "B1"
                reachable_w_claimed Hcl) as (_ & _ & Hrec).
    exact Hrec.
Defined.

(** X3: B1 is ready once participants 11 and 12 have verified. *)
Lemma ready_iff_all_verified_witness :
  reachable Local.w_verified
  ∧ isBatchReadyForCustomer (store Local.w_verified) "B1" = true
  ∧ ∀ a, a ∈ isParticipant (batch_at (store Local.w_verified) "B1") →
         hasVerified (participant_at (store Local.w_verified) "B1" a) = true.
Proof.
  assert (isBatchReadyForCustomer (store Local.w_verified) "B1" = true)
    as Hready by by vm_compute.
  split_and!.
  - exact reachable_w_verified.
  - exact Hready.
  - apply (proj1 (ready_iff_all_verified "B1" Local.w_verified
                    reachable_w_verified) Hready).
Defined.

(** X4: before any verification the claim of B1 is refused. *)
Lemma claim_follows_the_views_witness :
  reachable Local.w_settled
  ∧ isBatchReadyForCustomer (store Local.w_settled) "B1" = false
  ∧ ∃ reason,
      receipt_of (Local.at_ Local.customer 25) (ClaimCustomerReward "B1")
        Local.w_settled
      = Reverted (Revert reason) [].
Proof.
  assert (isBatchReadyForCustomer (store Local.w_settled) "B1" = false)
    as Hnot by by vm_compute.
  split_and!.
  - exact reachable_w_settled.
  - exact Hnot.
  - eexists.
    exact (proj2 (claim_follows_the_views (Local.at_ Local.customer 25) "B1"
                    Local.w_settled reachable_w_settled) Hnot).
Defined.

(** X5: the status of B1 after the claim. *)
Lemma status_view_consistent_witness :
  reachable Local.w_claimed
  ∧ match getBatchSupplyChainStatus (store Local.w_claimed) "B1" with
    | inr (total, verified, claimed_, claimant) =>
        (verified ≤ total)%N ∧ (0 < total)%N
    | inl _ => False
    end.
Proof.
  split; [exact reachable_w_claimed|].
  pose proof (status_view_consistent "B1" Local.w_claimed reachable_w_claimed)
    as Hview.
  destruct (getBatchSupplyChainStatus (store Local.w_claimed) "B1")
    as [e|[[[total verified] claimed_] claimant]].
  - destruct Hview as [_ Hex]. by vm_compute in Hex.
  - destruct Hview as (_ & Hle & Hpos & _). by split.
Defined.

(** X6: the participants of B1. *)
Lemma getBatchParticipants_lists_the_participants_witness :
  reachable Local.w_settled
  ∧ match getBatchParticipants (store Local.w_settled) "B1" with
    | inr l => NoDup l ∧ (address_zero ∉ l)
    | inl _ => False
    end.
Proof.
  split; [exact reachable_w_settled|].
  pose proof (getBatchParticipants_lists_the_participants "B1" Local.w_settled
                reachable_w_settled) as Hview.
  destruct (getBatchParticipants (store Local.w_settled) "B1") as [e|l].
  - destruct Hview as [_ Hex]. by vm_compute in Hex.
  - destruct Hview as (_ & _ & Hnd & _ & Hnz & _). by split.
Defined.

(** X7: participant 11 verifies B1 in Mumbai. *)
Lemma verification_records_the_attestation_witness :
  let env := Local.at_ 11 30 in
  let call :=
    VerifySupplyChainTransfer "B1" "Mumbai" "cold chain ok"
      (Local.signed_by 11%N) in
  reachable Local.w_settled
  ∧ exists_ (batch_at (store Local.w_settled) "B1") = true
  ∧ 11%N ∈ isParticipant (batch_at (store Local.w_settled) "B1")
  ∧ rewardClaimed (batch_at (store Local.w_settled) "B1") = false
  ∧ hasVerified (participant_at (store Local.w_settled) "B1" 11%N) = false
  ∧ getParticipantDetails (store (world_after env call Local.w_settled))
      "B1" 11%N
    = inr (role (participant_at (store Local.w_settled) "B1" 11%N), true,
           30%N, "Mumbai", "cold chain ok")
  ∧ verifiedCount (batch_at (store (world_after env call Local.w_settled)) "B1")
    = (verifiedCount (batch_at (store Local.w_settled) "B1") + 1)%N.
Proof.
  cbv zeta.
  assert (11%N ∈ isParticipant (batch_at (store Local.w_settled) "B1"))
    as Hin by (apply (bool_decide_unpack _); by vm_compute).
  assert (exists_ (batch_at (store Local.w_settled) "B1") = true)
    as Hex by by vm_compute.
  assert (rewardClaimed (batch_at (store Local.w_settled) "B1") = false)
    as Hcl by by vm_compute.
  assert (hasVerified (participant_at (store Local.w_settled) "B1" 11%N)
          = false) as Hnv by by vm_compute.
  split_and!; [exact reachable_w_settled|exact Hex|exact Hin|exact Hcl
              |exact Hnv| |].
  all: assert (@recover Local.chain
                 (@toEthSignedMessageHash Local.chain
                    (@keccak256 Local.chain
                       (@encodePacked Local.chain "B1" 11%N "Mumbai"
                          "cold chain ok")))
                 (Local.signed_by 11%N) = Some 11%N) as Hsig by by vm_compute.
  all: assert (totalParticipants (batch_at (store Local.w_settled) "B1")
               ≤ MAX_UINT256)%N
         as Hfit by (apply (bool_decide_unpack _); by vm_compute).
  all: destruct (verification_records_the_attestation (Local.at_ 11 30) "B1"
                   "Mumbai" "cold chain ok" (Local.signed_by 11%N)
                   Local.w_settled reachable_w_settled Hex Hin Hcl Hnv Hsig Hfit)
         as (_ & Hdetails & Hcount).
  - exact Hdetails.
  - exact Hcount.
Defined.

(** X9: on the reopened channel 7 participant 2, who is no manufacturer,
    signs a settlement. *)
Lemma settlement_authorization_witness :
  reachable Local.w_reopened
  ∧ c_isOpen (channel_at (store Local.w_reopened) 7%N) = true
  ∧ receipt_of (Local.at_ 2 40)
      (SettleChannel 7%N (Local.payload 0) (Local.signed_by 2%N))
      Local.w_reopened
    = Reverted (Revert "Signer not a manufacturer") [].
Proof.
  assert (c_isOpen (channel_at (store Local.w_reopened) 7%N) = true)
    as Hopen by by vm_compute.
  split_and!; [exact reachable_w_reopened|exact Hopen|].
  destruct (settlement_authorization (Local.at_ 2 40) 7%N (Local.payload 0)
              (Local.signed_by 2%N) Local.w_reopened reachable_w_reopened Hopen)
    as (_ & _ & Hsigner & _).
  assert (@abi_decode Local.chain (Local.payload 0)
          = Some [Local.batch_B1; Local.batch_B2]) as Hdec by by vm_compute.
  assert (@recover Local.chain
            (@toEthSignedMessageHash Local.chain
               (@keccak256 Local.chain (Local.payload 0)))
            (Local.signed_by 2%N) = Some 2%N) as Hrec by by vm_compute.
  destruct (Hsigner _ _ Hdec Hrec) as [_ Hrole]. apply Hrole.
  - apply (bool_decide_unpack _). by vm_compute.
  - by vm_compute.
Defined.

(** X10: the settlement of channel 7 submitted by address 99, which holds
    no role. *)
Lemma settlement_open_to_any_caller_witness :
  let call :=
    SettleChannel 7%N (Local.payload 0) (Local.signed_by Local.deployer) in
  reachable Local.w_open
  ∧ block_timestamp (Local.at_ Local.deployer 20)
    = block_timestamp (Local.at_ 99 20)
  ∧ (∃ tr, receipt_of (Local.at_ 99 20) call Local.w_open = Success tr)
  ∧ manufacturer
      (batch_at (store (world_after (Local.at_ 99 20) call Local.w_open)) "B1")
    = 99%N.
Proof.
  cbv zeta.
  destruct (settlement_open_to_any_caller (Local.at_ 99 20)
              (Local.at_ Local.deployer 20) 7%N (Local.payload 0)
              (Local.signed_by Local.deployer) Local.w_open
              reachable_w_open eq_refl) as [Hiff Hnew].
  split_and!; [exact reachable_w_open|reflexivity| |].
  - apply Hiff.
    destruct (receipt_of (Local.at_ Local.deployer 20)
                (SettleChannel 7%N (Local.payload 0)
                   (Local.signed_by Local.deployer)) Local.w_open)
      as [tr|e tr] eqn:Hrec; [by exists tr|by vm_compute in Hrec].
  - apply (Hnew "B1"); by vm_compute.
Defined.

(** X11: channel 7 before and after its settlement. *)
Lemma channel_nonce_counts_one_settlement_witness :
  let env := Local.at_ Local.deployer 20 in
  let call :=
    SettleChannel 7%N (Local.payload 0) (Local.signed_by Local.deployer) in
  reachable Local.w_open
  ∧ c_nonce (channel_at (store Local.w_open) 7%N) = 0%N
  ∧ c_nonce (channel_at (store (world_after env call Local.w_open)) 7%N) = 1%N.
Proof.
  cbv zeta.
  destruct (channel_nonce_counts_one_settlement (Local.at_ Local.deployer 20)
              (SettleChannel 7%N (Local.payload 0)
                 (Local.signed_by Local.deployer))
              Local.w_open 7%N reachable_w_open) as (_ & Hopen & Hdone).
  split_and!; [exact reachable_w_open| |].
  - apply Hopen. by vm_compute.
  - destruct Hdone as [Hsettle _].
    + destruct (receipt_of (Local.at_ Local.deployer 20)
                  (SettleChannel 7%N (Local.payload 0)
                     (Local.signed_by Local.deployer)) Local.w_open)
        as [tr|e tr] eqn:Hrec; [by exists tr|by vm_compute in Hrec].
    + by rewrite (Hsettle _ _ eq_refl).
Defined.

Lemma reachable_w_unlisted : reachable Demo.w_unlisted.
Proof.
  exact (@reach_token Local.chain Demo.token_without_registry Local.w_verified
           reachable_w_verified).
Qed.

(** X12: the customer claims B1 while the registry is no minter. *)
Lemma refused_mint_undoes_the_claim_witness :
  let env := Local.at_ Local.customer 200 in
  reachable Demo.w_unlisted
  ∧ isBatchReadyForCustomer (store Demo.w_unlisted) "B1" = true
  ∧ (Local.customer ∉ isParticipant (batch_at (store Demo.w_unlisted) "B1"))
  ∧ @mint Local.chain (token Demo.w_unlisted) Local.customer CUSTOMER_REWARD
    = inl (Revert "Not a minter")
  ∧ world_after env (ClaimCustomerReward "B1") Demo.w_unlisted
    = Demo.w_unlisted.
Proof.
  cbv zeta.
  assert (isBatchReadyForCustomer (store Demo.w_unlisted) "B1" = true)
    as Hready by by vm_compute.
  assert (Local.customer ∉ isParticipant (batch_at (store Demo.w_unlisted) "B1"))
    as Hout by (apply (bool_decide_unpack _); by vm_compute).
  assert (@mint Local.chain (token Demo.w_unlisted) Local.customer
            CUSTOMER_REWARD = inl (Revert "Not a minter"))
    as Hmint by by vm_compute.
  split_and!; [exact reachable_w_unlisted|exact Hready|exact Hout|exact Hmint|].
  destruct (refused_mint_undoes_the_claim (Local.at_ Local.customer 200) "B1"
              Demo.w_unlisted (Revert "Not a minter") reachable_w_unlisted
              Hready Hout Hmint) as (_ & Hsame & _).
  exact Hsame.
Defined.

(** X13: the token after five units were minted to the customer. *)
Lemma token_supply_capped_and_accounted_witness :
  MediTokenCalls.reachable Demo.token_minted
  ∧ (MediToken.totalSupply (MediTokenCalls.ledger Demo.token_minted)
     ≤ MediToken.MAX_SUPPLY)%N
  ∧ MediTokenCalls.circulating (MediTokenCalls.ledger Demo.token_minted)
    = MediToken.totalSupply (MediTokenCalls.ledger Demo.token_minted).
Proof.
  assert (MediTokenCalls.reachable Demo.token_minted) as Hreach.
  { unfold Demo.token_minted. apply MediTokenCalls.reach_after.
    apply (MediTokenCalls.reach_constructor Local.deployer).
    by vm_compute. }
  split; [exact Hreach|].
  exact (token_supply_capped_and_accounted Demo.token_minted Hreach).
Defined.

(** X14: the customer's claim of B1 pays one MEDI. *)
Lemma claim_pays_one_token_witness :
  let env := Local.at_ Local.customer 200 in
  reachable Local.w_verified
  ∧ isBatchReadyForCustomer (store Local.w_verified) "B1" = true
  ∧ (Local.customer ∉ isParticipant (batch_at (store Local.w_verified) "B1"))
  ∧ (∃ tr, receipt_of env (ClaimCustomerReward "B1") Local.w_verified
           = Success tr)
  ∧ MediToken.balanceOf
      (token (world_after env (ClaimCustomerReward "B1") Local.w_verified))
      Local.customer
    = (MediToken.balanceOf (token Local.w_verified) Local.customer
       + CUSTOMER_REWARD)%N.
Proof.
  cbv zeta.
  assert (isBatchReadyForCustomer (store Local.w_verified) "B1" = true)
    as Hready by by vm_compute.
  assert (Local.customer ∉ isParticipant (batch_at (store Local.w_verified) "B1"))
    as Hout by (apply (bool_decide_unpack _); by vm_compute).
  destruct (claim_pays_one_token Local.chain Local.registry_address
              (Local.at_ Local.customer 200) "B1"
              Local.w_verified reachable_w_verified Hready Hout)
    as (Hiff & Hpaid & _).
  assert (∃ tr, receipt_of (Local.at_ Local.customer 200)
                  (ClaimCustomerReward "B1") Local.w_verified = Success tr)
    as Hsuccess.
  { apply Hiff. split_and!.
    - apply (bool_decide_unpack _). by vm_compute.
    - apply (bool_decide_unpack _). by vm_compute.
    - discriminate. }
  split_and!; [exact reachable_w_verified|exact Hready|exact Hout
              |exact Hsuccess|].
  exact (proj1 (Hpaid Hsuccess)).
Defined.

(** X15: the channel of the local manager after one entry was added. *)
Lemma manager_channels_stay_consistent_witness :
  ChannelManager.reachable Demo.id_of Demo.m_buffered
  ∧ ∃ ch,
      ChannelManager.channels Demo.m_buffered !! "0xc1" = Some ch
      ∧ ChannelManager.channel_ok "0xc1" ch.
Proof.
  assert (ChannelManager.reachable Demo.id_of Demo.m_buffered) as Hreach.
  { unfold Demo.m_buffered, Demo.m_created.
    do 2 apply ChannelManager.reach_handle. apply ChannelManager.reach_new. }
  split; [exact Hreach|].
  destruct (ChannelManager.channels Demo.m_buffered !! "0xc1") as [ch|] eqn:Hch;
    [|by vm_compute in Hch].
  exists ch. split; [reflexivity|].
  exact (manager_channels_stay_consistent Demo.id_of Demo.m_buffered "0xc1" ch
           Hreach Hch).
Defined.
